(** * nanobot filesystem tools: a shallow embedding and its properties

    The development embeds [nanobot/agent/tools/filesystem.py]: the eight
    tools [read_file], [write_file], [edit_file], [list_dir], [rename_file],
    [move_file], [copy_file] and [create_dir].  Each [execute] method is
    transcribed statement by statement over a model of what it calls:

    - Python [str] values are lists of Unicode code points, file contents
      are lists of bytes, and the UTF-8 codec between them is written out;
    - [pathlib.Path] values are a root marker and a list of components,
      with [parent], [name], [/] and [expanduser] as in [PurePosixPath];
    - the file system is a tree of directories and regular files carrying
      the access bits of the calling user (POSIX rules, no symbolic links,
      one device, working directory at the root of the tree);
    - a call either returns or raises, so every operation lives in a state
      and exception monad, and [try]/[except] is an explicit handler that
      tests the class of the raised exception;
    - the library functions called ([pathlib], [os], [shutil]) follow
      CPython 3.11 on Linux: a path handed to the system is a string that
      [os.fsencode] can encode and that holds no NUL, a component has at
      most [NAME_MAX] bytes and a path fewer than [PATH_MAX];
    - the [name] and [parameters] declarations of the tools are kept as
      data, next to the binding of keyword arguments to the parameters of
      [execute]. *)

From Stdlib.Strings Require Import Ascii String Byte.
From Stdlib Require DecimalString.
From Stdlib Require Import List NArith Arith Bool Lia.
From Stdlib Require Import Sorted Permutation.
Import ListNotations.

Set Implicit Arguments.
Local Open Scope list_scope.

(** ** Python strings *)

(** A [str] is a sequence of code points; [len] counts code points. *)
Definition codepoint := N.
Definition str := list codepoint.

Definition len (s : str) : nat := length s.

(** ASCII literals of the source, as code points. *)
Definition py (s : String.string) : str :=
  map N_of_ascii (String.list_ascii_of_string s).
Arguments py s%_string.

(** [f"{n}"] for a non-negative integer. *)
Definition str_of_nat (n : nat) : str :=
  py (DecimalString.NilEmpty.string_of_uint (Nat.to_uint n)).

Definition str_eqb (a b : str) : bool :=
  if list_eq_dec N.eq_dec a b then true else false.

(** [s.startswith(p)]. *)
Fixpoint startswith (p s : str) : bool :=
  match p, s with
  | [], _ => true
  | _ :: _, [] => false
  | a :: p', b :: s' => N.eqb a b && startswith p' s'
  end.

(** [sub in s]. *)
Fixpoint contains (sub s : str) : bool :=
  startswith sub s ||
  match s with
  | [] => false
  | _ :: s' => contains sub s'
  end.

(** [s.count(sub)]: the number of non-overlapping occurrences, scanning
    from the left; [skip] is the number of characters still covered by the
    occurrence counted last.  The empty string is counted between all
    characters and at both ends. *)
Fixpoint count_from (sub s : str) (skip : nat) : nat :=
  match s with
  | [] => 0
  | _ :: s' =>
      match skip with
      | S k => count_from sub s' k
      | O =>
          if startswith sub s
          then S (count_from sub s' (length sub - 1))
          else count_from sub s' 0
      end
  end.

Definition count (s sub : str) : nat :=
  match sub with
  | [] => S (length s)
  | _ :: _ => count_from sub s 0
  end.

(** [s.replace(old, new, 1)]: the leftmost occurrence is replaced. *)
Fixpoint replace_first (s old new : str) : str :=
  if startswith old s then new ++ skipn (length old) s
  else match s with
       | [] => []
       | c :: s' => c :: replace_first s' old new
       end.

(** ** The UTF-8 codec *)

Definition byte_of_N (n : N) : byte :=
  match Byte.of_N n with
  | Some b => b
  | None => x00
  end.

Definition is_surrogate (c : codepoint) : bool :=
  (0xD800 <=? c)%N && (c <=? 0xDFFF)%N.

(** [chr.encode("utf-8")] for one code point; [None] is
    [UnicodeEncodeError] (a lone surrogate). *)
Definition utf8_encode_cp (c : codepoint) : option (list byte) :=
  if (c <? 0x80)%N then Some [byte_of_N c]
  else if (c <? 0x800)%N then
    Some [byte_of_N (0xC0 + c / 64); byte_of_N (0x80 + c mod 64)]
  else if (c <? 0x10000)%N then
    if is_surrogate c then None
    else Some [byte_of_N (0xE0 + c / 4096);
               byte_of_N (0x80 + (c / 64) mod 64);
               byte_of_N (0x80 + c mod 64)]
  else if (c <? 0x110000)%N then
    Some [byte_of_N (0xF0 + c / 262144);
          byte_of_N (0x80 + (c / 4096) mod 64);
          byte_of_N (0x80 + (c / 64) mod 64);
          byte_of_N (0x80 + c mod 64)]
  else None.

Fixpoint utf8_encode (s : str) : option (list byte) :=
  match s with
  | [] => Some []
  | c :: s' =>
      match utf8_encode_cp c, utf8_encode s' with
      | Some b, Some bs => Some (b ++ bs)
      | _, _ => None
      end
  end.

Definition is_cont (n : N) : bool := (0x80 <=? n)%N && (n <? 0xC0)%N.

(** [bytes.decode("utf-8")], strict: overlong forms, surrogates and values
    above U+10FFFF are rejected; [None] is [UnicodeDecodeError]. *)
Fixpoint utf8_decode (bs : list byte) : option str :=
  match bs with
  | [] => Some []
  | b0 :: t0 =>
      let n0 := Byte.to_N b0 in
      if (n0 <? 0x80)%N then option_map (cons n0) (utf8_decode t0)
      else if (n0 <? 0xC2)%N then None
      else if (n0 <? 0xE0)%N then
        match t0 with
        | b1 :: t1 =>
            let n1 := Byte.to_N b1 in
            if is_cont n1
            then option_map (cons ((n0 - 0xC0) * 64 + (n1 - 0x80))%N)
                            (utf8_decode t1)
            else None
        | _ => None
        end
      else if (n0 <? 0xF0)%N then
        match t0 with
        | b1 :: b2 :: t2 =>
            let n1 := Byte.to_N b1 in
            let n2 := Byte.to_N b2 in
            let c := ((n0 - 0xE0) * 4096 + (n1 - 0x80) * 64 + (n2 - 0x80))%N in
            if is_cont n1 && is_cont n2 && (0x800 <=? c)%N
               && negb (is_surrogate c)
            then option_map (cons c) (utf8_decode t2)
            else None
        | _ => None
        end
      else if (n0 <? 0xF5)%N then
        match t0 with
        | b1 :: b2 :: b3 :: t3 =>
            let n1 := Byte.to_N b1 in
            let n2 := Byte.to_N b2 in
            let n3 := Byte.to_N b3 in
            let c := ((n0 - 0xF0) * 262144 + (n1 - 0x80) * 4096
                      + (n2 - 0x80) * 64 + (n3 - 0x80))%N in
            if is_cont n1 && is_cont n2 && is_cont n3
               && (0x10000 <=? c)%N && (c <? 0x110000)%N
            then option_map (cons c) (utf8_decode t3)
            else None
        | _ => None
        end
      else None
  end.

(** Text files are opened with [newline=None]: on input ["\r\n"] and a
    lone ["\r"] both become ["\n"]; on output ["\n"] is written as
    [os.linesep], which is ["\n"] itself on POSIX. *)
Fixpoint universal_newlines (s : str) : str :=
  match s with
  | [] => []
  | c :: t =>
      if (c =? 13)%N then
        10%N :: match t with
                | [] => []
                | d :: t' =>
                    if (d =? 10)%N then universal_newlines t'
                    else universal_newlines t
                end
      else c :: universal_newlines t
  end.

(** ** Names as the system takes them *)

(** [os.fsencode] is UTF-8 with the [surrogateescape] handler: the number
    of bytes that a code point gives.  The surrogates U+DC80 to U+DCFF
    stand for one byte each; the other surrogates cannot be encoded. *)
Definition fs_width (c : codepoint) : option nat :=
  if (c <? 0x80)%N then Some 1
  else if (c <? 0x800)%N then Some 2
  else if (c <? 0x10000)%N then
    if (0xDC80 <=? c)%N && (c <=? 0xDCFF)%N then Some 1
    else if is_surrogate c then None
    else Some 3
  else if (c <? 0x110000)%N then Some 4
  else None.

Definition fs_encodable (s : str) : bool :=
  forallb (fun c => match fs_width c with Some _ => true | None => false end)
          s.

(** [len(os.fsencode(s))]. *)
Definition fs_length (s : str) : nat :=
  list_sum (map (fun c => match fs_width c with Some w => w | None => 0 end)
                s).

(** The limits of Linux, in bytes, on one name and on a whole path (the
    terminating NUL counted). *)
Definition NAME_MAX : nat := 255.
Definition PATH_MAX : nat := 4096.

(** ** Paths ([pathlib.PurePosixPath]) *)

Definition sep : codepoint := 47%N.

(** [s.split("/")]. *)
Fixpoint split_sep (s : str) : list str :=
  match s with
  | [] => [[]]
  | c :: s' =>
      if (c =? sep)%N then [] :: split_sep s'
      else match split_sep s' with
           | [] => [[c]]
           | w :: ws => (c :: w) :: ws
           end
  end.

Fixpoint lstrip_sep (s : str) : str :=
  match s with
  | [] => []
  | c :: s' => if (c =? sep)%N then lstrip_sep s' else s
  end.

(** ["/".join(l)], for any separator. *)
Fixpoint join (d : str) (l : list str) : str :=
  match l with
  | [] => []
  | [x] => x
  | x :: l' => x ++ d ++ join d l'
  end.

(** A parsed path: [root] is [""], ["/"] or ["//"]; [parts] are the
    components after the root, with empty and ["."] components dropped and
    [".."] kept. *)
Record Path := mkPath { root : str; parts : list str }.

Definition splitroot (s : str) : str * str :=
  match s with
  | c :: _ =>
      if (c =? sep)%N then
        let rest := lstrip_sep s in
        if Nat.eqb (length s - length rest) 2 then (py "//", rest)
        else (py "/", rest)
      else ([], s)
  | [] => ([], [])
  end.

Definition is_component (x : str) : bool :=
  negb (str_eqb x []) && negb (str_eqb x (py ".")).

(** [Path(s)]. *)
Definition parse_path (s : str) : Path :=
  let (r, rest) := splitroot s in
  mkPath r (filter is_component (split_sep rest)).

(** [str(p)]. *)
Definition path_str (p : Path) : str :=
  match root p, parts p with
  | [], [] => py "."
  | r, ps => r ++ join (py "/") ps
  end.

(** [p.parent]: purely lexical; a path without components is its own
    parent. *)
Definition parent (p : Path) : Path := mkPath (root p) (removelast (parts p)).

(** [p.name]: the last component, or the empty string. *)
Definition path_name (p : Path) : str := last (parts p) [].

(** [p / s]: an absolute right operand replaces the left one. *)
Definition joinpath (p : Path) (s : str) : Path :=
  let c := parse_path s in
  match root c with
  | [] => mkPath (root p) (parts p ++ parts c)
  | _ :: _ => c
  end.

Definition path_eqb (p q : Path) : bool :=
  str_eqb (root p) (root q)
  && if list_eq_dec (list_eq_dec N.eq_dec) (parts p) (parts q)
     then true else false.

(** ** Exceptions *)

(** The classes that matter to the handlers of the source, with the part
    of the built-in hierarchy that [except] clauses consult. *)
Inductive exn_class :=
| BaseException | KeyboardInterrupt | SystemExit | GeneratorExit
| Exception
| OSError | FileNotFoundError | PermissionError | IsADirectoryError
| NotADirectoryError | FileExistsError
| ShutilError | SameFileError
| ValueError | UnicodeError | UnicodeDecodeError | UnicodeEncodeError
| RuntimeError | RecursionError
| TypeError.

Definition exn_class_eqb (a b : exn_class) : bool :=
  match a, b with
  | BaseException, BaseException | KeyboardInterrupt, KeyboardInterrupt
  | SystemExit, SystemExit | GeneratorExit, GeneratorExit
  | Exception, Exception | OSError, OSError
  | FileNotFoundError, FileNotFoundError | PermissionError, PermissionError
  | IsADirectoryError, IsADirectoryError
  | NotADirectoryError, NotADirectoryError
  | FileExistsError, FileExistsError | ShutilError, ShutilError
  | SameFileError, SameFileError | ValueError, ValueError
  | UnicodeError, UnicodeError | UnicodeDecodeError, UnicodeDecodeError
  | UnicodeEncodeError, UnicodeEncodeError | RuntimeError, RuntimeError
  | RecursionError, RecursionError | TypeError, TypeError => true
  | _, _ => false
  end.

(** The direct base class. *)
Definition base_class (c : exn_class) : option exn_class :=
  match c with
  | BaseException => None
  | KeyboardInterrupt | SystemExit | GeneratorExit | Exception =>
      Some BaseException
  | OSError | ValueError | RuntimeError | TypeError => Some Exception
  | FileNotFoundError | PermissionError | IsADirectoryError
  | NotADirectoryError | FileExistsError | ShutilError => Some OSError
  | SameFileError => Some ShutilError
  | UnicodeError => Some ValueError
  | UnicodeDecodeError | UnicodeEncodeError => Some UnicodeError
  | RecursionError => Some RuntimeError
  end.

Fixpoint subclass_upto (fuel : nat) (c k : exn_class) : bool :=
  exn_class_eqb c k ||
  match fuel, base_class c with
  | S f, Some b => subclass_upto f b k
  | _, _ => false
  end.

(** [issubclass(c, k)]; no chain of bases is longer than five. *)
Definition issubclass (c k : exn_class) : bool := subclass_upto 5 c k.

Inductive errno :=
| ENOENT | EACCES | ENOTDIR | EISDIR | EEXIST | EINVAL | EBUSY | ENOTEMPTY
| ENAMETOOLONG.

(** A raised exception: its class, the [errno] of an [OSError], and the
    strings it was built from (file names, messages). *)
Record exn := mkExn { cls : exn_class; code : option errno; args : list str }.

Definition isinstance (e : exn) (k : exn_class) : bool := issubclass (cls e) k.

(** The subclass of [OSError] that CPython selects from [errno]. *)
Definition oserror_class (c : errno) : exn_class :=
  match c with
  | ENOENT => FileNotFoundError
  | EACCES => PermissionError
  | ENOTDIR => NotADirectoryError
  | EISDIR => IsADirectoryError
  | EEXIST => FileExistsError
  | EINVAL | EBUSY | ENOTEMPTY | ENAMETOOLONG => OSError
  end.

Definition os_error (c : errno) (files : list str) : exn :=
  mkExn (oserror_class c) (Some c) files.

(** ** The file system *)

(** Access bits of the calling user on one node. *)
Record perms := mkPerms { can_r : bool; can_w : bool; can_x : bool }.

(** A regular file holds bytes; a directory holds named children, in the
    order in which they were created. *)
#[warnings="-register-all"]
Inductive node :=
| File (m : perms) (data : list byte)
| Dir (m : perms) (entries : list (str * node)).

(** A location: the names from the root of the tree down to a node. *)
Definition loc := list str.

Definition mode_of (n : node) : perms :=
  match n with File m _ | Dir m _ => m end.

Definition with_mode (m : perms) (n : node) : node :=
  match n with
  | File _ d => File m d
  | Dir _ es => Dir m es
  end.

Definition is_dir_node (n : node) : bool :=
  match n with Dir _ _ => true | File _ _ => false end.

(** Modes given to what is created: [0o777] and [0o666] under the usual
    mask [0o022], seen by the owner. *)
Definition dir_mode : perms := mkPerms true true true.
Definition file_mode : perms := mkPerms true true false.

Fixpoint lookup (nm : str) (es : list (str * node)) : option node :=
  match es with
  | [] => None
  | (k, v) :: es' => if str_eqb k nm then Some v else lookup nm es'
  end.

(** Replace the child called [nm], or add it after the existing ones. *)
Fixpoint set_entry (nm : str) (v : node) (es : list (str * node))
  : list (str * node) :=
  match es with
  | [] => [(nm, v)]
  | (k, w) :: es' =>
      if str_eqb k nm then (nm, v) :: es' else (k, w) :: set_entry nm v es'
  end.

Definition del_entry (nm : str) (es : list (str * node)) : list (str * node) :=
  filter (fun kv => negb (str_eqb (fst kv) nm)) es.

Fixpoint get (t : node) (l : loc) : option node :=
  match l with
  | [] => Some t
  | c :: l' =>
      match t with
      | Dir _ es =>
          match lookup c es with
          | Some ch => get ch l'
          | None => None
          end
      | File _ _ => None
      end
  end.

(** Store [v] at [l]; the directory that is to hold it must exist. *)
Fixpoint put (t : node) (l : loc) (v : node) : node :=
  match l with
  | [] => v
  | c :: l' =>
      match t with
      | File _ _ => t
      | Dir m es =>
          match l', lookup c es with
          | [], _ => Dir m (set_entry c v es)
          | _ :: _, Some ch => Dir m (set_entry c (put ch l' v) es)
          | _ :: _, None => t
          end
      end
  end.

(** Detach whatever is at [l]. *)
Fixpoint remove (t : node) (l : loc) : node :=
  match l with
  | [] => t
  | c :: l' =>
      match t with
      | File _ _ => t
      | Dir m es =>
          match l', lookup c es with
          | [], _ => Dir m (del_entry c es)
          | _ :: _, Some ch => Dir m (set_entry c (remove ch l') es)
          | _ :: _, None => t
          end
      end
  end.

Definition loc_eqb (a b : loc) : bool :=
  if list_eq_dec (list_eq_dec N.eq_dec) a b then true else false.

(** [a] is [b] or one of its ancestors. *)
Fixpoint is_prefix (a b : loc) : bool :=
  match a, b with
  | [], _ => true
  | _ :: _, [] => false
  | x :: a', y :: b' => str_eqb x y && is_prefix a' b'
  end.

(** What a path leads to: an existing node, or a name that is free in an
    existing directory. *)
Inductive target :=
| Found (l : loc) (n : node)
| Missing (d : loc) (nm : str).

(** Path resolution from the directory at [here].  Every directory on the
    way must grant search access; [".."] steps to the physical parent and
    stays at the root; a name of more than [NAME_MAX] bytes is refused
    when it is looked up. *)
Fixpoint namei (t : node) (here : loc) (comps : list str) : errno + target :=
  match comps with
  | [] =>
      match get t here with
      | Some n => inr (Found here n)
      | None => inl ENOENT
      end
  | c :: rest =>
      match get t here with
      | Some (Dir m es) =>
          if can_x m then
            if str_eqb c (py "..") then namei t (removelast here) rest
            else if NAME_MAX <? fs_length c then inl ENAMETOOLONG
            else match lookup c es, rest with
                 | Some _, _ => namei t (here ++ [c]) rest
                 | None, [] => inr (Missing here c)
                 | None, _ :: _ => inl ENOENT
                 end
          else inl EACCES
      | Some (File _ _) => inl ENOTDIR
      | None => inl ENOENT
      end
  end.

(** ** Computations: state and exceptions *)

Inductive result (A : Type) :=
| Ok (a : A)
| Raise (e : exn).
Arguments Ok {A} a.
Arguments Raise {A} e.

(** A computation runs on the current tree and leaves a tree behind,
    whether it returns or raises. *)
Definition M (A : Type) := node -> result A * node.

Definition ret {A} (a : A) : M A := fun t => (Ok a, t).

Definition raise {A} (e : exn) : M A := fun t => (Raise e, t).

Definition bind {A B} (m : M A) (k : A -> M B) : M B :=
  fun t =>
    match m t with
    | (Ok a, t') => k a t'
    | (Raise e, t') => (Raise e, t')
    end.

(** [try: m  except ...: h e]; [h] re-raises what it does not handle. *)
Definition catch {A} (m : M A) (h : exn -> M A) : M A :=
  fun t =>
    match m t with
    | (Ok a, t') => (Ok a, t')
    | (Raise e, t') => h e t'
    end.

(** A step that does not touch the tree. *)
Definition lift {A} (r : result A) : M A := fun t => (r, t).

Definition get_tree : M node := fun t => (Ok t, t).
Definition set_tree (t' : node) : M unit := fun _ => (Ok tt, t').

Declare Scope fs_scope.
Delimit Scope fs_scope with fs.
Notation "x <- m ;; k" := (bind m (fun x => k))
  (at level 61, m at next level, right associativity) : fs_scope.
Notation "m ;; k" := (bind m (fun _ => k))
  (at level 61, right associativity) : fs_scope.
Local Open Scope fs_scope.

(** ** System calls *)

Definition null_byte : exn := mkExn ValueError None [py "embedded null byte"].

(** What turning a path into the argument of a system call raises, before
    any call is made: [UnicodeEncodeError] when [os.fsencode] cannot
    encode the string, then [ValueError] for an embedded NUL. *)
Definition fs_argument (p : Path) : option exn :=
  let s := path_str p in
  if negb (fs_encodable s) then Some (mkExn UnicodeEncodeError None [s])
  else if existsb (N.eqb 0) s then Some null_byte
  else None.

Definition fail {A} (c : errno) (p : Path) : M A :=
  raise (os_error c [path_str p]).

(** Resolve a path, relative ones from the working directory, which is the
    root of the tree.  A path of [PATH_MAX] bytes or more is refused
    before it is followed. *)
Definition resolve (p : Path) : M target :=
  match fs_argument p with
  | Some e => raise e
  | None =>
      if PATH_MAX <=? fs_length (path_str p) then fail ENAMETOOLONG p
      else fun t =>
             match namei t [] (parts p) with
             | inr tg => (Ok tg, t)
             | inl c => (Raise (os_error c [path_str p]), t)
             end
  end.

(** The access bits of the directory at [d]. *)
Definition dir_perms (t : node) (d : loc) : perms :=
  match get t d with
  | Some n => mode_of n
  | None => mkPerms false false false
  end.

(** [os.stat(p)]. *)
Definition os_stat (p : Path) : M node :=
  tg <- resolve p ;;
  match tg with
  | Found _ n => ret n
  | Missing _ _ => fail ENOENT p
  end.

(** [open(p, "rb").read()]. *)
Definition read_bytes (p : Path) : M (list byte) :=
  tg <- resolve p ;;
  match tg with
  | Found _ (File m d) => if can_r m then ret d else fail EACCES p
  | Found _ (Dir m _) => if can_r m then fail EISDIR p else fail EACCES p
  | Missing _ _ => fail ENOENT p
  end.

(** [open(p, "w")]: the file is created or truncated; the result is where
    it lives. *)
Definition open_w (p : Path) : M loc :=
  tg <- resolve p ;;
  t <- get_tree ;;
  match tg with
  | Found _ (Dir _ _) => fail EISDIR p
  | Found l (File m _) =>
      if can_w m then set_tree (put t l (File m [])) ;; ret l
      else fail EACCES p
  | Missing d nm =>
      if can_w (dir_perms t d)
      then set_tree (put t (d ++ [nm]) (File file_mode [])) ;; ret (d ++ [nm])
      else fail EACCES p
  end.

(** Writing to the open file at [l]. *)
Definition write_data (l : loc) (bs : list byte) : M unit :=
  t <- get_tree ;;
  match get t l with
  | Some (File m _) => set_tree (put t l (File m bs))
  | _ => ret tt
  end.

(** [os.mkdir(p)]. *)
Definition os_mkdir (p : Path) : M unit :=
  tg <- resolve p ;;
  t <- get_tree ;;
  match tg with
  | Found _ _ => fail EEXIST p
  | Missing d nm =>
      if can_w (dir_perms t d)
      then set_tree (put t (d ++ [nm]) (Dir dir_mode []))
      else fail EACCES p
  end.

(** [os.scandir(p)]: the names in the directory, each with the kind the
    directory entry records. *)
Definition os_scandir (p : Path) : M (list (str * bool)) :=
  tg <- resolve p ;;
  match tg with
  | Found _ (Dir m es) =>
      if can_r m then ret (map (fun kv => (fst kv, is_dir_node (snd kv))) es)
      else fail EACCES p
  | Found _ (File _ _) => fail ENOTDIR p
  | Missing _ _ => fail ENOENT p
  end.

(** [os.listdir(p)]. *)
Definition os_listdir (p : Path) : M (list str) :=
  es <- os_scandir p ;; ret (map fst es).

(** The last component is an ordinary name (not empty, not [".."]). *)
Definition ends_in_name (p : Path) : bool :=
  match parts p with
  | [] => false
  | _ :: _ => negb (str_eqb (path_name p) (py ".."))
  end.

(** [os.unlink(p)]. *)
Definition os_unlink (p : Path) : M unit :=
  tg <- resolve p ;;
  t <- get_tree ;;
  match tg with
  | Found l (File _ _) =>
      if can_w (dir_perms t (removelast l)) then set_tree (remove t l)
      else fail EACCES p
  | Found _ (Dir _ _) => fail EISDIR p
  | Missing _ _ => fail ENOENT p
  end.

(** [os.rmdir(p)]. *)
Definition os_rmdir (p : Path) : M unit :=
  tg <- resolve p ;;
  t <- get_tree ;;
  match tg with
  | Found l (Dir _ es) =>
      if negb (ends_in_name p) then
        match l with [] => fail EBUSY p | _ :: _ => fail EINVAL p end
      else match es with
           | _ :: _ => fail ENOTEMPTY p
           | [] =>
               if can_w (dir_perms t (removelast l)) then set_tree (remove t l)
               else fail EACCES p
           end
  | Found _ (File _ _) => fail ENOTDIR p
  | Missing _ _ => fail ENOENT p
  end.

(** [os.chmod(p, m)]; the caller owns every node. *)
Definition os_chmod (p : Path) (m : perms) : M unit :=
  tg <- resolve p ;;
  t <- get_tree ;;
  match tg with
  | Found l n => set_tree (put t l (with_mode m n))
  | Missing _ _ => fail ENOENT p
  end.

Definition fail2 {A} (c : errno) (p q : Path) : M A :=
  raise (os_error c [path_str p; path_str q]).

(** [os.rename(src, dst)].  Both names must be ordinary; a directory cannot
    go below itself; the two directories that change need write access,
    and so does a directory that changes parent.  An existing [dst] is
    replaced when the kinds agree and a directory there is empty. *)
Definition os_rename (src dst : Path) : M unit :=
  s <- resolve src ;;
  d <- resolve dst ;;
  t <- get_tree ;;
  match s with
  | Missing _ _ => fail2 ENOENT src dst
  | Found sl sn =>
      let dl := match d with
                | Found l _ => l
                | Missing dd nm => dd ++ [nm]
                end in
      if negb (ends_in_name src) || negb (ends_in_name dst)
      then fail2 EBUSY src dst
      else if loc_eqb sl dl then ret tt
      else if is_prefix sl dl then fail2 EINVAL src dst
      else if negb (can_w (dir_perms t (removelast sl))
                    && can_w (dir_perms t (removelast dl)))
      then fail2 EACCES src dst
      else if is_dir_node sn
              && negb (loc_eqb (removelast sl) (removelast dl))
              && negb (can_w (mode_of sn))
      then fail2 EACCES src dst
      else
        match d, sn with
        | Missing _ _, _ => set_tree (put (remove t sl) dl sn)
        | Found _ (File _ _), File _ _ => set_tree (put (remove t sl) dl sn)
        | Found _ (Dir _ []), Dir _ _ => set_tree (put (remove t sl) dl sn)
        | Found _ (Dir _ (_ :: _)), Dir _ _ => fail2 ENOTEMPTY src dst
        | Found _ (Dir _ _), File _ _ => fail2 EISDIR src dst
        | Found _ (File _ _), Dir _ _ => fail2 ENOTDIR src dst
        end
  end.

(** ** The environment of the process *)

(** What the model takes from outside: [os.path.expanduser] on a leading
    ["~"] component (it returns the component unchanged when no home
    directory is known), the text [str(e)] of an exception, and the depth
    at which the interpreter raises [RecursionError]. *)
Record Env := mkEnv {
  os_expanduser : str -> str;
  exn_str : exn -> str;
  recursion_limit : nat
}.

(** ** [pathlib.Path] methods *)

(** [p.expanduser()]. *)
Definition expanduser (E : Env) (p : Path) : result Path :=
  match root p, parts p with
  | [], first :: rest =>
      if startswith (py "~") first then
        let homedir := os_expanduser E first in
        if startswith (py "~") homedir
        then Raise (mkExn RuntimeError None
                          [py "Could not determine home directory."])
        else let h := parse_path homedir in
             Ok (mkPath (root h) (parts h ++ rest))
      else Ok p
  | _, _ => Ok p
  end.

(** The errors that [exists], [is_dir] and [is_file] turn into [False]:
    [ENOENT] and [ENOTDIR]; any other [OSError] is raised again. *)
Definition ignore_error (e : exn) : bool :=
  match code e with
  | Some ENOENT | Some ENOTDIR => true
  | _ => false
  end.

Definition stat_test (f : node -> bool) (p : Path) : M bool :=
  catch (n <- os_stat p ;; ret (f n))
        (fun e =>
           if isinstance e OSError then
             if ignore_error e then ret false else raise e
           else if isinstance e ValueError then ret false
           else raise e).

(** [p.exists()], [p.is_dir()], [p.is_file()]. *)
Definition path_exists (p : Path) : M bool := stat_test (fun _ => true) p.
Definition is_dir (p : Path) : M bool := stat_test is_dir_node p.
Definition is_file (p : Path) : M bool :=
  stat_test (fun n => negb (is_dir_node n)) p.

(** [p.read_text(encoding="utf-8")]. *)
Definition read_text (p : Path) : M str :=
  bs <- read_bytes p ;;
  match utf8_decode bs with
  | Some s => ret (universal_newlines s)
  | None => raise (mkExn UnicodeDecodeError None [])
  end.

(** [p.write_text(s, encoding="utf-8")]: the file is opened, hence
    truncated, before the text is encoded. *)
Definition write_text (p : Path) (s : str) : M unit :=
  l <- open_w p ;;
  match utf8_encode s with
  | Some bs => write_data l bs
  | None => raise (mkExn UnicodeEncodeError None [])
  end.

(** [p.mkdir(parents=False, exist_ok=exist_ok)]. *)
Definition mkdir_one (exist_ok : bool) (p : Path) : M unit :=
  catch (os_mkdir p)
        (fun e =>
           if isinstance e FileNotFoundError then raise e
           else if isinstance e OSError then
             if negb exist_ok then raise e
             else d <- is_dir p ;; if d then ret tt else raise e
           else raise e).

(** [p.mkdir(parents=True, exist_ok=exist_ok)] for the path with root [r]
    and components [rev rparts]; the recursion is the one of the library,
    on [p.parent]. *)
Fixpoint mkdir_parents (exist_ok : bool) (r : str) (rparts : list str)
  : M unit :=
  let p := mkPath r (rev rparts) in
  catch (os_mkdir p)
        (fun e =>
           if isinstance e FileNotFoundError then
             match rparts with
             | [] => raise e
             | _ :: up =>
                 mkdir_parents true r up ;;
                 mkdir_one exist_ok p
             end
           else if isinstance e OSError then
             if negb exist_ok then raise e
             else d <- is_dir p ;; if d then ret tt else raise e
           else raise e).

(** [p.mkdir(parents=parents, exist_ok=exist_ok)]. *)
Definition mkdir (parents exist_ok : bool) (p : Path) : M unit :=
  if parents then mkdir_parents exist_ok (root p) (rev (parts p))
  else mkdir_one exist_ok p.

(** [list(p.iterdir())]. *)
Definition iterdir (p : Path) : M (list Path) :=
  names <- os_listdir p ;;
  ret (map (fun nm => mkPath (root p) (parts p ++ [nm])) names).

(** [p.rename(q)]. *)
Definition rename (p q : Path) : M unit := os_rename p q.

(** Order of [str] values and of paths ([sorted] compares the component
    lists, root first). *)
Fixpoint str_ltb (a b : str) : bool :=
  match a, b with
  | _, [] => false
  | [], _ :: _ => true
  | x :: a', y :: b' => (x <? y)%N || ((x =? y)%N && str_ltb a' b')
  end.

Fixpoint parts_ltb (a b : list str) : bool :=
  match a, b with
  | _, [] => false
  | [], _ :: _ => true
  | x :: a', y :: b' => str_ltb x y || (str_eqb x y && parts_ltb a' b')
  end.

Definition cparts (p : Path) : list str :=
  match root p with
  | [] => parts p
  | r => r :: parts p
  end.

Definition path_ltb (p q : Path) : bool := parts_ltb (cparts p) (cparts q).

Fixpoint insert_sorted (x : Path) (l : list Path) : list Path :=
  match l with
  | [] => [x]
  | y :: l' => if path_ltb y x then y :: insert_sorted x l' else x :: l
  end.

(** [sorted(l)], stable. *)
Definition sorted (l : list Path) : list Path := fold_right insert_sorted [] l.

(** ** [os.path] and [shutil] *)

(** [os.path.exists] and [os.path.isdir] answer [False] on every
    [OSError] and [ValueError]. *)
Definition quiet_test (f : node -> bool) (p : Path) : M bool :=
  catch (n <- os_stat p ;; ret (f n))
        (fun e =>
           if isinstance e OSError || isinstance e ValueError then ret false
           else raise e).

Definition os_path_exists (p : Path) : M bool := quiet_test (fun _ => true) p.
Definition os_path_isdir (p : Path) : M bool := quiet_test is_dir_node p.

(** [os.path.normpath] on the components of a rooted path. *)
Fixpoint normalize (acc : list str) (comps : list str) : list str :=
  match comps with
  | [] => rev acc
  | c :: rest =>
      if str_eqb c (py "..") then normalize (tl acc) rest
      else normalize (c :: acc) rest
  end.

(** [os.path.abspath(str(p))]. *)
Definition abspath (p : Path) : str :=
  (if str_eqb (root p) (py "//") then py "//" else py "/")
  ++ join (py "/") (normalize [] (parts p)).

Definition endswith_sep (s : str) : bool :=
  match rev s with
  | c :: _ => (c =? sep)%N
  | [] => false
  end.

(** [shutil._destinsrc]. *)
Definition destinsrc (src dst : Path) : bool :=
  let close s := if endswith_sep s then s else s ++ [sep] in
  startswith (close (abspath src)) (close (abspath dst)).

(** [shutil._samefile]. *)
Definition samefile (src dst : Path) : M bool :=
  catch (a <- resolve src ;;
         b <- resolve dst ;;
         match a, b with
         | Found la _, Found lb _ => ret (loc_eqb la lb)
         | Missing _ _, _ => fail ENOENT src
         | _, Missing _ _ => fail ENOENT dst
         end)
        (fun e => if isinstance e OSError then ret false else raise e).

(** [shutil.copyfile(src, dst)]. *)
Definition copyfile (src dst : Path) : M unit :=
  same <- samefile src dst ;;
  if same then raise (mkExn SameFileError None [path_str src; path_str dst])
  else
    data <- read_bytes src ;;
    catch (l <- open_w dst ;; write_data l data)
          (fun e =>
             if isinstance e IsADirectoryError then
               x <- os_path_exists dst ;;
               if x then raise e
               else raise (mkExn FileNotFoundError None [path_str dst])
             else raise e).

(** [shutil.copystat(src, dst)]: the mode is what the model keeps of the
    metadata. *)
Definition copystat (src dst : Path) : M unit :=
  st <- os_stat src ;;
  os_chmod dst (mode_of st).

(** [shutil.copy2(src, dst)]. *)
Definition copy2 (src dst : Path) : M unit :=
  d <- os_path_isdir dst ;;
  let dst := if d then joinpath dst (path_name src) else dst in
  copyfile src dst ;;
  copystat src dst.

(** [os.makedirs(p, exist_ok=False)] on the path with root [r] and
    components [rev rparts]. *)
Fixpoint makedirs (r : str) (rparts : list str) : M unit :=
  let p := mkPath r (rev rparts) in
  match rparts with
  | [] => os_mkdir p
  | _ :: up =>
      (match up with
       | [] => ret tt
       | _ :: _ =>
           x <- os_path_exists (mkPath r (rev up)) ;;
           if x then ret tt
           else catch (makedirs r up)
                      (fun e =>
                         if isinstance e FileExistsError then ret tt
                         else raise e)
       end) ;;
      os_mkdir p
  end.

Definition child (p : Path) (nm : str) : Path :=
  mkPath (root p) (parts p ++ [nm]).

(** The loop of [shutil._copytree] over the entries listed in the source:
    failures of one entry are collected and the loop goes on. *)
Fixpoint copy_entries (rec : Path -> Path -> M unit) (src dst : Path)
         (entries : list (str * bool)) (errors : list str)
  : M (list str) :=
  match entries with
  | [] => ret errors
  | (nm, isdir) :: rest =>
      errors' <-
        catch ((if isdir then rec (child src nm) (child dst nm)
                else copy2 (child src nm) (child dst nm)) ;;
               ret errors)
              (fun e =>
                 if isinstance e ShutilError then ret (errors ++ args e)
                 else if isinstance e OSError
                 then ret (errors ++ [path_str (child src nm)])
                 else raise e) ;;
      copy_entries rec src dst rest errors'
  end.

(** [shutil.copytree(src, dst)]: list the source, create the destination,
    copy the entries, copy the mode, then report what failed.  [depth] is
    what is left of the recursion limit. *)
Fixpoint copytree (depth : nat) (src dst : Path) : M unit :=
  match depth with
  | O => raise (mkExn RecursionError None [])
  | S depth' =>
      entries <- os_scandir src ;;
      makedirs (root dst) (rev (parts dst)) ;;
      errors <- copy_entries (copytree depth') src dst entries [] ;;
      errors <-
        catch (copystat src dst ;; ret errors)
              (fun e =>
                 if isinstance e OSError then ret (errors ++ [path_str src])
                 else raise e) ;;
      match errors with
      | [] => ret tt
      | _ :: _ => raise (mkExn ShutilError None errors)
      end
  end.

(** The loop of [shutil.rmtree] over the entries of a directory; the
    default [onerror] raises at the first failure. *)
Fixpoint remove_entries (rec : Path -> M unit) (p : Path)
         (entries : list (str * bool)) : M unit :=
  match entries with
  | [] => ret tt
  | (nm, isdir) :: rest =>
      (if isdir then rec (child p nm) else os_unlink (child p nm)) ;;
      remove_entries rec p rest
  end.

(** [shutil.rmtree(p)]. *)
Fixpoint rmtree (depth : nat) (p : Path) : M unit :=
  match depth with
  | O => raise (mkExn RecursionError None [])
  | S depth' =>
      entries <- os_scandir p ;;
      remove_entries (rmtree depth') p entries ;;
      os_rmdir p
  end.

(** [shutil.move(src, dst)]: a rename when the system allows it, else a
    copy followed by the removal of the source. *)
Definition shutil_move (E : Env) (src dst : Path) : M unit :=
  d <- os_path_isdir dst ;;
  same <- (if d then samefile src dst else ret false) ;;
  if d && same then os_rename src dst
  else
    clash <- (if d then os_path_exists (joinpath dst (path_name src))
              else ret false) ;;
    if clash
    then raise (mkExn ShutilError None [path_str (joinpath dst (path_name src))])
    else
      let real_dst := if d then joinpath dst (path_name src) else dst in
      catch (os_rename src real_dst)
            (fun e =>
               if isinstance e OSError then
                 sd <- os_path_isdir src ;;
                 if sd then
                   if destinsrc src dst
                   then raise (mkExn ShutilError None
                                     [path_str src; path_str dst])
                   else copytree (recursion_limit E) src real_dst ;;
                        rmtree (recursion_limit E) src
                 else copy2 src real_dst ;; os_unlink src
               else raise e).

(** ** The tools *)

(** A call of [execute] either returns a string or lets an exception out. *)
Definition tool := M str.

(** The two handlers that close every [execute]:
    [except PermissionError: return denied] and
    [except Exception as e: return f"{prefix}{str(e)}"]. *)
Definition guarded (E : Env) (body : M str) (denied prefix : str) : tool :=
  catch body
        (fun e =>
           if isinstance e PermissionError then ret denied
           else if isinstance e Exception then ret (prefix ++ exn_str E e)
           else raise e).

Module ReadFileTool.
Definition name : str := py "read_file".
Definition required : list str := [py "path"].

Definition execute (E : Env) (path : str) : tool :=
  guarded E
    (file_path <- lift (expanduser E (parse_path path)) ;;
     x <- path_exists file_path ;;
     if negb x then ret (py "Error: File not found: " ++ path)
     else
       f <- is_file file_path ;;
       if negb f then ret (py "Error: Not a file: " ++ path)
       else
         content <- read_text file_path ;;
         ret content)
    (py "Error: Permission denied: " ++ path)
    (py "Error reading file: ").
End ReadFileTool.

Module WriteFileTool.
Definition name : str := py "write_file".
Definition required : list str := [py "path"; py "content"].

Definition execute (E : Env) (path content : str) : tool :=
  guarded E
    (file_path <- lift (expanduser E (parse_path path)) ;;
     mkdir true true (parent file_path) ;;
     write_text file_path content ;;
     ret (py "Successfully wrote " ++ str_of_nat (len content)
          ++ py " bytes to " ++ path))
    (py "Error: Permission denied: " ++ path)
    (py "Error writing file: ").
End WriteFileTool.

Module EditFileTool.
Definition name : str := py "edit_file".
Definition required : list str := [py "path"; py "old_text"; py "new_text"].

Definition execute (E : Env) (path old_text new_text : str) : tool :=
  guarded E
    (file_path <- lift (expanduser E (parse_path path)) ;;
     x <- path_exists file_path ;;
     if negb x then ret (py "Error: File not found: " ++ path)
     else
       content <- read_text file_path ;;
       if negb (contains old_text content)
       then ret (py "Error: old_text not found in file. Make sure it matches exactly.")
       else
         let n := count content old_text in
         if 1 <? n
         then ret (py "Warning: old_text appears " ++ str_of_nat n
                   ++ py " times. Please provide more context to make it unique.")
         else
           let new_content := replace_first content old_text new_text in
           write_text file_path new_content ;;
           ret (py "Successfully edited " ++ path))
    (py "Error: Permission denied: " ++ path)
    (py "Error editing file: ").
End EditFileTool.

Module ListDirTool.
Definition name : str := py "list_dir".
Definition required : list str := [py "path"].

(** The markers U+1F4C1 and U+1F4C4, each followed by a space. *)
Definition dir_marker : str := [0x1F4C1%N; 32%N].
Definition file_marker : str := [0x1F4C4%N; 32%N].

(** The body of the [for] loop, appending to [items]. *)
Fixpoint collect (children : list Path) (items : list str) : M (list str) :=
  match children with
  | [] => ret items
  | item :: rest =>
      d <- is_dir item ;;
      let prefix := if d then dir_marker else file_marker in
      collect rest (items ++ [prefix ++ path_name item])
  end.

Definition execute (E : Env) (path : str) : tool :=
  guarded E
    (dir_path <- lift (expanduser E (parse_path path)) ;;
     x <- path_exists dir_path ;;
     if negb x then ret (py "Error: Directory not found: " ++ path)
     else
       d <- is_dir dir_path ;;
       if negb d then ret (py "Error: Not a directory: " ++ path)
       else
         children <- iterdir dir_path ;;
         items <- collect (sorted children) [] ;;
         match items with
         | [] => ret (py "Directory " ++ path ++ py " is empty")
         | _ :: _ => ret (join [10%N] items)
         end)
    (py "Error: Permission denied: " ++ path)
    (py "Error listing directory: ").
End ListDirTool.

Module RenameFileTool.
Definition name : str := py "rename_file".
Definition required : list str := [py "old_path"; py "new_name"].

Definition backslash : str := [92%N].

(** ["/" in new_name or "\\" in new_name]. *)
Definition has_separator (new_name : str) : bool :=
  contains (py "/") new_name || contains backslash new_name.

Definition execute (E : Env) (old_path new_name : str) : tool :=
  guarded E
    (old_file <- lift (expanduser E (parse_path old_path)) ;;
     x <- path_exists old_file ;;
     if negb x
     then ret (py "Error: File or directory not found: " ++ old_path)
     else if has_separator new_name
     then ret (py "Error: new_name should be just a name, not a path")
     else
       let new_file := joinpath (parent old_file) new_name in
       y <- path_exists new_file ;;
       if y
       then ret (py "Error: Target already exists: " ++ path_str new_file)
       else
         rename old_file new_file ;;
         ret (py "Successfully renamed " ++ old_path ++ py " to " ++ new_name))
    (py "Error: Permission denied")
    (py "Error renaming: ").
End RenameFileTool.

Module MoveFileTool.
Definition name : str := py "move_file".
Definition required : list str := [py "source"; py "destination"].

Definition execute (E : Env) (source destination : str) : tool :=
  guarded E
    (src_path <- lift (expanduser E (parse_path source)) ;;
     x <- path_exists src_path ;;
     if negb x then ret (py "Error: Source not found: " ++ source)
     else
       dest_path <- lift (expanduser E (parse_path destination)) ;;
       d <- is_dir dest_path ;;
       let dest_path :=
         if d then joinpath dest_path (path_name src_path)
         else dest_path in
       mkdir true true (parent dest_path) ;;
       y <- path_exists dest_path ;;
       if y
       then ret (py "Error: Destination already exists: " ++ destination)
       else
         shutil_move E src_path dest_path ;;
         ret (py "Successfully moved " ++ source ++ py " to " ++ destination))
    (py "Error: Permission denied")
    (py "Error moving: ").
End MoveFileTool.

Module CopyFileTool.
Definition name : str := py "copy_file".
Definition required : list str := [py "source"; py "destination"].

Definition execute (E : Env) (source destination : str) : tool :=
  guarded E
    (src_path <- lift (expanduser E (parse_path source)) ;;
     x <- path_exists src_path ;;
     if negb x then ret (py "Error: Source not found: " ++ source)
     else
       dest_path <- lift (expanduser E (parse_path destination)) ;;
       d <- is_dir dest_path ;;
       let dest_path :=
         if d then joinpath dest_path (path_name src_path)
         else dest_path in
       mkdir true true (parent dest_path) ;;
       y <- path_exists dest_path ;;
       if y
       then ret (py "Error: Destination already exists: " ++ destination)
       else
         sd <- is_dir src_path ;;
         (if sd then copytree (recursion_limit E) src_path dest_path
          else copy2 src_path dest_path) ;;
         ret (py "Successfully copied " ++ source ++ py " to " ++ destination))
    (py "Error: Permission denied")
    (py "Error copying: ").
End CopyFileTool.

Module CreateDirTool.
Definition name : str := py "create_dir".
Definition required : list str := [py "path"].

Definition execute (E : Env) (path : str) : tool :=
  guarded E
    (dir_path <- lift (expanduser E (parse_path path)) ;;
     x <- path_exists dir_path ;;
     if x then
       d <- is_dir dir_path ;;
       if d then ret (py "Directory already exists: " ++ path)
       else ret (py "Error: A file with this name already exists: " ++ path)
     else
       mkdir true true dir_path ;;
       ret (py "Successfully created directory: " ++ path))
    (py "Error: Permission denied: " ++ path)
    (py "Error creating directory: ").
End CreateDirTool.

(** ** Notions used to state the properties *)

(** The code points that UTF-8 can carry: up to U+10FFFF, surrogates
    excluded. *)
Definition is_scalar (c : codepoint) : bool :=
  (c <? 0x110000)%N && negb (is_surrogate c).

Definition encodable (s : str) : bool := forallb is_scalar s.

(** The offsets at which [sub] occurs in [s], counted from [i]; occurrences
    that overlap are all listed. *)
Fixpoint occurrences_from (sub s : str) (i : nat) : list nat :=
  (if startswith sub s then [i] else [])
  ++ match s with
     | [] => []
     | _ :: s' => occurrences_from sub s' (S i)
     end.

Definition occurrences (sub s : str) : list nat := occurrences_from sub s 0.

(** One call of a tool: which tool, and the arguments bound to the
    parameters that its [execute] declares. *)
Inductive request :=
| ReadFile (path : str)
| WriteFile (path content : str)
| EditFile (path old_text new_text : str)
| ListDir (path : str)
| RenameFile (old_path new_name : str)
| MoveFile (source destination : str)
| CopyFile (source destination : str)
| CreateDir (path : str).

Definition execute (E : Env) (r : request) : tool :=
  match r with
  | ReadFile path => ReadFileTool.execute E path
  | WriteFile path content => WriteFileTool.execute E path content
  | EditFile path old_text new_text =>
      EditFileTool.execute E path old_text new_text
  | ListDir path => ListDirTool.execute E path
  | RenameFile old_path new_name => RenameFileTool.execute E old_path new_name
  | MoveFile source destination => MoveFileTool.execute E source destination
  | CopyFile source destination => CopyFileTool.execute E source destination
  | CreateDir path => CreateDirTool.execute E path
  end.

(** A computation that lets out nothing but instances of [Exception]. *)
Definition safe {A} (m : M A) : Prop :=
  forall t e t', m t = (Raise e, t') -> isinstance e Exception = true.

(** What path resolution sees of the node at [l]: its kind and its access
    bits. *)
Definition sig (t : node) (l : loc) : option (bool * perms) :=
  option_map (fun n => (is_dir_node n, mode_of n)) (get t l).

(** A path that the system accepts as an argument: it can be encoded,
    holds no NUL and is shorter than [PATH_MAX]. *)
Definition usable (p : Path) : bool :=
  match fs_argument p with
  | None => fs_length (path_str p) <? PATH_MAX
  | Some _ => false
  end.

(** The path [p] is a usable name of the node [n], found at [l]. *)
Definition leads_to (t : node) (p : Path) (l : loc) (n : node) : Prop :=
  usable p = true /\ namei t [] (parts p) = inr (Found l n).

(** The path [p] names nothing yet: [nm] is free in the directory at [d]. *)
Definition free_at (t : node) (p : Path) (d : loc) (nm : str) : Prop :=
  usable p = true /\ namei t [] (parts p) = inr (Missing d nm).

(** ** Sample environments and trees *)

(** A process whose home directory is [/home/u]. *)
Definition sample_env : Env :=
  mkEnv (fun _ => py "/home/u") (fun e => join (py "; ") (args e)) 1000.

(** A root with a directory [a] holding the empty file [f], an empty
    directory [d], and the file [notes] holding ["a-b-c"]. *)
Definition sample_tree : node :=
  Dir dir_mode
      [ (py "a", Dir dir_mode [ (py "f", File file_mode []) ]);
        (py "d", Dir dir_mode []);
        (py "notes", File file_mode [x61; x2d; x62; x2d; x63]) ].

(** A string that can stand as one component of a path. *)
Definition plain_name (c : str) : bool :=
  is_component c && negb (existsb (N.eqb sep) c).

(** A path as the parser builds them. *)
Definition clean (p : Path) : bool := forallb plain_name (parts p).

(** The number of directory levels of a subtree. *)
Fixpoint height (n : node) : nat :=
  match n with
  | File _ _ => 0
  | Dir _ es => S (fold_right (fun kv h => Nat.max (height (snd kv)) h) 0 es)
  end.

(** Every directory of the subtree can be listed and searched and every
    file can be read. *)
Fixpoint readable (n : node) : bool :=
  match n with
  | File m _ => can_r m
  | Dir m es => can_r m && can_x m && forallb (fun kv => readable (snd kv)) es
  end.

(** A name that a directory entry can bear: an ordinary component that
    can be encoded, holds no NUL and has at most [NAME_MAX] bytes. *)
Definition valid_name (c : str) : bool :=
  plain_name c && negb (str_eqb c (py "..")) && negb (existsb (N.eqb 0) c)
  && fs_encodable c && (fs_length c <=? NAME_MAX).

Fixpoint distinct (l : list str) : bool :=
  match l with
  | [] => true
  | x :: l' => negb (existsb (str_eqb x) l') && distinct l'
  end.

(** In every directory of the subtree the entries bear valid names, no
    two of them the same. *)
Fixpoint well_formed (n : node) : bool :=
  match n with
  | File _ _ => true
  | Dir _ es =>
      forallb valid_name (map fst es) && distinct (map fst es)
      && forallb (fun kv => well_formed (snd kv)) es
  end.

(** Every path that goes from [p] down into the subtree [n] is one that
    the system accepts. *)
Fixpoint fits (p : Path) (n : node) : bool :=
  usable p
  && match n with
     | File _ _ => true
     | Dir _ es =>
         forallb (fun kv => fits (mkPath (root p) (parts p ++ [fst kv]))
                                 (snd kv)) es
     end.

(** What [shutil.copytree] achieves with recursion depth [k]: a readable,
    well-formed directory that is less than [k] levels high arrives, as it
    is, under a free name of a writable directory that is not inside it,
    when the paths into the source and into the copy are all accepted. *)
Definition copies (k : nat) : Prop :=
  forall n src dst t sl d nm,
    height n < k -> is_dir_node n = true ->
    readable n = true -> well_formed n = true ->
    fits src n = true -> fits dst n = true ->
    leads_to t src sl n -> free_at t dst d nm ->
    can_w (dir_perms t d) = true ->
    is_prefix sl (d ++ [nm]) = false ->
    copytree k src dst t = (Ok tt, put t (d ++ [nm]) n).

(** The directories [c1/c2/.../ck] nested in one another, all empty but
    for the next one; [chain []] is one empty directory. *)
Fixpoint chain (names : list str) : node :=
  match names with
  | [] => Dir dir_mode []
  | c :: rest => Dir dir_mode [(c, chain rest)]
  end.

(** A computation that leaves the tree as it found it, whether it returns
    or raises. *)
Definition read_only {A} (m : M A) : Prop :=
  forall t r t', m t = (r, t') -> t' = t.

(** Nothing is to be seen at [p]: a string that cannot be made an argument
    of a system call (it cannot be encoded, or holds a NUL), or a path
    that the system accepts and that is a free name in its directory or
    breaks off at a missing entry or at a regular file. *)
Definition absent (t : node) (p : Path) : Prop :=
  (exists e, fs_argument p = Some e)
  \/ (usable p = true
      /\ ((exists d nm, namei t [] (parts p) = inr (Missing d nm))
          \/ namei t [] (parts p) = inl ENOENT
          \/ namei t [] (parts p) = inl ENOTDIR)).

(** The way to [p], a path that the system accepts, goes through a
    directory that may not be searched. *)
Definition unsearchable (t : node) (p : Path) : Prop :=
  usable p = true /\ namei t [] (parts p) = inl EACCES.

(** The line that [list_dir] prints for one directory entry. *)
Definition listing_line (kv : str * node) : str :=
  (if is_dir_node (snd kv) then ListDirTool.dir_marker
   else ListDirTool.file_marker) ++ fst kv.

(** Entries in ascending order of their names. *)
Definition by_name (a b : str * node) : Prop := str_ltb (fst a) (fst b) = true.

(** A root with the directory [vault], which may be neither listed nor
    searched and holds the file [key], the file [sealed], which may be
    neither read nor written, and the file [raw], whose bytes are no
    UTF-8 text. *)
Definition locked_tree : node :=
  Dir dir_mode
      [ (py "vault", Dir (mkPerms false false false)
                         [ (py "key", File file_mode [x6b]) ]);
        (py "sealed", File (mkPerms false false false) [x73]);
        (py "raw", File file_mode [xff; xfe]) ].

(** A deep tree: sixteen directories named by 250 letters [a] each, one
    inside the other below the root, the innermost holding one file of that
    same name.  The path of the innermost directory has 4016 bytes, that
    of the file 4267. *)
Definition long_name : str := repeat 97%N 250.

Fixpoint nest (names : list str) (inner : node) : node :=
  match names with
  | [] => inner
  | c :: rest => Dir dir_mode [(c, nest rest inner)]
  end.

Definition deep_tree : node :=
  nest (repeat long_name 16) (Dir dir_mode [(long_name, File file_mode [])]).

Definition deep_path : str := py "/" ++ join (py "/") (repeat long_name 16).

(** The path arguments of a call, and paths that begin at the root. *)
Definition request_paths (r : request) : list str :=
  match r with
  | ReadFile path | WriteFile path _ | EditFile path _ _ | ListDir path
  | RenameFile path _ | CreateDir path => [path]
  | MoveFile source destination | CopyFile source destination =>
      [source; destination]
  end.

Definition is_absolute (s : str) : bool := startswith (py "/") s.

(** A computation under which whatever exists stays: every node that was
    there is still there afterwards, of the same kind and with the same
    access bits. *)
Definition keeps_entries {A} (m : M A) : Prop :=
  forall t r t', m t = (r, t') ->
                 forall l, sig t l <> None -> sig t' l = sig t l.

(** A computation that leaves every regular file as it is. *)
Definition keeps_files {A} (m : M A) : Prop :=
  forall t r t', m t = (r, t') ->
                 forall l m bs, get t l = Some (File m bs) ->
                                get t' l = Some (File m bs).

(** ** The declarations of the tools *)

Inductive tool_id :=
| read_file | write_file | edit_file | list_dir
| rename_file | move_file | copy_file | create_dir.

Definition all_tools : list tool_id :=
  [read_file; write_file; edit_file; list_dir;
   rename_file; move_file; copy_file; create_dir].

(** The [name] property. *)
Definition tool_name (k : tool_id) : str :=
  match k with
  | read_file => ReadFileTool.name
  | write_file => WriteFileTool.name
  | edit_file => EditFileTool.name
  | list_dir => ListDirTool.name
  | rename_file => RenameFileTool.name
  | move_file => MoveFileTool.name
  | copy_file => CopyFileTool.name
  | create_dir => CreateDirTool.name
  end.

(** The ["properties"] of the schema that [parameters] returns: the keys
    in the order of the source, each with its ["type"]. *)
Definition tool_properties (k : tool_id) : list (str * str) :=
  match k with
  | read_file | list_dir | create_dir => [(py "path", py "string")]
  | write_file => [(py "path", py "string"); (py "content", py "string")]
  | edit_file =>
      [(py "path", py "string"); (py "old_text", py "string");
       (py "new_text", py "string")]
  | rename_file =>
      [(py "old_path", py "string"); (py "new_name", py "string")]
  | move_file | copy_file =>
      [(py "source", py "string"); (py "destination", py "string")]
  end.

(** The ["required"] list of that schema. *)
Definition tool_required (k : tool_id) : list str :=
  match k with
  | read_file => ReadFileTool.required
  | write_file => WriteFileTool.required
  | edit_file => EditFileTool.required
  | list_dir => ListDirTool.required
  | rename_file => RenameFileTool.required
  | move_file => MoveFileTool.required
  | copy_file => CopyFileTool.required
  | create_dir => CreateDirTool.required
  end.

(** The value given for one keyword. *)
Fixpoint kwarg (key : str) (args : list (str * str)) : option str :=
  match args with
  | [] => None
  | (k, v) :: rest => if str_eqb k key then Some v else kwarg key rest
  end.

(** A call of [execute] with keyword arguments: they are bound to the
    parameters that the signature of [execute] names; a parameter left
    without argument, or an argument for [self], which the method call
    has bound already, makes the call itself raise [TypeError] ([None]
    here); arguments that name no parameter are taken by the catch-all
    parameter [kwargs]. *)
Definition bind_arguments (k : tool_id) (args : list (str * str))
  : option request :=
  match kwarg (py "self") args with
  | Some _ => None
  | None =>
  match k with
  | read_file => option_map ReadFile (kwarg (py "path") args)
  | write_file =>
      match kwarg (py "path") args, kwarg (py "content") args with
      | Some path, Some content => Some (WriteFile path content)
      | _, _ => None
      end
  | edit_file =>
      match kwarg (py "path") args, kwarg (py "old_text") args,
            kwarg (py "new_text") args with
      | Some path, Some old_text, Some new_text =>
          Some (EditFile path old_text new_text)
      | _, _, _ => None
      end
  | list_dir => option_map ListDir (kwarg (py "path") args)
  | rename_file =>
      match kwarg (py "old_path") args, kwarg (py "new_name") args with
      | Some old_path, Some new_name => Some (RenameFile old_path new_name)
      | _, _ => None
      end
  | move_file =>
      match kwarg (py "source") args, kwarg (py "destination") args with
      | Some source, Some destination => Some (MoveFile source destination)
      | _, _ => None
      end
  | copy_file =>
      match kwarg (py "source") args, kwarg (py "destination") args with
      | Some source, Some destination => Some (CopyFile source destination)
      | _, _ => None
      end
  | create_dir => option_map CreateDir (kwarg (py "path") args)
  end
  end.

(** The call of [execute] with the keyword arguments [args].  The
    arguments are bound before anything of the body is run: when they do
    not fit the signature the call raises [TypeError] (its message, which
    names the parameters at fault, is left out) outside the [try] of the
    body, so that no handler of [execute] sees it. *)
Definition call (E : Env) (k : tool_id) (args : list (str * str)) : tool :=
  match bind_arguments k args with
  | Some r => execute E r
  | None => raise (mkExn TypeError None [])
  end.

(** * Properties *)

Unset Implicit Arguments.

(** ** Strings *)

Lemma str_eqb_eq a b : str_eqb a b = true <-> a = b.
Proof.
  unfold str_eqb. destruct (list_eq_dec N.eq_dec a b); split; congruence.
Qed.

Lemma str_eqb_refl a : str_eqb a a = true.
Proof. now apply str_eqb_eq. Qed.

Lemma str_eqb_neq a b : str_eqb a b = false <-> a <> b.
Proof.
  unfold str_eqb. destruct (list_eq_dec N.eq_dec a b); split; congruence.
Qed.

Lemma Some_inj {A} (a b : A) : Some a = Some b -> a = b.
Proof. congruence. Qed.

Lemma startswith_app p s : startswith p (p ++ s) = true.
Proof.
  induction p as [|a p IH]; [reflexivity|].
  cbn [app startswith]. now rewrite N.eqb_refl, IH.
Qed.

Lemma startswith_split p s :
  startswith p s = true -> s = p ++ skipn (length p) s.
Proof.
  revert s. induction p as [|a p IH]; intros [|b s]; cbn; try congruence.
  intros H. apply andb_prop in H as [Hab Hps].
  apply N.eqb_eq in Hab. subst b. f_equal. now apply IH.
Qed.

Lemma occurrences_from_shift sub s i :
  occurrences_from sub s (S i) = map S (occurrences_from sub s i).
Proof.
  revert i. induction s as [|c s IH]; intros i; cbn [occurrences_from].
  - destruct (startswith sub []); reflexivity.
  - rewrite map_app, IH. destruct (startswith sub (c :: s)); reflexivity.
Qed.

(** [sub in s] holds exactly when [sub] occurs somewhere in [s]. *)
Lemma contains_occurrences sub s i :
  contains sub s = false <-> occurrences_from sub s i = [].
Proof.
  revert i. induction s as [|c s IH]; intros i;
    cbn [contains occurrences_from].
  - destruct (startswith sub []); cbn; split; congruence.
  - destruct (startswith sub (c :: s)); cbn [orb app].
    + split; discriminate.
    + apply IH.
Qed.

Lemma count_from_le sub s k i :
  count_from sub s k <= length (occurrences_from sub s i).
Proof.
  revert k i. induction s as [|c s IH]; intros k i;
    cbn [count_from occurrences_from]; [lia|].
  rewrite length_app. destruct k as [|k].
  - destruct (startswith sub (c :: s)); cbn [length].
    + specialize (IH (length sub - 1) (S i)). lia.
    + apply (IH 0 (S i)).
  - specialize (IH k (S i)). lia.
Qed.

Lemma count_from_pos sub s :
  contains sub s = true -> sub <> [] -> 1 <= count_from sub s 0.
Proof.
  intros H Hne. induction s as [|c s IH].
  - destruct sub; [congruence | discriminate].
  - cbn [contains] in H. cbn [count_from].
    destruct (startswith sub (c :: s)); [lia|].
    apply IH. exact H.
Qed.

Lemma occurrences_empty_length s i :
  length (occurrences_from [] s i) = S (length s).
Proof.
  revert i. induction s as [|c s IH]; intros i; cbn; [reflexivity|].
  now rewrite IH.
Qed.

(** [s.count(sub)] never exceeds the number of offsets at which [sub]
    occurs, and is positive as soon as there is one. *)
Lemma count_le_occurrences s sub : count s sub <= length (occurrences sub s).
Proof.
  unfold count, occurrences. destruct sub as [|a sub].
  - now rewrite occurrences_empty_length.
  - apply count_from_le.
Qed.

Lemma count_pos s sub : contains sub s = true -> 1 <= count s sub.
Proof.
  intros H. unfold count. destruct sub as [|a sub]; [lia|].
  apply count_from_pos; [exact H | discriminate].
Qed.

(** [replace_first] rewrites the leftmost occurrence and nothing else. *)
Lemma replace_first_spec s old new i :
  contains old s = true ->
  exists pre post,
    s = pre ++ old ++ post
    /\ replace_first s old new = pre ++ new ++ post
    /\ hd_error (occurrences_from old s i) = Some (i + length pre).
Proof.
  revert i. induction s as [|c s IH]; intros i H.
  - cbn [contains] in H. rewrite orb_false_r in H.
    destruct old; [|discriminate].
    exists [], []. cbn. rewrite Nat.add_0_r. auto.
  - cbn [contains] in H. cbn [replace_first occurrences_from].
    destruct (startswith old (c :: s)) eqn:Hs.
    + exists [], (skipn (length old) (c :: s)). cbn [app length hd_error].
      rewrite Nat.add_0_r. split; [|auto]. now apply startswith_split.
    + cbn [orb] in H. destruct (IH (S i) H) as (pre & post & E1 & E2 & E3).
      exists (c :: pre), post. cbn [app length]. rewrite E2, E3.
      repeat split; [congruence | f_equal; lia].
Qed.

(** ** The codec *)

Lemma byte_of_N_to_N n : (n < 256)%N -> Byte.to_N (byte_of_N n) = n.
Proof.
  intros H. unfold byte_of_N. destruct (Byte.of_N n) as [b|] eqn:Hb.
  - now apply Byte.to_of_N.
  - apply Byte.of_N_None_iff in Hb. lia.
Qed.

Lemma N_split64 c :
  exists q r, (c = 64 * q + r /\ r < 64 /\ c / 64 = q /\ c mod 64 = r)%N.
Proof.
  exists (c / 64)%N, (c mod 64)%N. repeat split.
  - apply N.div_mod'.
  - apply N.mod_lt. lia.
Qed.

Ltac cmp_cases :=
  repeat match goal with
         | |- context [(?a <? ?b)%N] => destruct (N.ltb_spec a b); try lia
         | |- context [(?a <=? ?b)%N] => destruct (N.leb_spec a b); try lia
         end.

Ltac split64 c q r :=
  let Hc := fresh "Hc" in
  let Hr := fresh "Hr" in
  let Hq := fresh "Hq" in
  let Hm := fresh "Hm" in
  destruct (N_split64 c) as (q & r & Hc & Hr & Hq & Hm).

(** Decoding undoes the encoding of one code point. *)
Lemma utf8_decode_encode_cp c bs rest :
  utf8_encode_cp c = Some bs ->
  utf8_decode (bs ++ rest) = option_map (cons c) (utf8_decode rest).
Proof.
  unfold utf8_encode_cp, is_surrogate.
  destruct (N.ltb_spec c 0x80).
  { intros Heq. apply Some_inj in Heq. subst bs. cbn [app utf8_decode].
    rewrite byte_of_N_to_N by lia.
    destruct (N.ltb_spec c 0x80); [reflexivity | lia]. }
  destruct (N.ltb_spec c 0x800).
  { intros Heq. apply Some_inj in Heq. subst bs.
    split64 c q0 r0. cbn [app utf8_decode]. rewrite Hq, Hm.
    rewrite !byte_of_N_to_N by lia. unfold is_cont. cmp_cases.
    cbn [andb]. do 2 f_equal. lia. }
  destruct (N.ltb_spec c 0x10000).
  { destruct (N.leb_spec 0xD800 c); destruct (N.leb_spec c 0xDFFF);
      cbn [andb]; try discriminate.
    all: intros Heq; apply Some_inj in Heq; subst bs.
    all: split64 c q0 r0; split64 q0 q1 r1.
    all: replace (c / 4096)%N with q1
      by (rewrite <- Hq0, <- Hq, N.Div0.div_div; reflexivity).
    all: cbn [app utf8_decode]; rewrite Hq, Hm, Hm0.
    all: rewrite !byte_of_N_to_N by lia; unfold is_cont, is_surrogate.
    all: cmp_cases; cbn [andb negb]; do 2 f_equal; lia. }
  destruct (N.ltb_spec c 0x110000); try discriminate.
  intros Heq; apply Some_inj in Heq; subst bs.
  split64 c q0 r0; split64 q0 q1 r1; split64 q1 q2 r2.
  replace (c / 4096)%N with q1
    by (rewrite <- Hq0, <- Hq, N.Div0.div_div; reflexivity).
  replace (c / 262144)%N with q2
    by (rewrite <- Hq1, <- Hq0, <- Hq, !N.Div0.div_div; reflexivity).
  cbn [app utf8_decode]; rewrite Hq, Hm, Hm0, Hm1.
  rewrite !byte_of_N_to_N by lia; unfold is_cont; cmp_cases.
  cbn [andb negb]; do 2 f_equal; lia.
Qed.

(** What was encoded decodes to itself. *)
Lemma utf8_decode_encode s bs :
  utf8_encode s = Some bs -> utf8_decode bs = Some s.
Proof.
  revert bs. induction s as [|c s IH]; intros bs; cbn [utf8_encode].
  - intros H. apply Some_inj in H. now subst.
  - destruct (utf8_encode_cp c) as [b|] eqn:Hc; [|discriminate].
    destruct (utf8_encode s) as [bs'|]; [|discriminate].
    intros H. apply Some_inj in H. subst bs.
    rewrite (utf8_decode_encode_cp _ _ _ Hc), (IH _ eq_refl). reflexivity.
Qed.

Lemma utf8_encode_cp_scalar c :
  is_scalar c = true <-> exists b, utf8_encode_cp c = Some b.
Proof.
  unfold is_scalar, utf8_encode_cp, is_surrogate.
  destruct (N.ltb_spec c 0x80); destruct (N.ltb_spec c 0x800);
    destruct (N.ltb_spec c 0x10000); destruct (N.ltb_spec c 0x110000);
    destruct (N.leb_spec 0xD800 c); destruct (N.leb_spec c 0xDFFF);
    try lia; cbn [andb negb]; split; eauto; try discriminate.
  all: intros [b Hb]; discriminate.
Qed.

(** Encoding succeeds exactly on sequences of scalar values. *)
Lemma utf8_encode_encodable s :
  encodable s = true <-> exists bs, utf8_encode s = Some bs.
Proof.
  induction s as [|c s IH]; cbn [encodable forallb utf8_encode].
  - split; eauto.
  - fold (encodable s). rewrite andb_true_iff, IH, utf8_encode_cp_scalar.
    split.
    + intros [[b ->] [bs ->]]. eauto.
    + destruct (utf8_encode_cp c); [|intros [? ?]; discriminate].
      destruct (utf8_encode s); [|intros [? ?]; discriminate]. eauto.
Qed.

Lemma encodable_app a b : encodable (a ++ b) = encodable a && encodable b.
Proof. apply forallb_app. Qed.

Lemma encodable_universal_newlines s :
  encodable s = true -> encodable (universal_newlines s) = true.
Proof.
  assert (G : forall n s, length s <= n -> encodable s = true ->
                          encodable (universal_newlines s) = true).
  { clear s. induction n as [|n IH]; intros [|c s] Hn Hs; cbn in Hn;
      try reflexivity; try lia.
    cbn [encodable forallb] in Hs. apply andb_prop in Hs as [Hc Hs].
    cbn [universal_newlines].
    destruct (c =? 13)%N.
    - destruct s as [|d s]; [reflexivity|].
      cbn [forallb] in Hs. apply andb_prop in Hs as [Hd Hs'].
      destruct (d =? 10)%N; cbn [encodable forallb].
      + apply IH; [cbn in Hn; lia | exact Hs'].
      + apply (IH (d :: s)); [lia|]. cbn [encodable forallb].
        now rewrite Hd, Hs'.
    - cbn [encodable forallb]. rewrite Hc. apply IH; [lia | exact Hs]. }
  apply (G (length s)). lia.
Qed.

(** Whatever the strict decoder accepts can be encoded again. *)
Lemma utf8_decode_encodable bs s :
  utf8_decode bs = Some s -> encodable s = true.
Proof.
  assert (G : forall n bs s, length bs <= n -> utf8_decode bs = Some s ->
                             encodable s = true).
  { clear bs s. induction n as [|n IH]; intros [|b0 t0] s Hn; cbn in Hn;
      try lia; try (intros H; apply Some_inj in H; now subst).
    cbn [utf8_decode]. pose proof (Byte.to_N_bounded b0) as B0.
    set (n0 := Byte.to_N b0) in *.
    assert (K : forall c t, length t <= n -> is_scalar c = true ->
                            option_map (cons c) (utf8_decode t) = Some s ->
                            encodable s = true).
    { intros c t Ht Hc H. destruct (utf8_decode t) as [s'|] eqn:Hd;
        [|discriminate].
      apply Some_inj in H. subst s. cbn [encodable forallb]. rewrite Hc.
      now apply (IH t). }
    destruct (N.ltb_spec n0 0x80).
    { apply K; [lia|]. unfold is_scalar, is_surrogate. cmp_cases;
      try reflexivity. }
    destruct (N.ltb_spec n0 0xC2); [discriminate|].
    destruct (N.ltb_spec n0 0xE0).
    { destruct t0 as [|b1 t1]; [discriminate|].
      pose proof (Byte.to_N_bounded b1). set (n1 := Byte.to_N b1) in *.
      unfold is_cont.
      destruct (N.leb_spec 0x80 n1); destruct (N.ltb_spec n1 0xC0);
        cbn [andb]; try discriminate.
      apply K; [cbn in Hn; lia|]. unfold is_scalar, is_surrogate.
      cmp_cases; try reflexivity. }
    destruct (N.ltb_spec n0 0xF0).
    { destruct t0 as [|b1 [|b2 t2]]; try discriminate.
      set (n1 := Byte.to_N b1). set (n2 := Byte.to_N b2).
      cbv zeta.
      set (c := ((n0 - 224) * 4096 + (n1 - 128) * 64 + (n2 - 128))%N).
      destruct (is_cont n1 && is_cont n2 && (2048 <=? c)%N
                && negb (is_surrogate c)) eqn:Hg; [|discriminate].
      apply andb_prop in Hg as [Hg Hsur]. apply andb_prop in Hg as [Hg Hlo].
      apply andb_prop in Hg as [Hc1 Hc2].
      apply K; [cbn in Hn; lia|]. unfold is_scalar. rewrite Hsur.
      unfold is_cont in Hc1, Hc2.
      apply andb_prop in Hc1 as [? Hc1]. apply andb_prop in Hc2 as [? Hc2].
      apply N.ltb_lt in Hc1, Hc2. rewrite andb_true_r. apply N.ltb_lt.
      subst c. lia. }
    destruct (N.ltb_spec n0 0xF5); [|discriminate].
    destruct t0 as [|b1 [|b2 [|b3 t3]]]; try discriminate.
    set (n1 := Byte.to_N b1). set (n2 := Byte.to_N b2).
    set (n3 := Byte.to_N b3). cbv zeta.
    set (c := ((n0 - 240) * 262144 + (n1 - 128) * 4096 + (n2 - 128) * 64
               + (n3 - 128))%N).
    destruct (is_cont n1 && is_cont n2 && is_cont n3 && (65536 <=? c)%N
              && (c <? 1114112)%N) eqn:Hg; [|discriminate].
    apply andb_prop in Hg as [Hg Hhi]. apply andb_prop in Hg as [Hg Hlo].
    apply K; [cbn in Hn; lia|]. unfold is_scalar, is_surrogate.
    rewrite Hhi. apply N.leb_le in Hlo.
    destruct (N.leb_spec 0xD800 c); destruct (N.leb_spec c 0xDFFF);
      try reflexivity; lia. }
  apply (G (length bs)). lia.
Qed.

(** ** Running computations *)

Lemma bind_ok {A B} (m : M A) (k : A -> M B) t a t' :
  m t = (Ok a, t') -> bind m k t = k a t'.
Proof. unfold bind. now intros ->. Qed.

Lemma bind_raise {A B} (m : M A) (k : A -> M B) t e t' :
  m t = (Raise e, t') -> bind m k t = (Raise e, t').
Proof. unfold bind. now intros ->. Qed.

Lemma catch_ok {A} (m : M A) h t a t' :
  m t = (Ok a, t') -> catch m h t = (Ok a, t').
Proof. unfold catch. now intros ->. Qed.

Lemma catch_raise {A} (m : M A) h t e t' :
  m t = (Raise e, t') -> catch m h t = h e t'.
Proof. unfold catch. now intros ->. Qed.

(** ** No exception outside [Exception] *)

Lemma safe_ret {A} (a : A) : safe (ret a).
Proof. intros t e t'. discriminate. Qed.

Lemma safe_raise {A} e : isinstance e Exception = true -> safe (@raise A e).
Proof. intros H t e' t' [= <- _]. exact H. Qed.

Lemma safe_bind {A B} (m : M A) (k : A -> M B) :
  safe m -> (forall a, safe (k a)) -> safe (bind m k).
Proof.
  intros Hm Hk t e t'. unfold bind.
  destruct (m t) as [[a|e0] t0] eqn:Hmt.
  - apply Hk.
  - intros [= <- <-]. eapply Hm, Hmt.
Qed.

Lemma safe_catch {A} (m : M A) h :
  safe m -> (forall e, isinstance e Exception = true -> safe (h e)) ->
  safe (catch m h).
Proof.
  intros Hm Hh t e t'. unfold catch.
  destruct (m t) as [[a|e0] t0] eqn:Hmt; [discriminate|].
  apply Hh. eapply Hm, Hmt.
Qed.

Lemma safe_get_tree : safe get_tree.
Proof. intros t e t'. discriminate. Qed.

Lemma safe_set_tree t0 : safe (set_tree t0).
Proof. intros t e t'. discriminate. Qed.

Lemma os_error_Exception c files :
  isinstance (os_error c files) Exception = true.
Proof. destruct c; reflexivity. Qed.

Lemma safe_fail {A} c p : safe (@fail A c p).
Proof. apply safe_raise, os_error_Exception. Qed.

Lemma safe_fail2 {A} c p q : safe (@fail2 A c p q).
Proof. apply safe_raise, os_error_Exception. Qed.

Lemma safe_lift_expanduser E p : safe (lift (expanduser E p)).
Proof.
  intros t e t'. unfold lift, expanduser.
  destruct (root p); [|discriminate].
  destruct (parts p); [discriminate|].
  destruct (startswith _ _); [|discriminate].
  destruct (startswith _ _); [|discriminate].
  now intros [= <- _].
Qed.

Lemma fs_argument_Exception p e :
  fs_argument p = Some e -> isinstance e ValueError = true.
Proof.
  unfold fs_argument. destruct (negb (fs_encodable (path_str p)));
    [now intros [= <-]|].
  destruct (existsb (N.eqb 0) (path_str p)); [now intros [= <-]|discriminate].
Qed.

Lemma safe_resolve p : safe (resolve p).
Proof.
  unfold resolve. destruct (fs_argument p) as [e0|] eqn:Ha.
  - apply safe_raise. apply fs_argument_Exception in Ha.
    revert Ha. unfold isinstance. now destruct (cls e0).
  - destruct (PATH_MAX <=? fs_length (path_str p)); [apply safe_fail|].
    intros t e t'. destruct (namei t [] (parts p)); [|discriminate].
    intros [= <- _]. apply os_error_Exception.
Qed.

Create HintDb safe discriminated.
#[local] Hint Resolve safe_ret safe_bind safe_catch safe_get_tree safe_set_tree
  safe_fail safe_fail2 safe_lift_expanduser safe_resolve : safe.
#[local] Hint Extern 1 (safe (raise _)) =>
  first [ apply safe_raise; reflexivity | apply safe_raise; assumption ] : safe.

(** Splits the goal along the tests of the computation, then closes the
    leaves with the rules above. *)
Ltac safe_cases :=
  repeat first
    [ match goal with |- forall _, _ => intro end
    | match goal with
      | |- safe (if ?b then _ else _) => destruct b
      | |- safe (match ?x with _ => _ end) => destruct x
      end ];
  auto 10 with safe.

Ltac safe_step :=
  first [ apply safe_bind; [|intros] | apply safe_catch; [|intros] ].

Lemma safe_os_stat p : safe (os_stat p).
Proof. unfold os_stat. safe_step; safe_cases. Qed.

Lemma safe_read_bytes p : safe (read_bytes p).
Proof. unfold read_bytes. safe_step; safe_cases. Qed.

Lemma safe_open_w p : safe (open_w p).
Proof. unfold open_w. do 2 (safe_step; [auto with safe|]). safe_cases. Qed.

Lemma safe_write_data l bs : safe (write_data l bs).
Proof. unfold write_data. safe_step; safe_cases. Qed.

Lemma safe_os_mkdir p : safe (os_mkdir p).
Proof. unfold os_mkdir. do 2 (safe_step; [auto with safe|]). safe_cases. Qed.

Lemma safe_os_scandir p : safe (os_scandir p).
Proof. unfold os_scandir. safe_step; safe_cases. Qed.

Lemma safe_os_listdir p : safe (os_listdir p).
Proof. unfold os_listdir. safe_step; [apply safe_os_scandir|safe_cases]. Qed.

Lemma safe_os_unlink p : safe (os_unlink p).
Proof. unfold os_unlink. do 2 (safe_step; [auto with safe|]). safe_cases. Qed.

Lemma safe_os_rmdir p : safe (os_rmdir p).
Proof. unfold os_rmdir. do 2 (safe_step; [auto with safe|]). safe_cases. Qed.

Lemma safe_os_chmod p m : safe (os_chmod p m).
Proof. unfold os_chmod. do 2 (safe_step; [auto with safe|]). safe_cases. Qed.

Lemma safe_os_rename p q : safe (os_rename p q).
Proof. unfold os_rename. do 3 (safe_step; [auto with safe|]). safe_cases. Qed.

#[local] Hint Resolve safe_os_stat safe_read_bytes safe_open_w safe_write_data
  safe_os_mkdir safe_os_scandir safe_os_listdir safe_os_unlink safe_os_rmdir
  safe_os_chmod safe_os_rename : safe.

Lemma safe_stat_test f p : safe (stat_test f p).
Proof. unfold stat_test. safe_step; [safe_step|]; safe_cases. Qed.

Lemma safe_quiet_test f p : safe (quiet_test f p).
Proof. unfold quiet_test. safe_step; [safe_step|]; safe_cases. Qed.

Lemma safe_path_exists p : safe (path_exists p).
Proof. apply safe_stat_test. Qed.

Lemma safe_is_file p : safe (is_file p).
Proof. apply safe_stat_test. Qed.

Lemma safe_is_dir p : safe (is_dir p).
Proof. apply safe_stat_test. Qed.

Lemma safe_os_path_exists p : safe (os_path_exists p).
Proof. apply safe_quiet_test. Qed.

Lemma safe_os_path_isdir p : safe (os_path_isdir p).
Proof. apply safe_quiet_test. Qed.

#[local] Hint Resolve safe_path_exists safe_is_file safe_is_dir
  safe_os_path_exists safe_os_path_isdir : safe.

Lemma safe_read_text p : safe (read_text p).
Proof. unfold read_text. safe_step; safe_cases. Qed.

Lemma safe_write_text p s : safe (write_text p s).
Proof. unfold write_text. safe_step; safe_cases. Qed.

Lemma safe_mkdir_one ok p : safe (mkdir_one ok p).
Proof.
  unfold mkdir_one. safe_step; [auto with safe|]. safe_cases.
  safe_step; [apply safe_is_dir|]. safe_cases.
Qed.

Lemma safe_mkdir_parents ok r rparts : safe (mkdir_parents ok r rparts).
Proof.
  revert ok. induction rparts as [|c up IH]; intros ok;
    cbn [mkdir_parents]; (safe_step; [auto with safe|]); safe_cases.
  all: try (safe_step; [apply safe_is_dir|]; safe_cases).
  safe_step; [apply IH | intros; apply safe_mkdir_one].
Qed.

Lemma safe_mkdir a b p : safe (mkdir a b p).
Proof.
  unfold mkdir. destruct a; [apply safe_mkdir_parents|apply safe_mkdir_one].
Qed.

#[local] Hint Resolve safe_read_text safe_write_text safe_mkdir : safe.

(** Follows the shape of a computation down to the calls covered above. *)
Ltac safe_body :=
  repeat first
    [ match goal with |- forall _, _ => intro end
    | match goal with
      | |- safe (if ?b then _ else _) => destruct b
      | |- safe (match ?x with _ => _ end) => destruct x
      | |- safe (bind _ _) => apply safe_bind
      | |- safe (catch _ _) => apply safe_catch
      end ];
  auto 10 with safe.

Lemma safe_samefile p q : safe (samefile p q).
Proof.
  unfold samefile. safe_step; [|safe_cases].
  do 2 (safe_step; [auto with safe|]). safe_cases.
Qed.

Lemma safe_copyfile p q : safe (copyfile p q).
Proof.
  unfold copyfile. safe_step; [apply safe_samefile|]. safe_cases.
  safe_step; [auto with safe|]. safe_step.
  - safe_step; auto with safe.
  - safe_cases. safe_step; [auto with safe|]. safe_cases.
Qed.

Lemma safe_copystat p q : safe (copystat p q).
Proof. unfold copystat. safe_step; auto with safe. Qed.

Lemma safe_copy2 p q : safe (copy2 p q).
Proof.
  unfold copy2. safe_step; [auto with safe|].
  safe_step; [apply safe_copyfile | intros; apply safe_copystat].
Qed.

Lemma safe_makedirs r rparts : safe (makedirs r rparts).
Proof.
  induction rparts as [|c up IH]; cbn [makedirs]; [auto with safe|].
  safe_step; [|auto with safe].
  destruct up; [auto with safe|].
  safe_step; [auto with safe|]. safe_cases.
  safe_step; [exact IH|]. safe_cases.
Qed.

#[local] Hint Resolve safe_samefile safe_copyfile safe_copystat safe_copy2
  safe_makedirs : safe.

Lemma safe_copy_entries rec src dst entries errors :
  (forall p q, safe (rec p q)) ->
  safe (copy_entries rec src dst entries errors).
Proof.
  intros Hrec. revert errors.
  induction entries as [|[nm isdir] rest IH]; intros errors;
    cbn [copy_entries]; [auto with safe|].
  safe_step; [|apply IH].
  safe_step; [|safe_cases].
  safe_step; [|auto with safe]. destruct isdir; auto with safe.
Qed.

Lemma safe_copytree depth src dst : safe (copytree depth src dst).
Proof.
  revert src dst. induction depth as [|d IH]; intros src dst;
    cbn [copytree]; [auto with safe|].
  safe_step; [auto with safe|].
  safe_step; [auto with safe|].
  safe_step; [apply safe_copy_entries, IH|].
  safe_step; [|safe_cases].
  safe_step; [|safe_cases]. safe_step; auto with safe.
Qed.

Lemma safe_remove_entries rec p entries :
  (forall q, safe (rec q)) -> safe (remove_entries rec p entries).
Proof.
  intros Hrec. induction entries as [|[nm isdir] rest IH];
    cbn [remove_entries]; [auto with safe|].
  safe_step; [|exact IH]. destruct isdir; auto with safe.
Qed.

Lemma safe_rmtree depth p : safe (rmtree depth p).
Proof.
  revert p. induction depth as [|d IH]; intros p; cbn [rmtree];
    [auto with safe|].
  safe_step; [auto with safe|].
  safe_step; [apply safe_remove_entries, IH | auto with safe].
Qed.

#[local] Hint Resolve safe_copytree safe_rmtree : safe.

Lemma safe_shutil_move E src dst : safe (shutil_move E src dst).
Proof. unfold shutil_move. safe_body. Qed.

Lemma safe_collect children items : safe (ListDirTool.collect children items).
Proof.
  revert items. induction children as [|c rest IH]; intros items;
    cbn [ListDirTool.collect]; [auto with safe|].
  safe_step; [auto with safe|apply IH].
Qed.

Lemma safe_iterdir p : safe (iterdir p).
Proof. unfold iterdir. safe_step; auto with safe. Qed.

#[local] Hint Resolve safe_shutil_move safe_collect safe_iterdir : safe.

(** The two handlers of [execute] turn every instance of [Exception] into
    a returned string. *)
Lemma guarded_returns E body denied prefix :
  safe body ->
  forall t, exists s t', guarded E body denied prefix t = (Ok s, t').
Proof.
  intros Hb t. unfold guarded, catch.
  destruct (body t) as [[s|e] t'] eqn:Hbt; [eauto|].
  specialize (Hb _ _ _ Hbt).
  destruct (isinstance e PermissionError); [unfold ret; eauto|].
  rewrite Hb. unfold ret. eauto.
Qed.

Lemma safe_rename p q : safe (rename p q).
Proof. apply safe_os_rename. Qed.
#[local] Hint Resolve safe_rename : safe.

(** ** Trees *)

Lemma str_dec (a b : str) : {a = b} + {a <> b}.
Proof. apply (list_eq_dec N.eq_dec). Qed.

Lemma loc_dec (a b : loc) : {a = b} + {a <> b}.
Proof. apply (list_eq_dec str_dec). Qed.

Lemma loc_eqb_eq a b : loc_eqb a b = true <-> a = b.
Proof.
  unfold loc_eqb.
  destruct (list_eq_dec (list_eq_dec N.eq_dec) a b); split; congruence.
Qed.

Lemma is_prefix_spec a b : is_prefix a b = true <-> exists l, b = a ++ l.
Proof.
  revert b. induction a as [|x a IH]; intros b; cbn [is_prefix].
  - split; [intros _; now exists b | reflexivity].
  - destruct b as [|y b].
    + split; [discriminate | intros [l H]; discriminate].
    + rewrite andb_true_iff, str_eqb_eq, IH. split.
      * intros [-> [l ->]]. now exists l.
      * intros [l H]. cbn in H. injection H as -> ->. eauto.
Qed.

Lemma is_prefix_refl a : is_prefix a a = true.
Proof. apply is_prefix_spec. exists []. now rewrite app_nil_r. Qed.

Lemma is_prefix_app a l : is_prefix a (a ++ l) = true.
Proof. apply is_prefix_spec. eauto. Qed.

Lemma is_prefix_removelast a b :
  is_prefix a (removelast b) = true -> is_prefix a b = true.
Proof.
  destruct (loc_dec b []) as [->|Hb]; [trivial|].
  destruct (exists_last Hb) as (b' & x & ->).
  rewrite removelast_last, !is_prefix_spec. intros [l ->].
  exists (l ++ [x]). now rewrite app_assoc.
Qed.

Lemma is_prefix_snoc a b c :
  is_prefix a (b ++ [c]) = true -> a = b ++ [c] \/ is_prefix a b = true.
Proof.
  rewrite !is_prefix_spec. intros [l H].
  destruct (loc_dec l []) as [->|Hl].
  - left. now rewrite app_nil_r in H.
  - right. destruct (exists_last Hl) as (l' & x & ->).
    rewrite app_assoc in H. apply app_inj_tail in H as [-> _]. eauto.
Qed.

Lemma lookup_set_entry_same c v es : lookup c (set_entry c v es) = Some v.
Proof.
  induction es as [|[k w] es IH]; cbn [set_entry lookup].
  - now rewrite str_eqb_refl.
  - destruct (str_eqb k c) eqn:Hk; cbn [lookup].
    + now rewrite str_eqb_refl.
    + now rewrite Hk.
Qed.

Lemma lookup_set_entry_other c c' v es :
  c' <> c -> lookup c' (set_entry c v es) = lookup c' es.
Proof.
  intros Hne. induction es as [|[k w] es IH]; cbn [set_entry lookup].
  - destruct (str_eqb c c') eqn:H; [|reflexivity].
    apply str_eqb_eq in H. congruence.
  - destruct (str_eqb k c) eqn:Hk; cbn [lookup].
    + apply str_eqb_eq in Hk. subst k.
      destruct (str_eqb c c') eqn:H; [|reflexivity].
      apply str_eqb_eq in H. congruence.
    + destruct (str_eqb k c'); [reflexivity | exact IH].
Qed.

Lemma lookup_del_entry_same c es : lookup c (del_entry c es) = None.
Proof.
  induction es as [|[k w] es IH]; cbn [del_entry filter lookup fst];
    [reflexivity|].
  destruct (str_eqb k c) eqn:Hk; cbn [negb lookup]; [exact IH|].
  now rewrite Hk.
Qed.

Lemma lookup_del_entry_other c c' es :
  c' <> c -> lookup c' (del_entry c es) = lookup c' es.
Proof.
  intros Hne.
  induction es as [|[k w] es IH]; cbn [del_entry filter lookup fst];
    [reflexivity|].
  destruct (str_eqb k c) eqn:Hk; cbn [negb lookup].
  - apply str_eqb_eq in Hk. subst k.
    destruct (str_eqb c c') eqn:H; [|exact IH].
    apply str_eqb_eq in H. congruence.
  - destruct (str_eqb k c'); [reflexivity | exact IH].
Qed.

Lemma get_app t l l' :
  get t (l ++ l') = match get t l with
                    | Some n => get n l'
                    | None => None
                    end.
Proof.
  revert t. induction l as [|c l IH]; intros t; cbn [app get]; [reflexivity|].
  destruct t as [m d|m es]; [reflexivity|].
  destruct (lookup c es); [apply IH | reflexivity].
Qed.

Lemma get_snoc t l c m es :
  get t l = Some (Dir m es) -> get t (l ++ [c]) = lookup c es.
Proof.
  intros H. rewrite get_app, H. cbn. now destruct (lookup c es).
Qed.

Lemma get_file_snoc t l c m d :
  get t l = Some (File m d) -> get t (l ++ [c]) = None.
Proof. intros H. now rewrite get_app, H. Qed.

(** Storing a node leaves kind and access bits of everything that is not
    at or below the place unchanged. *)
Lemma sig_put t p v l :
  is_prefix p l = false -> sig (put t p v) l = sig t l.
Proof.
  revert t l. induction p as [|c p IH]; intros t l Hp; [discriminate|].
  destruct t as [m d|m es]; [reflexivity|].
  destruct l as [|c' l]; cbn [put].
  - destruct p; [reflexivity|]. destruct (lookup c es); reflexivity.
  - cbn [is_prefix] in Hp. unfold sig.
    destruct (str_dec c c') as [<-|Hne].
    + rewrite str_eqb_refl in Hp. cbn [andb] in Hp.
      destruct p as [|c2 p]; [discriminate|].
      destruct (lookup c es) as [ch|] eqn:Hl; [|reflexivity].
      cbn [get]. rewrite lookup_set_entry_same, Hl.
      apply (IH ch l Hp).
    + destruct p as [|c2 p]; cbn [get].
      * rewrite lookup_set_entry_other by congruence. reflexivity.
      * destruct (lookup c es) as [ch|] eqn:Hl; [|reflexivity].
        cbn [get]. rewrite lookup_set_entry_other by congruence.
        reflexivity.
Qed.

(** Outside the place and its ancestors nothing changes at all. *)
Lemma get_put_other t p v l :
  is_prefix p l = false -> is_prefix l p = false ->
  get (put t p v) l = get t l.
Proof.
  revert t l. induction p as [|c p IH]; intros t l Hp Hl; [discriminate|].
  destruct l as [|c' l]; [discriminate|].
  destruct t as [m d|m es]; [reflexivity|].
  cbn [is_prefix] in Hp, Hl. cbn [put].
  destruct (str_dec c c') as [<-|Hne].
  - rewrite str_eqb_refl in Hp, Hl. cbn [andb] in Hp, Hl.
    destruct p as [|c2 p]; [discriminate|].
    destruct (lookup c es) as [ch|] eqn:Hlk; [|reflexivity].
    cbn [get]. rewrite lookup_set_entry_same, Hlk. now apply IH.
  - destruct p as [|c2 p]; cbn [get].
    + now rewrite lookup_set_entry_other by congruence.
    + destruct (lookup c es) as [ch|] eqn:Hlk; [|reflexivity].
      cbn [get]. now rewrite lookup_set_entry_other by congruence.
Qed.

Lemma put_cons m es x p v ch :
  p <> [] -> lookup x es = Some ch ->
  put (Dir m es) (x :: p) v = Dir m (set_entry x (put ch p v) es).
Proof. intros Hp Hl. cbn [put]. rewrite Hl. now destruct p. Qed.

Lemma remove_cons m es x p ch :
  p <> [] -> lookup x es = Some ch ->
  remove (Dir m es) (x :: p) = Dir m (set_entry x (remove ch p) es).
Proof. intros Hp Hl. cbn [remove]. rewrite Hl. now destruct p. Qed.

Lemma snoc_not_nil {A} (d : list A) c : d ++ [c] <> [].
Proof. now destruct d. Qed.

(** What was stored is found, with all that hangs below it. *)
Lemma get_put_under t d c v l m es :
  get t d = Some (Dir m es) ->
  get (put t (d ++ [c]) v) ((d ++ [c]) ++ l) = get v l.
Proof.
  revert t. induction d as [|x d IH]; intros t H; cbn [app] in *.
  - cbn in H. apply Some_inj in H. subst t. cbn [put get].
    now rewrite lookup_set_entry_same.
  - destruct t as [m0 d0|m0 es0]; [discriminate|]. cbn [get] in H.
    destruct (lookup x es0) as [ch|] eqn:Hl; [|discriminate].
    erewrite put_cons; [|apply snoc_not_nil|exact Hl]. cbn [get].
    rewrite lookup_set_entry_same. now apply IH.
Qed.

Lemma get_put_same t d c v m es :
  get t d = Some (Dir m es) -> get (put t (d ++ [c]) v) (d ++ [c]) = Some v.
Proof.
  intros H. rewrite <- (app_nil_r (d ++ [c])) at 2.
  now rewrite (get_put_under t d c v [] m es H).
Qed.

Lemma get_put_exists t l v n :
  get t l = Some n -> get (put t l v) l = Some v.
Proof.
  destruct (loc_dec l []) as [->|Hl]; [reflexivity|].
  destruct (exists_last Hl) as (d & c & ->). intros H.
  rewrite get_app in H. destruct (get t d) as [[m0 d0|m es]|] eqn:Hd;
    try discriminate.
  exact (get_put_same t d c v m es Hd).
Qed.

Lemma sig_remove t p l :
  is_prefix p l = false -> sig (remove t p) l = sig t l.
Proof.
  revert t l. induction p as [|c p IH]; intros t l Hp; [discriminate|].
  destruct t as [m d|m es]; [reflexivity|].
  destruct l as [|c' l]; cbn [remove].
  - destruct p; [reflexivity|]. destruct (lookup c es); reflexivity.
  - cbn [is_prefix] in Hp. unfold sig.
    destruct (str_dec c c') as [<-|Hne].
    + rewrite str_eqb_refl in Hp. cbn [andb] in Hp.
      destruct p as [|c2 p]; [discriminate|].
      destruct (lookup c es) as [ch|] eqn:Hl; [|reflexivity].
      cbn [get]. rewrite lookup_set_entry_same, Hl.
      apply (IH ch l Hp).
    + destruct p as [|c2 p]; cbn [get].
      * rewrite lookup_del_entry_other by congruence. reflexivity.
      * destruct (lookup c es) as [ch|] eqn:Hl; [|reflexivity].
        cbn [get]. rewrite lookup_set_entry_other by congruence.
        reflexivity.
Qed.

Lemma get_remove_other t p l :
  is_prefix p l = false -> is_prefix l p = false ->
  get (remove t p) l = get t l.
Proof.
  revert t l. induction p as [|c p IH]; intros t l Hp Hl; [discriminate|].
  destruct l as [|c' l]; [discriminate|].
  destruct t as [m d|m es]; [reflexivity|].
  cbn [is_prefix] in Hp, Hl. cbn [remove].
  destruct (str_dec c c') as [<-|Hne].
  - rewrite str_eqb_refl in Hp, Hl. cbn [andb] in Hp, Hl.
    destruct p as [|c2 p]; [discriminate|].
    destruct (lookup c es) as [ch|] eqn:Hlk; [|reflexivity].
    cbn [get]. rewrite lookup_set_entry_same, Hlk. now apply IH.
  - destruct p as [|c2 p]; cbn [get].
    + now rewrite lookup_del_entry_other by congruence.
    + destruct (lookup c es) as [ch|] eqn:Hlk; [|reflexivity].
      cbn [get]. now rewrite lookup_set_entry_other by congruence.
Qed.

(** A detached node is gone, with all that hung below it. *)
Lemma get_remove_under t p l : p <> [] -> get (remove t p) (p ++ l) = None.
Proof.
  revert t. induction p as [|c p IH]; intros t Hp; [congruence|].
  destruct t as [m d|m es]; [reflexivity|].
  cbn [remove app]. destruct p as [|c2 p].
  - cbn [get app]. now rewrite lookup_del_entry_same.
  - destruct (lookup c es) as [ch|] eqn:Hl.
    + cbn [get]. rewrite lookup_set_entry_same. apply IH. discriminate.
    + cbn [get]. now rewrite Hl.
Qed.

(** ** Path resolution *)

Lemma sig_dir t l m es : get t l = Some (Dir m es) -> sig t l = Some (true, m).
Proof. unfold sig. now intros ->. Qed.

Lemma sig_dir_inv t l m :
  sig t l = Some (true, m) -> exists es, get t l = Some (Dir m es).
Proof.
  unfold sig. destruct (get t l) as [[m0 d|m0 es]|]; cbn; try discriminate.
  intros [= ->]. eauto.
Qed.

Lemma sig_none t l : sig t l = None <-> get t l = None.
Proof. unfold sig. destruct (get t l); cbn; split; congruence. Qed.

(** What resolution answers comes from the tree. *)
Lemma namei_found t cs here l n :
  namei t here cs = inr (Found l n) -> get t l = Some n.
Proof.
  revert here. induction cs as [|c rest IH]; intros here; cbn [namei].
  - destruct (get t here) eqn:H; [|discriminate]. now intros [= <- <-].
  - destruct (get t here) as [[m d|m es]|]; try discriminate.
    destruct (can_x m); [|discriminate].
    destruct (str_eqb c (py "..")); [apply IH|].
    destruct (NAME_MAX <? fs_length c); [discriminate|].
    destruct (lookup c es); [apply IH|]. destruct rest; discriminate.
Qed.

Lemma namei_missing t cs here d nm :
  namei t here cs = inr (Missing d nm) ->
  exists m es, get t d = Some (Dir m es) /\ can_x m = true
               /\ lookup nm es = None /\ nm <> py ".."
               /\ exists cs', cs = cs' ++ [nm].
Proof.
  revert here. induction cs as [|c rest IH]; intros here; cbn [namei].
  - destruct (get t here); discriminate.
  - destruct (get t here) as [[m0 d0|m es]|] eqn:Hg; try discriminate.
    destruct (can_x m) eqn:Hx; [|discriminate].
    destruct (str_eqb c (py "..")) eqn:Hdd.
    { intros H. destruct (IH _ H) as (m' & es' & ? & ? & ? & ? & cs' & ->).
      exists m', es'. repeat split; auto. now exists (c :: cs'). }
    destruct (NAME_MAX <? fs_length c); [discriminate|].
    destruct (lookup c es) eqn:Hl.
    { intros H. destruct (IH _ H) as (m' & es' & ? & ? & ? & ? & cs' & ->).
      exists m', es'. repeat split; auto. now exists (c :: cs'). }
    destruct rest; [|discriminate]. intros [= <- <-].
    exists m, es. repeat split; auto.
    + intros ->. now rewrite str_eqb_refl in Hdd.
    + now exists [].
Qed.

(** Resolution of a longer path goes through the resolution of its
    beginning. *)
Lemma namei_app t cs ds here :
  ds <> [] ->
  namei t here (cs ++ ds) =
  match namei t here cs with
  | inr (Found l _) => namei t l ds
  | inr (Missing _ _) => inl ENOENT
  | inl e => inl e
  end.
Proof.
  intros Hds. revert here. induction cs as [|c rest IH]; intros here.
  - cbn [app namei]. destruct (get t here) eqn:Hg; [reflexivity|].
    destruct ds; [congruence|]. cbn [namei]. now rewrite Hg.
  - cbn [app namei]. destruct (get t here) as [[m0 d0|m es]|]; try reflexivity.
    destruct (can_x m); [|reflexivity].
    destruct (str_eqb c (py "..")); [apply IH|].
    destruct (NAME_MAX <? fs_length c); [reflexivity|].
    destruct (lookup c es); [apply IH|].
    destruct rest; cbn [app]; [|reflexivity]. now destruct ds.
Qed.

(** ** Paths that the system accepts *)

Lemma fs_encodable_app a b :
  fs_encodable (a ++ b) = fs_encodable a && fs_encodable b.
Proof. apply forallb_app. Qed.

Lemma fs_length_app a b : fs_length (a ++ b) = fs_length a + fs_length b.
Proof. unfold fs_length. now rewrite map_app, list_sum_app. Qed.

(** A string without what [os.fsencode] and the system calls refuse. *)
Lemma usable_spec p :
  usable p = fs_encodable (path_str p) && negb (existsb (N.eqb 0) (path_str p))
             && (fs_length (path_str p) <? PATH_MAX).
Proof.
  unfold usable, fs_argument. destruct (fs_encodable (path_str p)); cbn [negb andb];
    [|reflexivity].
  now destruct (existsb (N.eqb 0) (path_str p)).
Qed.

Lemma usable_inv p :
  usable p = true ->
  fs_argument p = None /\ (PATH_MAX <=? fs_length (path_str p)) = false.
Proof.
  unfold usable. destruct (fs_argument p); [discriminate|].
  intros H. split; [reflexivity|]. apply Nat.ltb_lt in H.
  apply Nat.leb_gt. exact H.
Qed.

Lemma resolve_usable p t :
  usable p = true ->
  resolve p t = match namei t [] (parts p) with
                | inr tg => (Ok tg, t)
                | inl c => (Raise (os_error c [path_str p]), t)
                end.
Proof.
  intros H. destruct (usable_inv _ H) as [Ha Hl]. unfold resolve.
  now rewrite Ha, Hl.
Qed.

Lemma resolve_refused p e t :
  fs_argument p = Some e -> resolve p t = (Raise e, t).
Proof. intros H. unfold resolve. now rewrite H. Qed.

Lemma join_app (d : str) (a b : list str) :
  a <> [] -> b <> [] -> join d (a ++ b) = join d a ++ d ++ join d b.
Proof.
  induction a as [|x a IH]; [congruence|]. intros _ Hb.
  destruct a as [|y a].
  - cbn [app join]. destruct b; [congruence | reflexivity].
  - change ((x :: y :: a) ++ b) with (x :: (y :: a) ++ b).
    change (join d (x :: (y :: a) ++ b))
      with (x ++ d ++ join d ((y :: a) ++ b)).
    rewrite IH by (auto; discriminate).
    change (join d (x :: y :: a)) with (x ++ d ++ join d (y :: a)).
    now rewrite <- !app_assoc.
Qed.

(** The string of a path begins with the string of each of its beginnings,
    the path without component apart. *)
Lemma path_str_prefix r a b :
  (r = [] /\ a = []) \/
  exists rest, path_str (mkPath r (a ++ b)) = path_str (mkPath r a) ++ rest.
Proof.
  destruct a as [|x a].
  - destruct r as [|c r]; [now left|]. right. cbn [app].
    unfold path_str. cbn [root parts join]. rewrite app_nil_r.
    exists (join (py "/") b). reflexivity.
  - right. assert (Hs : forall ps, ps <> [] ->
                      path_str (mkPath r ps) = r ++ join (py "/") ps).
    { intros ps Hps. unfold path_str. cbn [root parts].
      destruct r; [|reflexivity]. destruct ps; [congruence | reflexivity]. }
    rewrite !Hs by discriminate. destruct b as [|y b].
    + exists []. now rewrite !app_nil_r.
    + exists (py "/" ++ join (py "/") (y :: b)).
      rewrite join_app by discriminate. now rewrite <- app_assoc.
Qed.

Lemma usable_prefix r a b :
  usable (mkPath r (a ++ b)) = true -> usable (mkPath r a) = true.
Proof.
  destruct (path_str_prefix r a b) as [[-> ->]|[rest Hs]]; [reflexivity|].
  rewrite !usable_spec, Hs, fs_encodable_app, existsb_app, fs_length_app.
  intros H. apply andb_prop in H as [H Hlen]. apply andb_prop in H as [He Hn].
  apply andb_prop in He as [He _]. apply negb_true_iff in Hn.
  apply orb_false_iff in Hn as [Hn _]. apply Nat.ltb_lt in Hlen.
  apply andb_true_intro. split; [apply andb_true_intro; split|].
  - exact He.
  - now apply negb_true_iff.
  - apply Nat.ltb_lt. lia.
Qed.

Lemma fs_argument_none p :
  fs_argument p = None <->
  fs_encodable (path_str p) = true /\ existsb (N.eqb 0) (path_str p) = false.
Proof.
  unfold fs_argument. destruct (fs_encodable (path_str p)); cbn [negb].
  - destruct (existsb (N.eqb 0) (path_str p)); split; intros H;
      try discriminate; auto. now destruct H.
  - split; [discriminate | now intros []].
Qed.

Lemma path_str_snoc r cs c :
  path_str (mkPath r (cs ++ [c])) =
  match cs with
  | [] => r ++ c
  | _ :: _ => path_str (mkPath r cs) ++ py "/" ++ c
  end.
Proof.
  destruct cs as [|x cs].
  - unfold path_str. cbn [app root parts join]. now destruct r.
  - assert (Hs : forall ps, ps <> [] ->
                   path_str (mkPath r ps) = r ++ join (py "/") ps).
    { intros ps Hps. unfold path_str. cbn [root parts].
      destruct r; [|reflexivity]. destruct ps; [congruence | reflexivity]. }
    rewrite !Hs by (try discriminate; destruct cs; discriminate).
    rewrite join_app by discriminate. cbn [join]. now rewrite <- app_assoc.
Qed.

(** Joining a component that [os.fsencode] accepts and that holds no NUL to
    a path the system accepts gives a path it accepts, lengths apart. *)
Lemma fs_argument_snoc r cs c :
  fs_argument (mkPath r cs) = None ->
  fs_encodable c = true -> existsb (N.eqb 0) c = false ->
  fs_argument (mkPath r (cs ++ [c])) = None.
Proof.
  rewrite !fs_argument_none, path_str_snoc. intros [He Hn] Hc Hz.
  destruct cs as [|x cs].
  - rewrite fs_encodable_app, existsb_app.
    destruct r as [|y r]; [split; assumption|].
    unfold path_str in He, Hn. cbn [root parts join] in He, Hn.
    rewrite app_nil_r in He, Hn. split.
    + apply andb_true_intro. now split.
    + apply orb_false_iff. now split.
  - rewrite !fs_encodable_app, !existsb_app. split.
    + apply andb_true_intro. split; [exact He|].
      apply andb_true_intro. now split.
    + apply orb_false_iff. split; [exact Hn|].
      apply orb_false_iff. now split.
Qed.

(** What the system accepts as a path, it accepts as the last component. *)
Lemma fs_argument_last p :
  fs_argument p = None ->
  fs_encodable (path_name p) = true
  /\ existsb (N.eqb 0) (path_name p) = false.
Proof.
  unfold path_name. destruct (loc_dec (parts p) []) as [->|Hne]; [now split|].
  destruct (exists_last Hne) as (cs & c & Hp). rewrite Hp, last_last.
  rewrite fs_argument_none. replace p with (mkPath (root p) (cs ++ [c]))
    by (rewrite <- Hp; now destruct p).
  rewrite path_str_snoc. destruct cs as [|x cs].
  - rewrite fs_encodable_app, existsb_app. intros [He Hn].
    apply andb_prop in He as [_ He]. apply orb_false_iff in Hn as [_ Hn].
    now split.
  - rewrite !fs_encodable_app, !existsb_app. intros [He Hn].
    apply andb_prop in He as [_ He]. apply andb_prop in He as [_ He].
    apply orb_false_iff in Hn as [_ Hn]. apply orb_false_iff in Hn as [_ Hn].
    now split.
Qed.

Lemma fs_argument_app r cs ds :
  fs_argument (mkPath r cs) = None ->
  forallb (fun c => fs_encodable c && negb (existsb (N.eqb 0) c)) ds = true ->
  fs_argument (mkPath r (cs ++ ds)) = None.
Proof.
  revert cs. induction ds as [|d ds IH]; intros cs Hc Hd.
  - now rewrite app_nil_r.
  - cbn [forallb] in Hd. apply andb_prop in Hd as [Hd Hds].
    apply andb_prop in Hd as [He Hz]. apply negb_true_iff in Hz.
    change (d :: ds) with ([d] ++ ds). rewrite app_assoc. apply IH; [|exact Hds].
    now apply fs_argument_snoc.
Qed.

Lemma usable_parent p : usable p = true -> usable (parent p) = true.
Proof.
  intros H. unfold parent. destruct (loc_dec (parts p) []) as [Hp|Hp].
  - rewrite Hp. cbn [removelast]. rewrite <- Hp. now destruct p.
  - destruct (exists_last Hp) as (cs & c & Hcs). rewrite Hcs, removelast_last.
    apply (usable_prefix _ cs [c]). rewrite <- Hcs. now destruct p.
Qed.

(** ** What the path methods answer *)

Lemma resolve_found t p l n :
  leads_to t p l n -> resolve p t = (Ok (Found l n), t).
Proof. intros [Hn Hr]. now rewrite (resolve_usable _ _ Hn), Hr. Qed.

Lemma resolve_free t p d nm :
  free_at t p d nm -> resolve p t = (Ok (Missing d nm), t).
Proof. intros [Hn Hr]. now rewrite (resolve_usable _ _ Hn), Hr. Qed.

Lemma resolve_state {p t r t'} : resolve p t = (r, t') -> t' = t.
Proof.
  unfold resolve. destruct (fs_argument p); [now intros [= _ <-]|].
  destruct (PATH_MAX <=? fs_length (path_str p)); [now intros [= _ <-]|].
  destruct (namei t [] (parts p)); now intros [= _ <-].
Qed.

Lemma resolve_ok_inv p t tg t' :
  resolve p t = (Ok tg, t') ->
  usable p = true /\ namei t [] (parts p) = inr tg.
Proof.
  unfold resolve, usable. destruct (fs_argument p); [discriminate|].
  destruct (PATH_MAX <=? fs_length (path_str p)) eqn:Hl; [discriminate|].
  destruct (namei t [] (parts p)); [discriminate|]. intros [= -> _].
  split; [|reflexivity]. apply Nat.leb_gt in Hl. now apply Nat.ltb_lt.
Qed.

Lemma os_stat_found t p l n : leads_to t p l n -> os_stat p t = (Ok n, t).
Proof.
  intros H. unfold os_stat. now rewrite (bind_ok _ _ _ _ _ (resolve_found _ _ _ _ H)).
Qed.

Lemma stat_test_found f t p l n :
  leads_to t p l n -> stat_test f p t = (Ok (f n), t).
Proof.
  intros H. unfold stat_test. apply catch_ok.
  now rewrite (bind_ok _ _ _ _ _ (os_stat_found _ _ _ _ H)).
Qed.

Lemma stat_test_free f t p d nm :
  free_at t p d nm -> stat_test f p t = (Ok false, t).
Proof.
  intros H. unfold stat_test, catch, os_stat, bind.
  rewrite (resolve_free _ _ _ _ H). reflexivity.
Qed.

Lemma path_exists_found t p l n :
  leads_to t p l n -> path_exists p t = (Ok true, t).
Proof. apply (stat_test_found (fun _ => true)). Qed.

Lemma is_dir_found t p l n :
  leads_to t p l n -> is_dir p t = (Ok (is_dir_node n), t).
Proof. apply (stat_test_found is_dir_node). Qed.

Lemma is_file_found t p l n :
  leads_to t p l n -> is_file p t = (Ok (negb (is_dir_node n)), t).
Proof. apply (stat_test_found (fun n => negb (is_dir_node n))). Qed.

Lemma path_exists_free t p d nm :
  free_at t p d nm -> path_exists p t = (Ok false, t).
Proof. apply stat_test_free. Qed.

Lemma is_dir_free t p d nm :
  free_at t p d nm -> is_dir p t = (Ok false, t).
Proof. apply stat_test_free. Qed.

Lemma os_stat_state {p t r t'} : os_stat p t = (r, t') -> t' = t.
Proof.
  unfold os_stat, bind. destruct (resolve p t) as [[tg|e] t0] eqn:Hr.
  - apply resolve_state in Hr. subst t0.
    destruct tg; now intros [= _ <-].
  - apply resolve_state in Hr. now intros [= _ <-].
Qed.

Lemma stat_test_state {f p t r t'} : stat_test f p t = (r, t') -> t' = t.
Proof.
  unfold stat_test, catch, bind.
  destruct (os_stat p t) as [[n|e] t0] eqn:Hs; apply os_stat_state in Hs;
    subst t0.
  - now intros [= _ <-].
  - destruct (isinstance e OSError).
    + destruct (ignore_error e); now intros [= _ <-].
    + destruct (isinstance e ValueError); now intros [= _ <-].
Qed.

Lemma os_stat_ok_inv p t n t' :
  os_stat p t = (Ok n, t') -> exists l, leads_to t p l n.
Proof.
  unfold os_stat, bind. destruct (resolve p t) as [[tg|e] t0] eqn:Hr;
    [|discriminate].
  apply resolve_ok_inv in Hr. destruct tg as [l n0|d nm]; [|discriminate].
  intros [= <- _]. now exists l.
Qed.

Lemma stat_test_true_inv f p t t' :
  stat_test f p t = (Ok true, t') ->
  exists l n, leads_to t p l n /\ f n = true.
Proof.
  unfold stat_test, catch, bind.
  destruct (os_stat p t) as [[n|e] t0] eqn:Hs.
  - intros [= Hf _]. destruct (os_stat_ok_inv _ _ _ _ Hs) as [l Hl]. eauto.
  - destruct (isinstance e OSError).
    + destruct (ignore_error e); discriminate.
    + destruct (isinstance e ValueError); discriminate.
Qed.

Lemma is_dir_true_inv p t t' :
  is_dir p t = (Ok true, t') -> exists l m es, leads_to t p l (Dir m es).
Proof.
  intros H. destruct (stat_test_true_inv _ _ _ _ H) as (l & [m d|m es] & Hl & Hf);
    [discriminate|]. eauto.
Qed.

Lemma path_exists_true_inv p t t' :
  path_exists p t = (Ok true, t') -> exists l n, leads_to t p l n.
Proof.
  intros H. destruct (stat_test_true_inv _ _ _ _ H) as (l & n & Hl & _). eauto.
Qed.

(** The ways in which a path can name nothing. *)
Lemma stat_test_false_inv f p t t' :
  stat_test f p t = (Ok false, t') ->
  (exists e, fs_argument p = Some e)
  \/ (exists l n, leads_to t p l n /\ f n = false)
  \/ (exists d nm, free_at t p d nm)
  \/ (usable p = true /\ (namei t [] (parts p) = inl ENOENT
                           \/ namei t [] (parts p) = inl ENOTDIR)).
Proof.
  destruct (fs_argument p) as [e|] eqn:Ha; [eauto|]. intros H. right.
  revert H. unfold stat_test, os_stat, catch, bind, resolve. rewrite Ha.
  destruct (PATH_MAX <=? fs_length (path_str p)) eqn:Hl; [discriminate|].
  assert (Hu : usable p = true).
  { unfold usable. rewrite Ha. apply Nat.leb_gt in Hl. now apply Nat.ltb_lt. }
  destruct (namei t [] (parts p)) as [c|[l n|d nm]] eqn:Hr; cbn.
  - destruct c; cbn; try discriminate; intros _; right; right; auto.
  - intros [= Hf _]. left. exists l, n. repeat split; auto.
  - intros _. right. left. exists d, nm. split; auto.
Qed.

(** A test that answers False without having met a refused string was
    asked about a path within the length limit. *)
Lemma stat_test_false_usable f p t t' :
  stat_test f p t = (Ok false, t') -> fs_argument p = None ->
  usable p = true.
Proof.
  intros H Ha. apply stat_test_false_inv in H
    as [[e He]|[(l & n & [Hu _] & _)|[(d & nm & [Hu _])|[Hu _]]]]; auto.
  congruence.
Qed.

Lemma path_eta p : mkPath (root p) (parts p) = p.
Proof. now destruct p. Qed.

(** The lexical parent of a path that resolves is a directory that can be
    searched, unless the path has no component at all. *)
Lemma leads_to_parent t p l n :
  leads_to t p l n -> parts p <> [] ->
  exists l' m es, leads_to t (parent p) l' (Dir m es).
Proof.
  intros [Hn Hr] Hne. destruct (exists_last Hne) as (cs & c & Hp).
  pose proof (usable_parent _ Hn) as Hn'.
  rewrite Hp in Hr. rewrite namei_app in Hr by discriminate.
  destruct (namei t [] cs) as [e|[l' n'|d nm]] eqn:Hcs; try discriminate.
  pose proof (namei_found _ _ _ _ _ Hcs) as Hg.
  cbn [namei] in Hr. rewrite Hg in Hr.
  destruct n' as [m d|m es]; [discriminate|].
  exists l', m, es. split; [exact Hn'|].
  unfold parent. cbn [parts]. now rewrite Hp, removelast_last.
Qed.

Lemma free_at_parent t p d nm :
  free_at t p d nm ->
  exists m es, leads_to t (parent p) d (Dir m es) /\ lookup nm es = None
               /\ can_x m = true /\ nm <> py ".."
               /\ parts p = parts (parent p) ++ [nm].
Proof.
  intros [Hn Hr].
  destruct (namei_missing _ _ _ _ _ Hr)
    as (m & es & Hg & Hx & Hl & Hdd & cs & Hcs).
  pose proof (usable_parent _ Hn) as Hn'.
  assert (Hpar : parts (parent p) = cs).
  { unfold parent. cbn [parts]. now rewrite Hcs, removelast_last. }
  exists m, es. unfold leads_to. rewrite Hpar.
  repeat split; auto.
  rewrite Hcs in Hr. rewrite namei_app in Hr by discriminate.
  destruct (namei t [] cs) as [e|[l' n'|d' nm']] eqn:Hc; try discriminate.
  pose proof (namei_found _ _ _ _ _ Hc) as Hg'.
  cbn [namei] in Hr. rewrite Hg' in Hr.
  destruct n' as [m0 d0|m0 es0]; [discriminate|].
  destruct (can_x m0); [|discriminate].
  destruct (str_eqb nm (py "..")) eqn:E;
    [apply str_eqb_eq in E; congruence|].
  destruct (NAME_MAX <? fs_length nm); [discriminate|].
  destruct (lookup nm es0); [cbn [namei] in Hr|].
  - destruct (get t (l' ++ [nm])); discriminate.
  - injection Hr as <-. congruence.
Qed.

(** ** Resolution in a tree that has changed *)

(** Resolution consults kinds, access bits and the existence of children;
    a path that resolved still resolves, to the same place, in any tree
    that keeps these for all that existed. *)
Lemma namei_found_mono t t' :
  (forall l, sig t l <> None -> sig t' l = sig t l) ->
  forall cs here l n,
    namei t here cs = inr (Found l n) ->
    exists n', namei t' here cs = inr (Found l n').
Proof.
  intros Hsig. induction cs as [|c rest IH]; intros here l n; cbn [namei].
  - destruct (get t here) as [n0|] eqn:Hg; [|discriminate].
    intros [= <- <-].
    assert (Hs : sig t here <> None) by (rewrite sig_none; congruence).
    apply Hsig in Hs as Hs'. rewrite <- Hs' in Hs. rewrite sig_none in Hs.
    destruct (get t' here) as [n'|]; [eauto | congruence].
  - destruct (get t here) as [[m0 d0|m es]|] eqn:Hg; try discriminate.
    assert (Hs : sig t here <> None) by (rewrite sig_none; congruence).
    apply Hsig in Hs. rewrite (sig_dir _ _ _ _ Hg) in Hs.
    apply sig_dir_inv in Hs as [es' Hg']. rewrite Hg'.
    destruct (can_x m); [|discriminate].
    destruct (str_eqb c (py "..")); [apply IH|].
    destruct (NAME_MAX <? fs_length c); [discriminate|].
    destruct (lookup c es) as [ch|] eqn:Hl.
    + assert (Hc : sig t (here ++ [c]) <> None).
      { rewrite sig_none, (get_snoc _ _ c _ _ Hg), Hl. discriminate. }
      apply Hsig in Hc as Hc'. rewrite <- Hc' in Hc.
      rewrite sig_none, (get_snoc _ _ c _ _ Hg') in Hc.
      destruct (lookup c es'); [apply IH | congruence].
    + destruct rest; discriminate.
Qed.

(** A free name stays free or, once taken, is what the path leads to. *)
Lemma namei_missing_mono t t' :
  (forall l, sig t l <> None -> sig t' l = sig t l) ->
  forall cs here d nm,
    namei t here cs = inr (Missing d nm) ->
    namei t' here cs =
    match get t' (d ++ [nm]) with
    | Some n' => inr (Found (d ++ [nm]) n')
    | None => inr (Missing d nm)
    end.
Proof.
  intros Hsig. induction cs as [|c rest IH]; intros here d nm; cbn [namei].
  - destruct (get t here); discriminate.
  - destruct (get t here) as [[m0 d0|m es]|] eqn:Hg; try discriminate.
    assert (Hs : sig t here <> None) by (rewrite sig_none; congruence).
    apply Hsig in Hs. rewrite (sig_dir _ _ _ _ Hg) in Hs.
    apply sig_dir_inv in Hs as [es' Hg']. rewrite Hg'.
    destruct (can_x m); [|discriminate].
    destruct (str_eqb c (py "..")); [apply IH|].
    destruct (NAME_MAX <? fs_length c); [discriminate|].
    destruct (lookup c es) as [ch|] eqn:Hl.
    + assert (Hc : sig t (here ++ [c]) <> None).
      { rewrite sig_none, (get_snoc _ _ c _ _ Hg), Hl. discriminate. }
      apply Hsig in Hc as Hc'. rewrite <- Hc' in Hc.
      rewrite sig_none, (get_snoc _ _ c _ _ Hg') in Hc.
      destruct (lookup c es'); [apply IH | congruence].
    + destruct rest; [|discriminate]. intros [= <- <-].
      rewrite (get_snoc _ _ c _ _ Hg').
      destruct (lookup c es') as [n'|] eqn:Hl'; [|reflexivity].
      cbn [namei]. now rewrite (get_snoc _ _ c _ _ Hg'), Hl'.
Qed.

(** Once the node at [sl] is gone, no path that led to it or below it
    resolves any more. *)
Lemma namei_gone t t' sl :
  (forall l, is_prefix sl l = false -> sig t l <> None ->
             sig t' l = sig t l) ->
  get t' sl = None ->
  forall cs here l n,
    is_prefix sl here = false ->
    namei t here cs = inr (Found l n) ->
    is_prefix sl l = true ->
    (exists d nm, namei t' here cs = inr (Missing d nm))
    \/ namei t' here cs = inl ENOENT.
Proof.
  intros Hsig Hgone. induction cs as [|c rest IH]; intros here l n Hh;
    cbn [namei].
  - destruct (get t here); [|discriminate]. intros [= <- <-]. congruence.
  - destruct (get t here) as [[m0 d0|m es]|] eqn:Hg; try discriminate.
    assert (Hs : sig t here <> None) by (rewrite sig_none; congruence).
    apply (Hsig _ Hh) in Hs. rewrite (sig_dir _ _ _ _ Hg) in Hs.
    apply sig_dir_inv in Hs as [es' Hg']. rewrite Hg'.
    destruct (can_x m); [|discriminate].
    destruct (str_eqb c (py "..")).
    { apply IH. destruct (is_prefix sl (removelast here)) eqn:E; [|reflexivity].
      apply is_prefix_removelast in E. congruence. }
    destruct (NAME_MAX <? fs_length c); [discriminate|].
    destruct (lookup c es) as [ch|] eqn:Hl; [|destruct rest; discriminate].
    destruct (is_prefix sl (here ++ [c])) eqn:Hpre.
    + apply is_prefix_snoc in Hpre as [->|Hpre]; [|congruence].
      rewrite (get_snoc _ _ c _ _ Hg') in Hgone. rewrite Hgone.
      intros _ _. destruct rest; [left; eauto | right; reflexivity].
    + assert (Hc : sig t (here ++ [c]) <> None).
      { rewrite sig_none, (get_snoc _ _ c _ _ Hg), Hl. discriminate. }
      apply (Hsig _ Hpre) in Hc as Hc'. rewrite <- Hc' in Hc.
      rewrite sig_none, (get_snoc _ _ c _ _ Hg') in Hc.
      destruct (lookup c es'); [now apply IH | congruence].
Qed.

Lemma stat_test_enoent f t p :
  usable p = true -> namei t [] (parts p) = inl ENOENT ->
  stat_test f p t = (Ok false, t).
Proof.
  intros Hn Hr. unfold stat_test, catch, os_stat, bind.
  now rewrite (resolve_usable _ _ Hn), Hr.
Qed.

(** A name that was free leads, once a node is stored under it, to that
    node. *)
Lemma leads_to_put_new t p d nm v :
  free_at t p d nm -> leads_to (put t (d ++ [nm]) v) p (d ++ [nm]) v.
Proof.
  intros [Hn Hr]. split; [exact Hn|].
  destruct (namei_missing _ _ _ _ _ Hr) as (m & es & Hg & Hx & Hl & _).
  rewrite (namei_missing_mono t (put t (d ++ [nm]) v)) with (d := d) (nm := nm);
    [|intros l Hs|exact Hr].
  - now rewrite (get_put_same _ _ _ _ _ _ Hg).
  - apply sig_put. destruct (is_prefix (d ++ [nm]) l) eqn:E; [|reflexivity].
    apply is_prefix_spec in E as [l' ->]. exfalso. apply Hs.
    rewrite sig_none, <- app_assoc, get_app, Hg. cbn [app get].
    now rewrite Hl.
Qed.

(** Replacing a node by one of the same kind and access bits, with no
    fewer children, disturbs no resolution. *)
Lemma sig_put_file t l m d d' l' :
  get t l = Some (File m d) ->
  sig (put t l (File m d')) l' = sig t l'.
Proof.
  intros Hg. destruct (is_prefix l l') eqn:E; [|now apply sig_put].
  apply is_prefix_spec in E as [r ->]. unfold sig.
  destruct (loc_dec l []) as [->|Hl].
  - cbn in Hg. apply Some_inj in Hg. subst t. cbn [put app].
    destruct r; reflexivity.
  - destruct (exists_last Hl) as (dd & c & ->).
    assert (Hd : exists m0 es0, get t dd = Some (Dir m0 es0)).
    { rewrite get_app in Hg. destruct (get t dd) as [[?|m0 es0]|];
        try discriminate. eauto. }
    destruct Hd as (m0 & es0 & Hd).
    rewrite (get_put_under _ _ _ _ _ _ _ Hd), get_app, Hg.
    destruct r; reflexivity.
Qed.

Lemma leads_to_put_file t p l m d d' :
  leads_to t p l (File m d) ->
  leads_to (put t l (File m d')) p l (File m d').
Proof.
  intros [Hn Hr]. split; [exact Hn|].
  pose proof (namei_found _ _ _ _ _ Hr) as Hg.
  destruct (namei_found_mono t (put t l (File m d'))) with (1 := fun l' (_ : sig t l' <> None) => sig_put_file t l m d d' l' Hg) (2 := Hr)
    as [n' Hn'].
  rewrite Hn'. pose proof (namei_found _ _ _ _ _ Hn') as Hg'.
  rewrite (get_put_exists _ _ _ _ Hg) in Hg'. congruence.
Qed.

(** ** What the calls do *)

Ltac run H := rewrite (bind_ok _ _ _ _ _ H); cbv beta; cbn [negb].

Lemma isinstance_os_error c files k :
  isinstance (os_error c files) k = issubclass (oserror_class c) k.
Proof. reflexivity. Qed.

(** Decides the class tests on exceptions whose class is known. *)
Ltac classify :=
  rewrite ?isinstance_os_error; cbn [oserror_class];
  repeat match goal with
         | |- context [issubclass ?a ?b] =>
             let v := eval vm_compute in (issubclass a b) in
             change (issubclass a b) with v
         end;
  cbv beta iota; cbn [negb].

Lemma lift_ok {A} (a : A) t : lift (Ok a) t = (Ok a, t).
Proof. reflexivity. Qed.

Lemma guarded_ok E body denied prefix t s t' :
  body t = (Ok s, t') -> guarded E body denied prefix t = (Ok s, t').
Proof. intros H. unfold guarded. now apply catch_ok. Qed.

Lemma guarded_raise E body denied prefix t e t' :
  body t = (Raise e, t') ->
  isinstance e Exception = true ->
  guarded E body denied prefix t =
  (Ok (if isinstance e PermissionError then denied
       else prefix ++ exn_str E e), t').
Proof.
  intros H He. unfold guarded. rewrite (catch_raise _ _ _ _ _ H), He.
  now destruct (isinstance e PermissionError).
Qed.

Lemma os_mkdir_existing t p l n :
  leads_to t p l n -> os_mkdir p t = (Raise (os_error EEXIST [path_str p]), t).
Proof.
  intros H. unfold os_mkdir. run (resolve_found _ _ _ _ H).
  reflexivity.
Qed.

Lemma os_mkdir_free t p d nm :
  free_at t p d nm -> can_w (dir_perms t d) = true ->
  os_mkdir p t = (Ok tt, put t (d ++ [nm]) (Dir dir_mode [])).
Proof.
  intros H Hw. unfold os_mkdir. run (resolve_free _ _ _ _ H).
  unfold bind, get_tree. now rewrite Hw.
Qed.

(** [os.mkdir] either creates an empty directory under a free name or
    raises and leaves the tree alone. *)
Lemma os_mkdir_inv p t r t' :
  os_mkdir p t = (r, t') ->
  (r = Ok tt /\ exists d nm, free_at t p d nm
                             /\ t' = put t (d ++ [nm]) (Dir dir_mode []))
  \/ (exists e, r = Raise e /\ t' = t).
Proof.
  unfold os_mkdir, bind. destruct (resolve p t) as [[tg|e] t0] eqn:Hr.
  - pose proof (resolve_state Hr). subst t0.
    apply resolve_ok_inv in Hr as [Hn Hr]. unfold get_tree.
    destruct tg as [l n|d nm].
    + intros [= <- <-]. right. eauto.
    + destruct (can_w (dir_perms t d)).
      * intros [= <- <-]. left. split; [reflexivity|].
        exists d, nm. split; [split|]; auto.
      * intros [= <- <-]. right. eauto.
  - pose proof (resolve_state Hr). subst t0. intros [= <- <-]. right. eauto.
Qed.

Lemma mkdir_parents_unfold ok r rparts :
  mkdir_parents ok r rparts =
  catch (os_mkdir (mkPath r (rev rparts)))
        (fun e =>
           if isinstance e FileNotFoundError then
             match rparts with
             | [] => raise e
             | _ :: up =>
                 mkdir_parents true r up ;;
                 mkdir_one ok (mkPath r (rev rparts))
             end
           else if isinstance e OSError then
             if negb ok then raise e
             else d <- is_dir (mkPath r (rev rparts)) ;;
                  if d then ret tt else raise e
           else raise e).
Proof. destruct rparts; reflexivity. Qed.

(** [mkdir(parents=True, exist_ok=True)] on a directory that exists does
    nothing. *)
Lemma mkdir_existing t p l m es :
  leads_to t p l (Dir m es) -> mkdir true true p t = (Ok tt, t).
Proof.
  intros H. unfold mkdir. rewrite mkdir_parents_unfold, rev_involutive, path_eta.
  rewrite (catch_raise _ _ _ _ _ (os_mkdir_existing _ _ _ _ H)).
  classify.
  run (is_dir_found _ _ _ _ H). reflexivity.
Qed.

(** After a [mkdir] that returned, the path is a directory. *)
Lemma mkdir_one_post ok p t t' :
  mkdir_one ok p t = (Ok tt, t') -> is_dir p t' = (Ok true, t').
Proof.
  unfold mkdir_one, catch.
  destruct (os_mkdir p t) as [r t0] eqn:Hm.
  destruct (os_mkdir_inv _ _ _ _ Hm) as [[-> (d & nm & Hf & ->)]|(e & -> & ->)].
  - intros [= <-]. apply (is_dir_found _ _ (d ++ [nm]) (Dir dir_mode [])).
    now apply leads_to_put_new.
  - destruct (isinstance e FileNotFoundError); [discriminate|].
    destruct (isinstance e OSError); [|discriminate].
    destruct ok; [|discriminate]. cbn [negb]. unfold bind.
    destruct (is_dir p t) as [[[|]|e'] t1] eqn:Hd; try discriminate.
    pose proof (stat_test_state Hd). subst t1. now intros [= <-].
Qed.

Lemma mkdir_post ok p t t' :
  mkdir true ok p t = (Ok tt, t') -> is_dir p t' = (Ok true, t').
Proof.
  unfold mkdir. rewrite mkdir_parents_unfold, rev_involutive, path_eta.
  unfold catch.
  destruct (os_mkdir p t) as [r t0] eqn:Hm.
  destruct (os_mkdir_inv _ _ _ _ Hm) as [[-> (d & nm & Hf & ->)]|(e & -> & ->)].
  - intros [= <-]. apply (is_dir_found _ _ (d ++ [nm]) (Dir dir_mode [])).
    now apply leads_to_put_new.
  - destruct (isinstance e FileNotFoundError).
    + destruct (rev (parts p)) as [|c up]; [discriminate|].
      unfold bind at 1.
      destruct (mkdir_parents true (root p) up t) as [[[]|e'] t1];
        [|discriminate].
      apply mkdir_one_post.
    + destruct (isinstance e OSError); [|discriminate].
      destruct ok; [|discriminate]. cbn [negb]. unfold bind.
      destruct (is_dir p t) as [[[|]|e'] t1] eqn:Hd; try discriminate.
      pose proof (stat_test_state Hd). subst t1. now intros [= <-].
Qed.

Lemma parent_rootlike p : parts p = [] -> parent p = p.
Proof. destruct p as [r ps]. cbn. now intros ->. Qed.

(** On a path that is a directory, the [mkdir] of its parent that precedes
    every write, move and copy does nothing. *)
Lemma mkdir_parent_of_dir t p l m es :
  leads_to t p l (Dir m es) -> mkdir true true (parent p) t = (Ok tt, t).
Proof.
  intros H. destruct (loc_dec (parts p) []) as [Hp|Hp].
  - rewrite (parent_rootlike _ Hp). exact (mkdir_existing _ _ _ _ _ H).
  - destruct (leads_to_parent _ _ _ _ H Hp) as (l' & m' & es' & H').
    exact (mkdir_existing _ _ _ _ _ H').
Qed.

Lemma open_w_dir t p l m es :
  leads_to t p l (Dir m es) ->
  open_w p t = (Raise (os_error EISDIR [path_str p]), t).
Proof.
  intros H. unfold open_w. run (resolve_found _ _ _ _ H). reflexivity.
Qed.

Lemma open_w_file t p l m d :
  leads_to t p l (File m d) -> can_w m = true ->
  open_w p t = (Ok l, put t l (File m [])).
Proof.
  intros H Hw. unfold open_w. run (resolve_found _ _ _ _ H).
  unfold bind, get_tree. now rewrite Hw.
Qed.

Lemma open_w_file_denied t p l m d :
  leads_to t p l (File m d) -> can_w m = false ->
  open_w p t = (Raise (os_error EACCES [path_str p]), t).
Proof.
  intros H Hw. unfold open_w. run (resolve_found _ _ _ _ H).
  unfold bind, get_tree. now rewrite Hw.
Qed.

Lemma open_w_free t p d nm :
  free_at t p d nm -> can_w (dir_perms t d) = true ->
  open_w p t = (Ok (d ++ [nm]), put t (d ++ [nm]) (File file_mode [])).
Proof.
  intros H Hw. unfold open_w. run (resolve_free _ _ _ _ H).
  unfold bind, get_tree. now rewrite Hw.
Qed.

Lemma set_entry_twice c v v' es :
  set_entry c v' (set_entry c v es) = set_entry c v' es.
Proof.
  induction es as [|[k w] es IH]; cbn [set_entry].
  - now rewrite str_eqb_refl.
  - destruct (str_eqb k c) eqn:Hk; cbn [set_entry].
    + now rewrite str_eqb_refl.
    + now rewrite Hk, IH.
Qed.

(** Of two stores at one place the second one stays. *)
Lemma put_twice t l v v' : put (put t l v) l v' = put t l v'.
Proof.
  revert t. induction l as [|c l IH]; intros t; [reflexivity|].
  destruct t as [m d|m es]; [reflexivity|].
  destruct l as [|c2 l].
  - cbn [put]. now rewrite set_entry_twice.
  - destruct (lookup c es) as [ch|] eqn:Hl.
    + rewrite (put_cons m es c (c2 :: l) v ch) by (auto; discriminate).
      rewrite (put_cons m _ c (c2 :: l) v' (put ch (c2 :: l) v))
        by (try apply lookup_set_entry_same; discriminate).
      rewrite (put_cons m es c (c2 :: l) v' ch) by (auto; discriminate).
      now rewrite set_entry_twice, IH.
    + cbn [put]. rewrite Hl. cbn [put]. now rewrite Hl.
Qed.

(** Writing text into an existing file that may be written. *)
Lemma write_text_file t p l m d s bs :
  leads_to t p l (File m d) -> can_w m = true ->
  utf8_encode s = Some bs ->
  write_text p s t = (Ok tt, put t l (File m bs)).
Proof.
  intros H Hw He. unfold write_text. run (open_w_file _ _ _ _ _ H Hw).
  rewrite He. unfold write_data, bind, get_tree, set_tree.
  pose proof (namei_found _ _ _ _ _ (proj2 H)) as Hg.
  rewrite (get_put_exists _ _ _ _ Hg). now rewrite put_twice.
Qed.

(** Reading the text of a file that may be read. *)
Lemma read_text_file t p l m bs s :
  leads_to t p l (File m bs) -> can_r m = true ->
  utf8_decode bs = Some s ->
  read_text p t = (Ok (universal_newlines s), t).
Proof.
  intros H Hr Hd. unfold read_text, read_bytes, bind.
  rewrite (resolve_found _ _ _ _ H), Hr. unfold ret. now rewrite Hd.
Qed.

Lemma read_text_denied t p l m bs :
  leads_to t p l (File m bs) -> can_r m = false ->
  read_text p t = (Raise (os_error EACCES [path_str p]), t).
Proof.
  intros H Hr. unfold read_text, read_bytes, bind.
  now rewrite (resolve_found _ _ _ _ H), Hr.
Qed.

(** A write that returned has left, at the path, a regular file holding
    the encoding of the text. *)
Lemma write_text_inv p s t t' :
  write_text p s t = (Ok tt, t') ->
  exists l m bs, utf8_encode s = Some bs /\ leads_to t' p l (File m bs).
Proof.
  unfold write_text, bind at 1.
  destruct (open_w p t) as [[l|e] t0] eqn:Ho; [|discriminate].
  destruct (utf8_encode s) as [bs|] eqn:He; [|discriminate].
  revert Ho. unfold open_w, bind at 1.
  destruct (resolve p t) as [[tg|e] t1] eqn:Hr; [|discriminate].
  pose proof (resolve_state Hr). subst t1.
  apply resolve_ok_inv in Hr as [Hn Hr]. unfold bind, get_tree, set_tree.
  destruct tg as [l0 [m d|m es]|d nm]; try discriminate.
  - destruct (can_w m); [|discriminate]. intros [= <- <-].
    pose proof (namei_found _ _ _ _ _ Hr) as Hg.
    unfold write_data, bind, get_tree, set_tree.
    rewrite (get_put_exists _ _ _ _ Hg), put_twice. intros [= <-].
    exists l0, m, bs. split; [reflexivity|].
    apply (leads_to_put_file t p l0 m d bs). now split.
  - destruct (can_w (dir_perms t d)); [|discriminate]. intros [= <- <-].
    destruct (namei_missing _ _ _ _ _ Hr) as (m & es & Hg & _).
    unfold write_data, bind, get_tree, set_tree.
    rewrite (get_put_same _ _ _ _ _ _ Hg), put_twice. intros [= <-].
    exists (d ++ [nm]), file_mode, bs. split; [reflexivity|].
    apply leads_to_put_new. now split.
Qed.

Lemma universal_newlines_id s :
  forallb (fun c => negb (c =? 13)%N) s = true -> universal_newlines s = s.
Proof.
  induction s as [|c s IH]; [reflexivity|]. cbn [forallb universal_newlines].
  intros H. apply andb_prop in H as [Hc Hs].
  destruct (c =? 13)%N; [discriminate|]. now rewrite IH.
Qed.

(** The answers of a tool are told apart by their first character. *)
Lemma first_char_differs a b x y :
  hd 0%N (py a) <> hd 0%N (py b) -> py a <> [] -> py b <> [] ->
  py a ++ x <> py b ++ y.
Proof.
  intros H Ha Hb E. apply H.
  destruct (py a) as [|ca ta]; [congruence|].
  destruct (py b) as [|cb tb]; [congruence|].
  now injection E.
Qed.

Lemma ok_inj {A} (a b : A) (t t' : node) :
  (Ok a, t) = (Ok b, t') -> a = b /\ t = t'.
Proof. intros H. split; congruence. Qed.

(** ** The examples of the specification, run *)

(** On ["a-b-c"], replacing ["b"] by ["X"] gives ["a-X-c"]; the same edit
    applied again is refused and changes nothing. *)
Example edit_file_a_b_c E :
  let edited := put sample_tree [py "notes"]
                    (File file_mode [x61; x2d; x58; x2d; x63]) in
  EditFileTool.execute E (py "/notes") (py "b") (py "X") sample_tree
  = (Ok (py "Successfully edited /notes"), edited)
  /\ EditFileTool.execute E (py "/notes") (py "b") (py "X") edited
     = (Ok (py "Error: old_text not found in file. Make sure it matches exactly."),
        edited).
Proof. split; reflexivity. Qed.

(** On ["foo foo"] the edit of ["foo"] is refused with a warning and the
    tree stays as it is. *)
Example edit_file_foo_foo E :
  let t := Dir dir_mode
               [(py "f", File file_mode [x66; x6f; x6f; x20; x66; x6f; x6f])] in
  EditFileTool.execute E (py "f") (py "foo") (py "bar") t
  = (Ok (py "Warning: old_text appears 2 times. Please provide more context to make it unique."),
     t).
Proof. reflexivity. Qed.

(** X1.  Whenever [str.count] finds more than one occurrence, the edit is
    refused with the warning and nothing is written. *)
Lemma edit_file_ambiguous E path old_text new_text fp t l m bs text :
  expanduser E (parse_path path) = Ok fp ->
  leads_to t fp l (File m bs) -> can_r m = true ->
  utf8_decode bs = Some text ->
  1 < count (universal_newlines text) old_text ->
  EditFileTool.execute E path old_text new_text t
  = (Ok (py "Warning: old_text appears "
         ++ str_of_nat (count (universal_newlines text) old_text)
         ++ py " times. Please provide more context to make it unique."),
     t).
Proof.
  intros Hfp Hl Hr Hd Hc. unfold EditFileTool.execute. apply guarded_ok.
  rewrite Hfp. run (lift_ok fp t). run (path_exists_found _ _ _ _ Hl).
  run (read_text_file _ _ _ _ _ _ Hl Hr Hd).
  assert (Hin : contains old_text (universal_newlines text) = true).
  { destruct (contains old_text (universal_newlines text)) eqn:Hin;
      [reflexivity|].
    apply (contains_occurrences _ _ 0) in Hin.
    pose proof (count_le_occurrences (universal_newlines text) old_text) as Hle.
    unfold occurrences in Hle. rewrite Hin in Hle. cbn in Hle. lia. }
  rewrite Hin. cbn [negb]. apply Nat.ltb_lt in Hc. now rewrite Hc.
Qed.

(** [create_dir] twice on a fresh path: created, then already there. *)
Example create_dir_twice E :
  let made := put (put sample_tree [py "n"] (Dir dir_mode []))
                  [py "n"; py "m"] (Dir dir_mode []) in
  CreateDirTool.execute E (py "/n/m") sample_tree
  = (Ok (py "Successfully created directory: /n/m"), made)
  /\ CreateDirTool.execute E (py "/n/m") made
     = (Ok (py "Directory already exists: /n/m"), made).
Proof. split; reflexivity. Qed.

(** [rename_file] onto a name that is taken: an error, and the file stays
    where it was. *)
Example rename_file_target_taken E :
  RenameFileTool.execute E (py "/notes") (py "d") sample_tree
  = (Ok (py "Error: Target already exists: /d"), sample_tree)
  /\ RenameFileTool.execute E (py "/notes") (py "x/y") sample_tree
     = (Ok (py "Error: new_name should be just a name, not a path"),
        sample_tree).
Proof. split; reflexivity. Qed.

(** [move_file] with a directory as destination: the source lands in it
    under its own name and is gone from where it was. *)
Example move_file_into_directory E :
  MoveFileTool.execute E (py "/notes") (py "/d") sample_tree
  = (Ok (py "Successfully moved /notes to /d"),
     Dir dir_mode
         [ (py "a", Dir dir_mode [ (py "f", File file_mode []) ]);
           (py "d", Dir dir_mode
                        [ (py "notes",
                           File file_mode [x61; x2d; x62; x2d; x63]) ]) ]).
Proof. reflexivity. Qed.

(** [copy_file] of a directory to a destination whose parent is missing:
    the parent is made and the subtree is duplicated. *)
Example copy_file_makes_parents E :
  CopyFileTool.execute
    (mkEnv (os_expanduser E) (exn_str E) 1000) (py "/a") (py "/e/x")
    sample_tree
  = (Ok (py "Successfully copied /a to /e/x"),
     Dir dir_mode
         [ (py "a", Dir dir_mode [ (py "f", File file_mode []) ]);
           (py "d", Dir dir_mode []);
           (py "notes", File file_mode [x61; x2d; x62; x2d; x63]);
           (py "e", Dir dir_mode
                        [ (py "x", Dir dir_mode
                                       [ (py "f", File file_mode []) ]) ]) ]).
Proof. reflexivity. Qed.

(** [list_dir] sorts the entries by name and marks directories. *)
Example list_dir_root E :
  ListDirTool.execute E (py "/") sample_tree
  = (Ok (ListDirTool.dir_marker ++ py "a" ++ [10%N]
         ++ ListDirTool.dir_marker ++ py "d" ++ [10%N]
         ++ ListDirTool.file_marker ++ py "notes"), sample_tree).
Proof. reflexivity. Qed.

(** For a content made of ASCII characters the count that [write_file]
    reports is the number of bytes written. *)
Lemma utf8_encode_ascii s :
  forallb (fun c => (c <? 0x80)%N) s = true ->
  option_map (@length byte) (utf8_encode s) = Some (len s).
Proof.
  induction s as [|c s IH]; [reflexivity|]. cbn [forallb utf8_encode].
  intros H. apply andb_prop in H as [Hc Hs]. specialize (IH Hs).
  unfold utf8_encode_cp. rewrite Hc.
  destruct (utf8_encode s) as [bs|]; [|discriminate].
  cbn [option_map] in IH |- *. apply Some_inj in IH.
  unfold len in *. cbn [app length]. now rewrite IH.
Qed.

(** ** Components of parsed paths *)

Lemma split_sep_plain s :
  existsb (N.eqb sep) s = false -> split_sep s = [s].
Proof.
  induction s as [|c s IH]; [reflexivity|]. cbn [existsb split_sep].
  intros H. apply orb_false_iff in H as [Hc Hs].
  rewrite N.eqb_sym, Hc, (IH Hs). reflexivity.
Qed.

Lemma split_sep_no_sep s :
  forallb (fun w => negb (existsb (N.eqb sep) w)) (split_sep s) = true.
Proof.
  induction s as [|c s IH]; [reflexivity|]. cbn [split_sep].
  destruct (c =? sep)%N eqn:Hc; [exact IH|].
  destruct (split_sep s) as [|w ws]; cbn [forallb existsb] in *.
  - now rewrite N.eqb_sym, Hc.
  - now rewrite N.eqb_sym, Hc.
Qed.

Lemma clean_parse s : clean (parse_path s) = true.
Proof.
  unfold clean, parse_path. destruct (splitroot s) as [r rest].
  cbn [parts]. pose proof (split_sep_no_sep rest) as H.
  induction (split_sep rest) as [|w ws IH]; [reflexivity|].
  cbn [forallb filter] in *. apply andb_prop in H as [Hw Hws].
  destruct (is_component w) eqn:Hc; [|now apply IH].
  cbn [forallb]. unfold plain_name at 1. rewrite Hc, Hw. now apply IH.
Qed.

Lemma clean_expanduser E p q :
  clean p = true -> expanduser E p = Ok q -> clean q = true.
Proof.
  unfold expanduser. intros Hp.
  destruct (root p); [|now intros [= <-]].
  destruct (parts p) as [|first rest] eqn:Hparts; [now intros [= <-]|].
  destruct (startswith (py "~") first); [|now intros [= <-]].
  destruct (startswith (py "~") _); [discriminate|]. intros [= <-].
  unfold clean in *. cbn [parts]. rewrite forallb_app.
  rewrite Hparts in Hp. cbn [forallb] in Hp. apply andb_prop in Hp as [_ Hr].
  rewrite Hr, andb_true_r. apply clean_parse.
Qed.

(** A plain name parses to the path made of that one component. *)
Lemma parse_plain c : plain_name c = true -> parse_path c = mkPath [] [c].
Proof.
  unfold plain_name, parse_path. intros H. apply andb_prop in H as [Hc Hs].
  apply negb_true_iff in Hs.
  assert (Hroot : splitroot c = ([], c)).
  { destruct c as [|x c]; [reflexivity|]. cbn [splitroot].
    cbn [existsb] in Hs. apply orb_false_iff in Hs as [Hx _].
    now rewrite N.eqb_sym, Hx. }
  rewrite Hroot, (split_sep_plain _ Hs). cbn [filter]. now rewrite Hc.
Qed.

Lemma joinpath_plain p c :
  plain_name c = true -> joinpath p c = mkPath (root p) (parts p ++ [c]).
Proof. intros H. unfold joinpath. now rewrite (parse_plain _ H). Qed.

Lemma clean_last p :
  clean p = true -> parts p <> [] -> plain_name (path_name p) = true.
Proof.
  unfold clean, path_name. intros H Hne.
  destruct (exists_last Hne) as (cs & c & Hp). rewrite Hp in *.
  rewrite forallb_app in H. apply andb_prop in H as [_ H].
  cbn [forallb] in H. rewrite last_last. now rewrite andb_true_r in H.
Qed.

Lemma parts_split p :
  parts p <> [] -> parts p = parts (parent p) ++ [path_name p].
Proof.
  intros Hne. unfold parent, path_name. cbn [parts].
  now apply app_removelast_last.
Qed.

(** One step of resolution from a directory that can be searched. *)
Lemma namei_single t d m es nm :
  get t d = Some (Dir m es) -> can_x m = true ->
  namei t d [nm] =
  if str_eqb nm (py "..") then
    match get t (removelast d) with
    | Some n => inr (Found (removelast d) n)
    | None => inl ENOENT
    end
  else if NAME_MAX <? fs_length nm then inl ENAMETOOLONG
  else match lookup nm es with
       | Some ch => inr (Found (d ++ [nm]) ch)
       | None => inr (Missing d nm)
       end.
Proof.
  intros Hg Hx. cbn [namei]. rewrite Hg, Hx.
  destruct (str_eqb nm (py "..")); [reflexivity|].
  destruct (NAME_MAX <? fs_length nm); [reflexivity|].
  destruct (lookup nm es) eqn:Hl; [|reflexivity].
  now rewrite (get_snoc _ _ nm _ _ Hg), Hl.
Qed.

Lemma get_removelast t d n :
  get t d = Some n -> exists n', get t (removelast d) = Some n'.
Proof.
  destruct (loc_dec d []) as [->|Hd]; [eauto|].
  destruct (exists_last Hd) as (d' & c & ->). rewrite removelast_last.
  rewrite get_app. destruct (get t d'); [eauto | discriminate].
Qed.

(** A path that ends in an ordinary name and resolves: its parent is a
    directory that can be searched and holds the node under that name. *)
Lemma leads_to_split t p sl sn :
  leads_to t p sl sn -> ends_in_name p = true ->
  exists d m es,
    leads_to t (parent p) d (Dir m es) /\ can_x m = true
    /\ sl = d ++ [path_name p] /\ lookup (path_name p) es = Some sn.
Proof.
  intros H He. unfold ends_in_name in He.
  destruct (parts p) as [|c0 cs0] eqn:Hparts; [discriminate|].
  assert (Hne : parts p <> []) by congruence.
  destruct (leads_to_parent _ _ _ _ H Hne) as (d & m & es & Hpar).
  exists d, m, es. split; [exact Hpar|].
  destruct H as [_ Hr]. rewrite (parts_split _ Hne) in Hr.
  rewrite namei_app in Hr by discriminate.
  destruct Hpar as [Hn Hrp]. rewrite Hrp in Hr.
  pose proof (namei_found _ _ _ _ _ Hrp) as Hg.
  cbn [namei] in Hr. rewrite Hg in Hr.
  destruct (can_x m); [|discriminate]. split; [reflexivity|].
  apply negb_true_iff in He. rewrite He in Hr.
  destruct (NAME_MAX <? fs_length (path_name p)); [discriminate|].
  destruct (lookup (path_name p) es) as [ch|] eqn:Hl; [|discriminate].
  cbn [namei] in Hr. rewrite (get_snoc _ _ _ _ _ Hg), Hl in Hr.
  injection Hr as <- <-. auto.
Qed.

(** ** Renaming *)

Lemma free_ends_in_name t p d nm : free_at t p d nm -> ends_in_name p = true.
Proof.
  intros [_ Hr].
  destruct (namei_missing _ _ _ _ _ Hr) as (m & es & _ & _ & _ & Hdd & cs & Hcs).
  unfold ends_in_name, path_name. rewrite Hcs, last_last.
  destruct (cs ++ [nm]) eqn:E; [now destruct cs|].
  apply negb_true_iff, str_eqb_neq. exact Hdd.
Qed.

Lemma is_prefix_snoc_false a d nm :
  is_prefix a (d ++ [nm]) = false -> is_prefix a d = false.
Proof.
  intros H. destruct (is_prefix a d) eqn:E; [|reflexivity].
  apply is_prefix_spec in E as [l ->].
  rewrite <- app_assoc, is_prefix_app in H. discriminate.
Qed.

Lemma loc_eqb_neq a b : a <> b -> loc_eqb a b = false.
Proof.
  intros H. destruct (loc_eqb a b) eqn:E; [|reflexivity].
  apply loc_eqb_eq in E. congruence.
Qed.

(** [os.rename] onto a free name: the node is detached and stored under
    the new name. *)
Lemma os_rename_free t src dst sl sn d nm :
  leads_to t src sl sn -> ends_in_name src = true ->
  free_at t dst d nm ->
  is_prefix sl (d ++ [nm]) = false ->
  can_w (dir_perms t (removelast sl)) = true ->
  can_w (dir_perms t d) = true ->
  (is_dir_node sn = true -> removelast sl <> d -> can_w (mode_of sn) = true) ->
  os_rename src dst t = (Ok tt, put (remove t sl) (d ++ [nm]) sn).
Proof.
  intros Hs Hes Hd Hpre Hws Hwd Hwn. unfold os_rename.
  run (resolve_found _ _ _ _ Hs). run (resolve_free _ _ _ _ Hd).
  unfold bind, get_tree. rewrite Hes, (free_ends_in_name _ _ _ _ Hd).
  cbn [negb orb]. rewrite Hpre, removelast_last, Hws, Hwd.
  rewrite loc_eqb_neq by (intros ->; now rewrite is_prefix_refl in Hpre).
  cbn [andb negb].
  assert (Hc : is_dir_node sn && negb (loc_eqb (removelast sl) d)
               && negb (can_w (mode_of sn)) = false).
  { destruct (is_dir_node sn) eqn:Hk; [|reflexivity].
    destruct (loc_eqb (removelast sl) d) eqn:Hq; [reflexivity|].
    rewrite Hwn; [reflexivity|reflexivity|].
    intros E. apply loc_eqb_eq in E. congruence. }
  rewrite Hc. reflexivity.
Qed.

(** After the move the node is where it was sent. *)
Lemma moved_there t sl d nm sn m es :
  get t d = Some (Dir m es) -> is_prefix sl (d ++ [nm]) = false ->
  get (put (remove t sl) (d ++ [nm]) sn) (d ++ [nm]) = Some sn.
Proof.
  intros Hg Hpre. apply is_prefix_snoc_false in Hpre.
  pose proof (sig_remove t sl d Hpre) as Hs.
  rewrite (sig_dir _ _ _ _ Hg) in Hs. apply sig_dir_inv in Hs as [es' Hg'].
  exact (get_put_same _ _ _ _ _ _ Hg').
Qed.

(** After the move the path that led to the node names nothing. *)
Lemma moved_gone t p sl sn dl :
  leads_to t p sl sn -> sl <> [] ->
  get t dl = None -> is_prefix sl dl = false ->
  path_exists p (put (remove t sl) dl sn)
  = (Ok false, put (remove t sl) dl sn).
Proof.
  intros [Hn Hr] Hne Hfree Hpre. set (t' := put (remove t sl) dl sn).
  assert (Hdl : forall l, is_prefix dl l = true -> get t l = None).
  { intros l Hl. apply is_prefix_spec in Hl as [r ->].
    now rewrite get_app, Hfree. }
  assert (Hsig : forall l, is_prefix sl l = false -> sig t l <> None ->
                           sig t' l = sig t l).
  { intros l Hl Hs. destruct (is_prefix dl l) eqn:E.
    - apply Hdl in E. rewrite <- sig_none in E. congruence.
    - unfold t'. now rewrite sig_put, sig_remove. }
  assert (Hgone : get t' sl = None).
  { unfold t'. rewrite get_put_other; [| |exact Hpre].
    - rewrite <- (app_nil_r sl) at 2. now apply get_remove_under.
    - destruct (is_prefix dl sl) eqn:E; [|reflexivity].
      apply Hdl in E. rewrite (namei_found _ _ _ _ _ Hr) in E. discriminate. }
  assert (Hroot : is_prefix sl [] = false)
    by (destruct sl; [congruence | reflexivity]).
  destruct (namei_gone t t' sl Hsig Hgone (parts p) [] sl sn Hroot Hr
              (is_prefix_refl sl)) as [(d & nm & Hm)|He].
  - apply (path_exists_free _ _ d nm). now split.
  - now apply stat_test_enoent.
Qed.

(** ** [rename_file] *)

Lemma contains_single (c : codepoint) (s : str) : contains [c] s = existsb (N.eqb c) s.
Proof.
  induction s as [|x s IH]; [reflexivity|].
  cbn [contains startswith existsb]. rewrite IH.
  destruct s; now rewrite andb_true_r.
Qed.

Lemma has_separator_false (nm : str) :
  RenameFileTool.has_separator nm = false -> existsb (N.eqb sep) nm = false.
Proof.
  unfold RenameFileTool.has_separator. intros H.
  apply orb_false_iff in H as [H _]. now rewrite <- contains_single.
Qed.

(** Below a directory that can be searched, a name that has no separator,
    no NUL and nothing [os.fsencode] refuses, and that does not exist, is
    free. *)
Lemma free_below t par d m es (nm : str) :
  leads_to t par d (Dir m es) -> can_x m = true ->
  existsb (N.eqb sep) nm = false ->
  fs_encodable nm = true -> existsb (N.eqb 0) nm = false ->
  path_exists (joinpath par nm) t = (Ok false, t) ->
  plain_name nm = true
  /\ lookup nm es = None
  /\ free_at t (mkPath (root par) (parts par ++ [nm])) d nm.
Proof.
  intros Hpar Hx Hsep Henc Hnul Hfalse.
  pose proof (namei_found _ _ _ _ _ (proj2 Hpar)) as Hg.
  assert (Hplain : plain_name nm = true).
  { unfold plain_name. rewrite Hsep, andb_true_r.
    destruct (is_component nm) eqn:Hc; [reflexivity|]. exfalso.
    assert (Hj : joinpath par nm = par).
    { unfold joinpath, parse_path.
      assert (Hroot : splitroot nm = ([], nm)).
      { destruct nm as [|x nm]; [reflexivity|]. cbn [splitroot].
        cbn [existsb] in Hsep. apply orb_false_iff in Hsep as [Hx0 _].
        now rewrite N.eqb_sym, Hx0. }
      rewrite Hroot, (split_sep_plain _ Hsep). cbn [filter root parts].
      rewrite Hc, app_nil_r. apply path_eta. }
    rewrite Hj, (path_exists_found _ _ _ _ Hpar) in Hfalse. discriminate. }
  rewrite (joinpath_plain _ _ Hplain) in Hfalse.
  assert (Hnn : usable (mkPath (root par) (parts par ++ [nm])) = true).
  { apply (stat_test_false_usable _ _ _ _ Hfalse).
    apply fs_argument_snoc; [|exact Henc|exact Hnul]. rewrite path_eta.
    apply usable_inv, Hpar. }
  assert (Hr : namei t [] (parts par ++ [nm]) = namei t d [nm]).
  { rewrite namei_app by discriminate. now rewrite (proj2 Hpar). }
  rewrite (namei_single _ _ _ _ nm Hg Hx) in Hr.
  destruct (str_eqb nm (py "..")).
  { exfalso. destruct (get_removelast _ _ _ Hg) as [n' Hn']. rewrite Hn' in Hr.
    rewrite (path_exists_found _ _ (removelast d) n') in Hfalse;
      [discriminate | now split]. }
  destruct (NAME_MAX <? fs_length nm).
  { exfalso. revert Hfalse. unfold path_exists, stat_test, catch, os_stat, bind.
    rewrite (resolve_usable _ _ Hnn). cbn [parts]. rewrite Hr. discriminate. }
  destruct (lookup nm es) as [ch|].
  { exfalso.
    rewrite (path_exists_found _ _ (d ++ [nm]) ch) in Hfalse;
      [discriminate | now split]. }
  repeat split; auto.
Qed.

Lemma is_prefix_siblings (d : loc) (a b : str) :
  a <> b -> is_prefix (d ++ [a]) (d ++ [b]) = false.
Proof.
  intros Hne. destruct (is_prefix (d ++ [a]) (d ++ [b])) eqn:E; [|reflexivity].
  apply is_prefix_spec in E as [l E]. rewrite <- app_assoc in E.
  apply app_inv_head in E. injection E as E _. congruence.
Qed.
(** Whatever else happens, a call that gets past neither test answers with
    an error and leaves the tree alone. *)
Lemma rename_file_refused E old_path new_name t :
  (RenameFileTool.has_separator new_name = true
   \/ exists fp, expanduser E (parse_path old_path) = Ok fp
                 /\ path_exists (joinpath (parent fp) new_name) t
                    = (Ok true, t)) ->
  exists s, RenameFileTool.execute E old_path new_name t = (Ok s, t)
            /\ startswith (py "Error") s = true.
Proof.
  intros Hcase. unfold RenameFileTool.execute.
  destruct (expanduser E (parse_path old_path)) as [fp|e] eqn:Hfp.
  - destruct (path_exists fp t) as [[x|e] t0] eqn:Hx;
      pose proof (stat_test_state Hx); subst t0.
    + destruct x.
      * destruct (RenameFileTool.has_separator new_name) eqn:Hs.
        { eexists. split; [apply guarded_ok; run (lift_ok fp t); run Hx;
                           reflexivity | reflexivity]. }
        destruct Hcase as [?|(fp' & [= <-] & Hy)]; [discriminate|].
        eexists. split; [apply guarded_ok; run (lift_ok fp t); run Hx;
                         run Hy; reflexivity | reflexivity].
      * eexists. split; [apply guarded_ok; run (lift_ok fp t); run Hx;
                         reflexivity | reflexivity].
    + eexists. split.
      * apply guarded_raise; [run (lift_ok fp t); exact (bind_raise _ _ _ _ _ Hx)|].
        exact (safe_path_exists _ _ _ _ Hx).
      * now destruct (isinstance e PermissionError).
  - eexists. split.
    + apply guarded_raise; [reflexivity|].
      exact (safe_lift_expanduser E (parse_path old_path) t e t
               (f_equal (fun r => (r, t)) Hfp)).
    + now destruct (isinstance e PermissionError).
Qed.

(** ** [move_file] and [copy_file]: the destination *)

Lemma quiet_test_free f t p d nm :
  free_at t p d nm -> quiet_test f p t = (Ok false, t).
Proof.
  intros H. unfold quiet_test, catch, os_stat, bind.
  rewrite (resolve_free _ _ _ _ H). reflexivity.
Qed.

Lemma quiet_test_found f t p l n :
  leads_to t p l n -> quiet_test f p t = (Ok (f n), t).
Proof.
  intros H. unfold quiet_test. apply catch_ok.
  now run (os_stat_found _ _ _ _ H).
Qed.

(** The source has no component, and the destination stays as given, or
    the name of the source is appended to the destination. *)
Lemma target_cases sp dp :
  clean sp = true ->
  (parts sp = [] /\ joinpath dp (path_name sp) = dp)
  \/ (parts sp <> [] /\ plain_name (path_name sp) = true
      /\ joinpath dp (path_name sp)
         = mkPath (root dp) (parts dp ++ [path_name sp])).
Proof.
  intros Hc. destruct (loc_dec (parts sp) []) as [Hp|Hp].
  - left. split; [exact Hp|]. unfold path_name. rewrite Hp.
    unfold joinpath. cbn. rewrite app_nil_r. apply path_eta.
  - right. pose proof (clean_last _ Hc Hp) as Hn.
    split; [exact Hp|]. split; [exact Hn|]. now apply joinpath_plain.
Qed.

Lemma parent_child r cs c : parent (mkPath r (cs ++ [c])) = mkPath r cs.
Proof. unfold parent. cbn [root parts]. now rewrite removelast_last. Qed.

(** The [mkdir] of the parent of the resolved destination does nothing
    when the destination is a directory. *)
Lemma mkdir_parent_target t sp dp dl dm des :
  leads_to t dp dl (Dir dm des) -> clean sp = true ->
  mkdir true true (parent (joinpath dp (path_name sp))) t = (Ok tt, t).
Proof.
  intros Hd Hc. destruct (target_cases sp dp Hc) as [[_ ->]|(_ & _ & ->)].
  - exact (mkdir_parent_of_dir _ _ _ _ _ Hd).
  - rewrite parent_child, path_eta. exact (mkdir_existing _ _ _ _ _ Hd).
Qed.

(** When the destination is a directory that can be searched and nothing
    exists in it under the name of the source, that name is free there and
    the source ends in an ordinary name. *)
Lemma target_free t sp sl sn dp dl dm des :
  clean sp = true ->
  leads_to t sp sl sn -> leads_to t dp dl (Dir dm des) -> can_x dm = true ->
  path_exists (joinpath dp (path_name sp)) t = (Ok false, t) ->
  ends_in_name sp = true
  /\ joinpath dp (path_name sp) = mkPath (root dp) (parts dp ++ [path_name sp])
  /\ lookup (path_name sp) des = None
  /\ free_at t (joinpath dp (path_name sp)) dl (path_name sp).
Proof.
  intros Hc Hs Hd Hx Hfalse.
  destruct (target_cases sp dp Hc) as [[_ Hj]|(Hne & Hplain & Hj)].
  { rewrite Hj, (path_exists_found _ _ _ _ Hd) in Hfalse. discriminate. }
  assert (Hsep : existsb (N.eqb sep) (path_name sp) = false).
  { unfold plain_name in Hplain. apply andb_prop in Hplain as [_ H].
    now apply negb_true_iff in H. }
  destruct (fs_argument_last _ (proj1 (usable_inv _ (proj1 Hs))))
    as [Henc Hnul].
  destruct (free_below _ _ _ _ _ (path_name sp) Hd Hx Hsep
              Henc Hnul Hfalse) as (_ & Hnone & Hfr).
  rewrite Hj. repeat split; try assumption; try apply Hfr.
  destruct (namei_missing _ _ _ _ _ (proj2 Hfr)) as (_ & _ & _ & _ & _ & Hdd & _).
  unfold ends_in_name. destruct (parts sp); [congruence|].
  now apply negb_true_iff, str_eqb_neq.
Qed.

(** [shutil.move] onto a free name, when the system renames. *)
Lemma shutil_move_free E t src dst d nm t' :
  free_at t dst d nm ->
  os_rename src dst t = (Ok tt, t') ->
  shutil_move E src dst t = (Ok tt, t').
Proof.
  intros Hd Hr. unfold shutil_move.
  run (quiet_test_free is_dir_node _ _ _ _ Hd).
  unfold bind at 1. unfold ret at 1. cbn [andb].
  unfold bind at 1. unfold ret at 1. cbv beta iota.
  now apply catch_ok.
Qed.

(** ** Copying a tree *)

(** A path that resolved keeps resolving, to the same node, when a node
    is stored at a place that was free and lies outside the target. *)
Lemma leads_to_put_frame t p l n dl v :
  leads_to t p l n -> get t dl = None -> is_prefix l dl = false ->
  leads_to (put t dl v) p l n.
Proof.
  intros [Hn Hr] Hfree Hpre. split; [exact Hn|].
  pose proof (namei_found _ _ _ _ _ Hr) as Hg.
  assert (Hdl : forall l', is_prefix dl l' = true -> get t l' = None).
  { intros l' Hl. apply is_prefix_spec in Hl as [r ->].
    now rewrite get_app, Hfree. }
  destruct (namei_found_mono t (put t dl v)) with (cs := parts p) (here := @nil str) (l := l) (n := n)
    as [n' Hn']; [|exact Hr|].
  - intros l' Hs. apply sig_put. destruct (is_prefix dl l') eqn:E; [|reflexivity].
    apply Hdl in E. rewrite <- sig_none in E. congruence.
  - rewrite Hn'. pose proof (namei_found _ _ _ _ _ Hn') as Hg'.
    rewrite get_put_other in Hg'; [congruence| |exact Hpre].
    destruct (is_prefix dl l) eqn:E; [|reflexivity].
    apply Hdl in E. congruence.
Qed.

Lemma valid_name_facts c :
  valid_name c = true ->
  str_eqb c (py "..") = false /\ (NAME_MAX <? fs_length c) = false.
Proof.
  unfold valid_name. intros H. apply andb_prop in H as [H Hlen].
  apply andb_prop in H as [H _]. apply andb_prop in H as [H _].
  apply andb_prop in H as [_ Hd]. apply negb_true_iff in Hd.
  split; [exact Hd|]. apply Nat.leb_le in Hlen. apply Nat.ltb_ge. exact Hlen.
Qed.

Lemma fits_usable p n : fits p n = true -> usable p = true.
Proof. destruct n; cbn [fits]; intros H; now apply andb_prop in H as [H _]. Qed.

Lemma fits_dir p m es :
  fits p (Dir m es) = true ->
  forallb (fun kv => fits (child p (fst kv)) (snd kv)) es = true.
Proof. cbn [fits]. intros H. now apply andb_prop in H as [_ H]. Qed.

(** Resolution of an entry of a directory that resolves. *)
Lemma leads_to_child t p l m es c ch :
  leads_to t p l (Dir m es) -> can_x m = true -> valid_name c = true ->
  usable (child p c) = true ->
  lookup c es = Some ch -> leads_to t (child p c) (l ++ [c]) ch.
Proof.
  intros [Hn Hr] Hx Hv Hu Hl. destruct (valid_name_facts _ Hv) as [Hdd Hlen].
  split; [exact Hu|].
  unfold child. cbn [parts]. rewrite namei_app by discriminate. rewrite Hr.
  rewrite (namei_single _ _ _ _ c (namei_found _ _ _ _ _ Hr) Hx).
  now rewrite Hdd, Hlen, Hl.
Qed.

Lemma free_child t p l m es c :
  leads_to t p l (Dir m es) -> can_x m = true -> valid_name c = true ->
  usable (child p c) = true ->
  lookup c es = None -> free_at t (child p c) l c.
Proof.
  intros [Hn Hr] Hx Hv Hu Hl. destruct (valid_name_facts _ Hv) as [Hdd Hlen].
  split; [exact Hu|].
  unfold child. cbn [parts]. rewrite namei_app by discriminate. rewrite Hr.
  rewrite (namei_single _ _ _ _ c (namei_found _ _ _ _ _ Hr) Hx).
  now rewrite Hdd, Hlen, Hl.
Qed.

Lemma free_at_get t p d nm : free_at t p d nm -> get t (d ++ [nm]) = None.
Proof.
  intros [_ Hr].
  destruct (namei_missing _ _ _ _ _ Hr) as (m & es & Hg & _ & Hl & _).
  now rewrite (get_snoc _ _ _ _ _ Hg).
Qed.

Lemma free_at_dir t p d nm :
  free_at t p d nm -> exists m es, get t d = Some (Dir m es).
Proof.
  intros [_ Hr].
  destruct (namei_missing _ _ _ _ _ Hr) as (m & es & Hg & _). eauto.
Qed.

Lemma os_scandir_dir t p l m es :
  leads_to t p l (Dir m es) -> can_r m = true ->
  os_scandir p t
  = (Ok (map (fun kv => (fst kv, is_dir_node (snd kv))) es), t).
Proof.
  intros H Hr. unfold os_scandir. run (resolve_found _ _ _ _ H).
  now rewrite Hr.
Qed.

(** A regular file is never above something else. *)
Lemma file_not_above t sl m data d nm :
  get t sl = Some (File m data) -> (exists m' es, get t d = Some (Dir m' es)) ->
  get t (d ++ [nm]) = None ->
  is_prefix sl (d ++ [nm]) = false.
Proof.
  intros Hs (m' & es & Hd) Hfree.
  destruct (is_prefix sl (d ++ [nm])) eqn:E; [|reflexivity].
  apply is_prefix_snoc in E as [->|E]; [congruence|].
  apply is_prefix_spec in E as [r ->]. rewrite get_app, Hs in Hd.
  destruct r; discriminate.
Qed.

(** [shutil.copy2] of a readable file onto a free name in a writable
    directory: the file appears there, with its mode. *)
Lemma copy2_file t src dst sl m data d nm :
  leads_to t src sl (File m data) -> can_r m = true ->
  free_at t dst d nm -> can_w (dir_perms t d) = true ->
  copy2 src dst t = (Ok tt, put t (d ++ [nm]) (File m data)).
Proof.
  intros Hs Hr Hd Hw. unfold copy2.
  run (quiet_test_free is_dir_node _ _ _ _ Hd).
  pose proof (free_at_get _ _ _ _ Hd) as Hfree.
  pose proof (file_not_above t sl m data d nm
                (namei_found _ _ _ _ _ (proj2 Hs)) (free_at_dir _ _ _ _ Hd)
                Hfree) as Hpre.
  assert (Hcopy : copyfile src dst t
                  = (Ok tt, put t (d ++ [nm]) (File file_mode data))).
  { unfold copyfile.
    assert (Hsame : samefile src dst t = (Ok false, t)).
    { unfold samefile, catch, bind.
      now rewrite (resolve_found _ _ _ _ Hs), (resolve_free _ _ _ _ Hd). }
    run Hsame.
    assert (Hread : read_bytes src t = (Ok data, t)).
    { unfold read_bytes. run (resolve_found _ _ _ _ Hs). now rewrite Hr. }
    run Hread. apply catch_ok. run (open_w_free _ _ _ _ Hd Hw).
    unfold write_data, bind, get_tree, set_tree.
    destruct (free_at_dir _ _ _ _ Hd) as (m' & es & Hg).
    now rewrite (get_put_same _ _ _ _ _ _ Hg), put_twice. }
  run Hcopy. unfold copystat.
  run (os_stat_found _ _ _ _
         (leads_to_put_frame _ _ _ _ _ (File file_mode data) Hs Hfree Hpre)).
  unfold os_chmod.
  run (resolve_found _ _ _ _
         (leads_to_put_new _ _ _ _ (File file_mode data) Hd)).
  unfold bind, get_tree, set_tree. cbn [mode_of with_mode].
  now rewrite put_twice.
Qed.

(** Storing below a node that has just been stored amounts to storing the
    node already updated. *)
Lemma put_below t l r n1 v :
  put (put t l n1) (l ++ r) v = put t l (put n1 r v).
Proof.
  revert t. induction l as [|c l IH]; intros t; [reflexivity|].
  destruct t as [m d|m es]; [reflexivity|].
  destruct l as [|c2 l].
  - cbn [app]. destruct r as [|c3 r].
    + cbn [put]. now rewrite set_entry_twice.
    + cbn [put]. rewrite lookup_set_entry_same. now rewrite set_entry_twice.
  - destruct (lookup c es) as [ch|] eqn:Hl.
    + rewrite (put_cons m es c (c2 :: l) n1 ch) by (auto; discriminate).
      rewrite (put_cons m es c (c2 :: l) (put n1 r v) ch)
        by (auto; discriminate).
      change ((c :: c2 :: l) ++ r) with (c :: ((c2 :: l) ++ r)).
      rewrite (put_cons m _ c ((c2 :: l) ++ r) v (put ch (c2 :: l) n1))
        by (try apply lookup_set_entry_same; discriminate).
      now rewrite set_entry_twice, IH.
    + cbn [put app]. rewrite Hl. cbn [put]. now rewrite Hl.
Qed.

Lemma set_entry_new c v es :
  lookup c es = None -> set_entry c v es = es ++ [(c, v)].
Proof.
  induction es as [|[k w] es IH]; [reflexivity|]. cbn [lookup set_entry app].
  destruct (str_eqb k c); [discriminate|]. intros H. now rewrite IH.
Qed.

Lemma put_new_entry t dl dm es1 c v :
  lookup c es1 = None ->
  put (put t dl (Dir dm es1)) (dl ++ [c]) v
  = put t dl (Dir dm (es1 ++ [(c, v)])).
Proof.
  intros H. rewrite put_below. cbn [put]. now rewrite (set_entry_new _ _ _ H).
Qed.

Lemma existsb_str_eqb_false c l :
  existsb (str_eqb c) l = false -> ~ In c l.
Proof.
  intros H Hin. assert (existsb (str_eqb c) l = true); [|congruence].
  apply existsb_exists. exists c. split; [exact Hin | apply str_eqb_refl].
Qed.

Lemma distinct_app_inv l1 x l2 :
  distinct (l1 ++ x :: l2) = true -> ~ In x l1 /\ distinct (l1 ++ l2) = true.
Proof.
  induction l1 as [|y l1 IH]; cbn [app distinct].
  - intros H. apply andb_prop in H as [_ H]. auto.
  - intros H. apply andb_prop in H as [Hy H]. apply negb_true_iff in Hy.
    destruct (IH H) as [Hx Hd]. rewrite existsb_app in Hy.
    apply orb_false_iff in Hy as [Hy1 Hy2]. cbn [existsb] in Hy2.
    apply orb_false_iff in Hy2 as [Hyx Hy2]. split.
    + intros [->|Hin]; [|auto]. now rewrite str_eqb_refl in Hyx.
    + rewrite Hd, existsb_app, Hy1, Hy2. reflexivity.
Qed.

Lemma lookup_not_in c es : ~ In c (map fst es) -> lookup c es = None.
Proof.
  induction es as [|[k v] es IH]; [reflexivity|]. cbn [map fst In lookup].
  intros H. destruct (str_eqb k c) eqn:E.
  - apply str_eqb_eq in E. tauto.
  - apply IH. tauto.
Qed.

Lemma lookup_app_none c es1 es2 :
  lookup c es1 = None -> lookup c (es1 ++ es2) = lookup c es2.
Proof.
  induction es1 as [|[k v] es1 IH]; [reflexivity|]. cbn [lookup app].
  destruct (str_eqb k c); [discriminate | exact IH].
Qed.

(** The entry reached by the loop is what its name leads to, and that
    name is not among the entries already copied. *)
Lemma entry_lookup es1 c ch es2 :
  distinct (map fst (es1 ++ (c, ch) :: es2)) = true ->
  lookup c es1 = None /\ lookup c (es1 ++ (c, ch) :: es2) = Some ch.
Proof.
  rewrite map_app. cbn [map fst]. intros H.
  destruct (distinct_app_inv _ _ _ H) as [Hnot _].
  pose proof (lookup_not_in c es1 Hnot) as Hl. split; [exact Hl|].
  rewrite (lookup_app_none _ _ _ Hl). cbn [lookup]. now rewrite str_eqb_refl.
Qed.

Lemma height_entry m es c ch : In (c, ch) es -> height ch < height (Dir m es).
Proof.
  cbn [height]. induction es as [|[k v] es IH]; [contradiction|].
  cbn [In fold_right snd]. intros [[= -> ->]|Hin]; [lia|].
  specialize (IH Hin). lia.
Qed.

Lemma is_prefix_trans a b c :
  is_prefix a b = true -> is_prefix b c = true -> is_prefix a c = true.
Proof.
  rewrite !is_prefix_spec. intros [l ->] [r ->]. exists (l ++ r).
  now rewrite app_assoc.
Qed.

Lemma is_prefix_children sl dl c :
  is_prefix sl dl = false -> is_prefix (sl ++ [c]) (dl ++ [c]) = false.
Proof.
  intros H. destruct (is_prefix (sl ++ [c]) (dl ++ [c])) eqn:E; [|reflexivity].
  apply is_prefix_snoc in E as [E|E].
  - apply app_inj_tail in E as [-> _]. now rewrite is_prefix_refl in H.
  - rewrite <- H. symmetry.
    exact (is_prefix_trans _ _ _ (is_prefix_app sl [c]) E).
Qed.

Lemma makedirs_free t dst d nm :
  free_at t dst d nm -> can_w (dir_perms t d) = true ->
  makedirs (root dst) (rev (parts dst)) t
  = (Ok tt, put t (d ++ [nm]) (Dir dir_mode [])).
Proof.
  intros Hd Hw.
  destruct (free_at_parent _ _ _ _ Hd) as (m & es & Hpar & _ & _ & _ & Hparts).
  rewrite Hparts, rev_app_distr. cbn [rev app makedirs].
  assert (Hdst : mkPath (root dst) (rev (rev (parts (parent dst))) ++ [nm])
                 = dst).
  { rewrite rev_involutive, <- Hparts. apply path_eta. }
  rewrite Hdst.
  destruct (rev (parts (parent dst))) as [|c0 up] eqn:Hup.
  - unfold bind at 1. unfold ret at 1. exact (os_mkdir_free _ _ _ _ Hd Hw).
  - assert (Hpp : mkPath (root dst) (rev (c0 :: up)) = parent dst).
    { rewrite <- Hup, rev_involutive.
      change (root dst) with (root (parent dst)). apply path_eta. }
    rewrite Hpp. unfold bind at 1.
    rewrite (bind_ok _ _ _ _ _ (quiet_test_found (fun _ => true) _ _ _ _ Hpar)).
    unfold ret at 1. exact (os_mkdir_free _ _ _ _ Hd Hw).
Qed.

Lemma copy_entries_spec k t src dst sl m es d nm :
  copies k ->
  leads_to t src sl (Dir m es) -> can_x m = true ->
  free_at t dst d nm -> is_prefix sl (d ++ [nm]) = false ->
  distinct (map fst es) = true ->
  forall es2 es1,
    es = es1 ++ es2 ->
    forallb valid_name (map fst es2) = true ->
    forallb (fun kv => readable (snd kv)) es2 = true ->
    forallb (fun kv => well_formed (snd kv)) es2 = true ->
    forallb (fun kv => fits (child src (fst kv)) (snd kv)) es2 = true ->
    forallb (fun kv => fits (child dst (fst kv)) (snd kv)) es2 = true ->
    (forall c ch, In (c, ch) es2 -> height ch < k) ->
    copy_entries (copytree k) src dst
      (map (fun kv => (fst kv, is_dir_node (snd kv))) es2) []
      (put t (d ++ [nm]) (Dir dir_mode es1))
    = (Ok [], put t (d ++ [nm]) (Dir dir_mode es)).
Proof.
  intros IHk Hs Hx Hd Hpre Hdist.
  pose proof (free_at_get _ _ _ _ Hd) as Hfree.
  induction es2 as [|[c ch] rest IH]; intros es1 Hes Hv Hr Hwf Hfs Hfd Hh.
  - rewrite app_nil_r in Hes. subst es1. reflexivity.
  - cbn [map fst snd forallb] in *.
    apply andb_prop in Hv as [Hvc Hv]. apply andb_prop in Hr as [Hrc Hr].
    apply andb_prop in Hwf as [Hwc Hwf].
    apply andb_prop in Hfs as [Hfsc Hfs]. apply andb_prop in Hfd as [Hfdc Hfd].
    set (T := put t (d ++ [nm]) (Dir dir_mode es1)).
    assert (HsT : leads_to T src sl (Dir m es))
      by exact (leads_to_put_frame _ _ _ _ _ _ Hs Hfree Hpre).
    assert (HdT : leads_to T dst (d ++ [nm]) (Dir dir_mode es1))
      by exact (leads_to_put_new _ _ _ _ _ Hd).
    rewrite Hes in Hdist. destruct (entry_lookup _ _ _ _ Hdist) as [Hl1 Hl].
    rewrite <- Hes in Hl.
    pose proof (leads_to_child _ _ _ _ _ c ch HsT Hx Hvc
                  (fits_usable _ _ Hfsc) Hl) as Hcs.
    pose proof (free_child _ _ _ _ _ c HdT eq_refl Hvc
                  (fits_usable _ _ Hfdc) Hl1) as Hcd.
    assert (HwT : can_w (dir_perms T (d ++ [nm])) = true).
    { unfold dir_perms. now rewrite (namei_found _ _ _ _ _ (proj2 HdT)). }
    assert (Hone : (if is_dir_node ch
                    then copytree k (child src c) (child dst c)
                    else copy2 (child src c) (child dst c)) T
                   = (Ok tt, put t (d ++ [nm])
                                 (Dir dir_mode (es1 ++ [(c, ch)])))).
    { unfold T. rewrite <- (put_new_entry t (d ++ [nm]) dir_mode es1 c ch Hl1).
      fold T. destruct ch as [m' data|m' es'] eqn:Hch; cbn [is_dir_node].
      - apply (copy2_file T _ _ (sl ++ [c]) m' data (d ++ [nm]) c);
          assumption.
      - apply (IHk _ _ _ T (sl ++ [c]) (d ++ [nm]) c); try assumption.
        + apply (Hh c). now left.
        + reflexivity.
        + now apply is_prefix_children. }
    cbn [copy_entries]. unfold bind at 1.
    rewrite (catch_ok _ _ _ _ _ (bind_ok _ _ _ _ _ Hone)).
    apply IH; try assumption.
    + now rewrite <- app_assoc.
    + intros c' ch' Hin. apply (Hh c' ch'). now right.
Qed.
Lemma well_formed_dir m es :
  well_formed (Dir m es) = true ->
  forallb valid_name (map fst es) = true
  /\ distinct (map fst es) = true
  /\ forallb (fun kv => well_formed (snd kv)) es = true.
Proof.
  cbn [well_formed]. intros H. apply andb_prop in H as [H H3].
  apply andb_prop in H as [H1 H2]. auto.
Qed.

Lemma readable_dir m es :
  readable (Dir m es) = true ->
  can_r m = true /\ can_x m = true
  /\ forallb (fun kv => readable (snd kv)) es = true.
Proof.
  cbn [readable]. intros H. apply andb_prop in H as [H H3].
  apply andb_prop in H as [H1 H2]. auto.
Qed.

Theorem copytree_spec k : copies k.
Proof.
  induction k as [|k IH];
    intros n src dst t sl d nm Hh Hdir Hr Hwf Hfs Hfd Hs Hd Hw Hpre;
    [lia|].
  destruct n as [m0 d0|m es]; [discriminate|].
  destruct (readable_dir _ _ Hr) as (Hcr & Hcx & Hrs).
  destruct (well_formed_dir _ _ Hwf) as (Hv & Hdist & Hwfs).
  pose proof (free_at_get _ _ _ _ Hd) as Hfree.
  cbn [copytree].
  run (os_scandir_dir _ _ _ _ _ Hs Hcr).
  run (makedirs_free _ _ _ _ Hd Hw).
  assert (Hloop : copy_entries (copytree k) src dst
                    (map (fun kv => (fst kv, is_dir_node (snd kv))) es) []
                    (put t (d ++ [nm]) (Dir dir_mode []))
                  = (Ok [], put t (d ++ [nm]) (Dir dir_mode es))).
  { apply (copy_entries_spec k t src dst sl m es d nm IH Hs Hcx Hd Hpre Hdist
             es []); try assumption; try reflexivity;
      try (now apply (fits_dir _ m)).
    intros c ch Hin. pose proof (height_entry m es c ch Hin). lia. }
  run Hloop.
  set (T := put t (d ++ [nm]) (Dir dir_mode es)).
  assert (Hstat : copystat src dst T = (Ok tt, put t (d ++ [nm]) (Dir m es))).
  { unfold copystat.
    run (os_stat_found _ _ _ _
           (leads_to_put_frame _ _ _ _ _ (Dir dir_mode es) Hs Hfree Hpre)).
    unfold os_chmod.
    run (resolve_found _ _ _ _
           (leads_to_put_new _ _ _ _ (Dir dir_mode es) Hd)).
    unfold bind, get_tree, set_tree. cbn [mode_of with_mode].
    now rewrite put_twice. }
  unfold bind at 1. rewrite (catch_ok _ _ _ _ _ (bind_ok _ _ _ _ _ Hstat)).
  reflexivity.
Qed.

(** ** Making a directory with its missing parents *)
Lemma chain_snoc names c :
  put (chain names) (names ++ [c]) (Dir dir_mode []) = chain (names ++ [c]).
Proof.
  induction names as [|x names IH]; [reflexivity|].
  cbn [chain app]. erewrite put_cons;
    [|apply snoc_not_nil|cbn [lookup]; now rewrite str_eqb_refl].
  cbn [set_entry]. now rewrite str_eqb_refl, IH.
Qed.

Lemma get_chain names : get (chain names) names = Some (Dir dir_mode []).
Proof.
  induction names as [|x names IH]; [reflexivity|].
  cbn [chain get lookup]. now rewrite str_eqb_refl.
Qed.

Lemma usable_upto r a b c :
  usable (mkPath r c) = true -> c = a ++ b -> usable (mkPath r a) = true.
Proof. intros H ->. exact (usable_prefix _ _ _ H). Qed.

Lemma valid_name_fs c :
  valid_name c = true ->
  fs_encodable c && negb (existsb (N.eqb 0) c) = true.
Proof.
  unfold valid_name. intros H. apply andb_prop in H as [H _].
  apply andb_prop in H as [H He]. apply andb_prop in H as [_ Hn].
  now rewrite He, Hn.
Qed.

(** Valid names joined to a path that the system accepts give a path that
    it accepts, as long as the whole stays below [PATH_MAX]. *)
Lemma usable_chain r base names :
  usable (mkPath r base) = true ->
  forallb valid_name names = true ->
  fs_length (path_str (mkPath r (base ++ names))) < PATH_MAX ->
  usable (mkPath r (base ++ names)) = true.
Proof.
  intros Hb Hv Hlen. unfold usable.
  rewrite (fs_argument_app r base names (proj1 (usable_inv _ Hb))).
  - now apply Nat.ltb_lt.
  - apply forallb_forall. intros c Hc. apply valid_name_fs.
    exact (proj1 (forallb_forall _ _) Hv c Hc).
Qed.

(** Resolution through directories that were just made. *)
Lemma leads_to_chain t r base d m es c names :
  leads_to t (mkPath r base) d (Dir m es) ->
  can_x m = true -> lookup c es = None ->
  forallb valid_name (c :: names) = true ->
  usable (mkPath r (base ++ c :: names)) = true ->
  leads_to (put t (d ++ [c]) (chain names)) (mkPath r (base ++ c :: names))
           (d ++ c :: names) (Dir dir_mode []).
Proof.
  intros Hb Hx Hl Hv Hu.
  assert (G : forall names' rest n,
             names = names' ++ rest ->
             get (chain names) names' = Some n ->
             leads_to (put t (d ++ [c]) (chain names))
                      (mkPath r (base ++ c :: names'))
                      (d ++ c :: names') n).
  { induction names' as [|x names' IH] using rev_ind; intros rest n Hn Hg.
    - cbn [get] in Hg. apply Some_inj in Hg. subst n.
      cbn [forallb] in Hv. apply andb_prop in Hv as [Hvc _].
      assert (Huc : usable (child (mkPath r base) c) = true).
      { apply (usable_upto r _ names _ Hu). unfold child. cbn [root parts].
        now rewrite <- app_assoc. }
      pose proof (free_child _ _ _ _ _ c Hb Hx Hvc Huc Hl) as Hfr.
      exact (leads_to_put_new _ _ _ _ (chain names) Hfr).
    - rewrite get_app in Hg.
      destruct (get (chain names) names') as [[m0 d0|m0 es0]|] eqn:Hg0;
        try discriminate.
      cbn [get] in Hg. destruct (lookup x es0) as [ch|] eqn:Hlx;
        [|discriminate].
      apply Some_inj in Hg. subst ch.
      rewrite <- app_assoc in Hn.
      pose proof (IH _ _ Hn eq_refl) as Hup.
      assert (Hm0 : can_x m0 = true).
      { clear - Hg0. revert names' Hg0.
        induction names as [|y names IHn]; intros names' Hg0.
        - destruct names'; cbn in Hg0; [now injection Hg0 as <- _|].
          discriminate.
        - destruct names' as [|z names'].
          + cbn in Hg0. now injection Hg0 as <- _.
          + cbn [chain get lookup] in Hg0.
            destruct (str_eqb y z); [|discriminate]. eauto. }
      assert (Hvx : valid_name x = true).
      { rewrite Hn in Hv. cbn [forallb] in Hv. apply andb_prop in Hv as [_ Hv].
        rewrite forallb_app in Hv. apply andb_prop in Hv as [_ Hv].
        cbn [forallb app] in Hv. now apply andb_prop in Hv as [Hv _]. }
      assert (Hux : usable (child (mkPath r (base ++ c :: names')) x) = true).
      { apply (usable_upto r _ rest _ Hu). unfold child. cbn [root parts].
        rewrite Hn, <- !app_assoc. reflexivity. }
      pose proof (leads_to_child _ _ _ _ _ x n Hup Hm0 Hvx Hux Hlx) as Hc.
      unfold child in Hc. cbn [root parts] in Hc.
      replace (base ++ c :: names' ++ [x]) with ((base ++ c :: names') ++ [x])
        by now rewrite <- app_assoc.
      replace (d ++ c :: names' ++ [x]) with ((d ++ c :: names') ++ [x])
        by now rewrite <- app_assoc.
      exact Hc. }
  apply (G names []); [now rewrite app_nil_r | apply get_chain].
Qed.

(** [mkdir(parents=True)] below an existing directory that can be searched
    and written: the missing directories [c/names] are made, one inside
    the other. *)
Lemma mkdir_chain t r base d m es c names :
  leads_to t (mkPath r base) d (Dir m es) ->
  can_x m = true -> can_w m = true -> lookup c es = None ->
  forallb valid_name (c :: names) = true ->
  usable (mkPath r (base ++ c :: names)) = true ->
  forall ok,
    mkdir_parents ok r (rev (base ++ c :: names)) t
    = (Ok tt, put t (d ++ [c]) (chain names)).
Proof.
  intros Hb Hx Hw Hl. pose proof (namei_found _ _ _ _ _ (proj2 Hb)) as Hg.
  pose proof (proj2 Hb) as Hbr. cbn [parts] in Hbr.
  induction names as [|x names IH] using rev_ind; intros Hv Hu ok.
  - rewrite mkdir_parents_unfold, rev_involutive.
    cbn [forallb] in Hv. apply andb_prop in Hv as [Hvc _].
    pose proof (free_child _ _ _ _ _ c Hb Hx Hvc Hu Hl) as Hfr.
    apply catch_ok. apply (os_mkdir_free _ _ _ _ Hfr).
    unfold dir_perms. now rewrite Hg.
  - assert (Hv' : forallb valid_name (c :: names) = true
                  /\ valid_name x = true).
    { cbn [forallb] in *. apply andb_prop in Hv as [Hvc Hv].
      rewrite forallb_app in Hv. apply andb_prop in Hv as [Hvn Hvx].
      cbn [forallb] in Hvx. apply andb_prop in Hvx as [Hvx _].
      now rewrite Hvc, Hvn. }
    destruct Hv' as [Hv' Hvx].
    assert (Hparts : base ++ c :: names ++ [x] = (base ++ c :: names) ++ [x])
      by now rewrite <- app_assoc.
    assert (Hu' : usable (mkPath r (base ++ c :: names)) = true)
      by exact (usable_upto r _ [x] _ Hu Hparts).
    specialize (IH Hv' Hu').
    rewrite mkdir_parents_unfold, rev_involutive.
    set (p := mkPath r (base ++ c :: names ++ [x])).
    assert (Hraise : os_mkdir p t = (Raise (os_error ENOENT [path_str p]), t)).
    { unfold os_mkdir, bind.
      assert (Hn : usable p = true) by exact Hu.
      rewrite (resolve_usable _ _ Hn). unfold p. cbn [parts].
      rewrite namei_app by discriminate. rewrite Hbr.
      cbn [namei]. rewrite Hg, Hx.
      cbn [forallb] in Hv'. apply andb_prop in Hv' as [Hvc _].
      destruct (valid_name_facts _ Hvc) as [Hdd Hlen]. rewrite Hdd, Hlen, Hl.
      destruct (names ++ [x]) eqn:E; [now destruct names | reflexivity]. }
    rewrite (catch_raise _ _ _ _ _ Hraise). classify.
    rewrite Hparts, rev_app_distr. cbn [rev app].
    run (IH true).
    set (t1 := put t (d ++ [c]) (chain names)).
    pose proof (leads_to_chain t r base d m es c names Hb Hx Hl Hv' Hu')
      as Hup.
    fold t1 in Hup.
    assert (Hux : usable (child (mkPath r (base ++ c :: names)) x) = true).
    { unfold child. cbn [root parts]. now rewrite <- Hparts. }
    pose proof (free_child _ _ _ _ _ x Hup eq_refl Hvx Hux eq_refl) as Hfr.
    unfold child in Hfr. cbn [root parts] in Hfr.
    unfold mkdir_one. apply catch_ok.
    rewrite <- Hparts in Hfr. fold p in Hfr.
    rewrite (os_mkdir_free _ _ _ _ Hfr).
    + f_equal. unfold t1.
      replace (d ++ c :: names) with ((d ++ [c]) ++ names)
        by now rewrite <- app_assoc.
      now rewrite <- app_assoc, put_below, chain_snoc.
    + unfold dir_perms.
      now rewrite (namei_found _ _ _ _ _ (proj2 Hup)).
Qed.

(** Nothing exists yet at a path that leaves an existing directory by a
    name not in it. *)
Lemma path_exists_chain t r base d m es c names :
  leads_to t (mkPath r base) d (Dir m es) ->
  can_x m = true -> lookup c es = None ->
  forallb valid_name (c :: names) = true ->
  usable (mkPath r (base ++ c :: names)) = true ->
  path_exists (mkPath r (base ++ c :: names)) t = (Ok false, t).
Proof.
  intros Hb Hx Hl Hv Hn.
  pose proof (namei_found _ _ _ _ _ (proj2 Hb)) as Hg.
  pose proof (proj2 Hb) as Hbr. cbn [parts] in Hbr.
  cbn [forallb] in Hv. apply andb_prop in Hv as [Hvc _].
  destruct names as [|x names].
  - apply (path_exists_free _ _ d c).
    exact (free_child _ _ _ _ _ c Hb Hx Hvc Hn Hl).
  - apply stat_test_enoent; [exact Hn|]. cbn [parts].
    rewrite namei_app by discriminate. rewrite Hbr.
    cbn [namei]. rewrite Hg, Hx.
    destruct (valid_name_facts _ Hvc) as [Hdd Hlen]. now rewrite Hdd, Hlen, Hl.
Qed.
(** ** Lemmas shared by the properties below *)

Lemma count_from_contains sub s :
  forall k, 1 <= count_from sub s k -> contains sub s = true.
Proof.
  induction s as [|c s IH]; intros k; cbn [count_from contains]; [lia|].
  destruct k as [|k].
  - destruct (startswith sub (c :: s)); [reflexivity|].
    cbn [orb]. apply IH.
  - intros H. rewrite (IH _ H). apply orb_true_r.
Qed.

Lemma count_contains s sub : 1 <= count s sub -> contains sub s = true.
Proof.
  unfold count. destruct sub as [|a sub].
  - intros _. now destruct s.
  - apply count_from_contains.
Qed.

(** What the body of [edit_file] does once [str.count] has found one
    occurrence. *)
Lemma edit_file_applies E path old_text new_text fp t l m bs text :
  expanduser E (parse_path path) = Ok fp ->
  leads_to t fp l (File m bs) -> can_r m = true ->
  utf8_decode bs = Some text ->
  count (universal_newlines text) old_text = 1 ->
  exists pre post,
    universal_newlines text = pre ++ old_text ++ post
    /\ replace_first (universal_newlines text) old_text new_text
       = pre ++ new_text ++ post
    /\ EditFileTool.execute E path old_text new_text t
       = guarded E
           (write_text fp (pre ++ new_text ++ post) ;;
            ret (py "Successfully edited " ++ path))%fs
           (py "Error: Permission denied: " ++ path)
           (py "Error editing file: ") t.
Proof.
  intros Hfp Hl Hr Hd Hc.
  assert (Hin : contains old_text (universal_newlines text) = true)
    by (apply count_contains; lia).
  destruct (replace_first_spec (universal_newlines text) old_text new_text 0
              Hin) as (pre & post & Hsplit & Hrep & _).
  exists pre, post. split; [exact Hsplit|]. split; [exact Hrep|].
  unfold EditFileTool.execute, guarded, catch.
  rewrite Hfp. run (lift_ok fp t). run (path_exists_found _ _ _ _ Hl).
  run (read_text_file _ _ _ _ _ _ Hl Hr Hd).
  rewrite Hin, Hc, Hrep. reflexivity.
Qed.

(** Every call that binds returns: all that the body of an [execute] can
    raise is an instance of [Exception], which its second handler turns
    into a string. *)
Lemma execute_returns E r t : exists s t', execute E r t = (Ok s, t').
Proof.
  destruct r; cbn [execute];
    unfold ReadFileTool.execute, WriteFileTool.execute, EditFileTool.execute,
      ListDirTool.execute, RenameFileTool.execute, MoveFileTool.execute,
      CopyFileTool.execute, CreateDirTool.execute;
    apply guarded_returns; safe_body.
Qed.

(** Arguments for every required parameter, and none for [self], bind. *)
Lemma bind_arguments_some k args :
  kwarg (py "self") args = None ->
  (forall key, In key (tool_required k) -> kwarg key args <> None) ->
  exists r, bind_arguments k args = Some r.
Proof.
  intros Hself H. unfold bind_arguments. rewrite Hself.
  destruct k; cbn [tool_required] in *;
    unfold ReadFileTool.required, WriteFileTool.required,
      EditFileTool.required, ListDirTool.required,
      RenameFileTool.required, MoveFileTool.required,
      CopyFileTool.required, CreateDirTool.required in H;
    repeat match goal with
           | |- context [kwarg ?key args] =>
               let E := fresh "E" in
               destruct (kwarg key args) eqn:E;
               [|exfalso; apply (H key); [cbn; tauto | exact E]]
           end;
    cbn; eauto.
Qed.

(** * The properties of the specification *)

(** C1 at a content that is not ASCII.  The content ["é"] (U+00E9) is one
    code point and two bytes in UTF-8: the file receives the two bytes and
    the message says ["1 bytes"]. *)
Theorem write_file_counts_code_points E :
  WriteFileTool.execute E (py "f") [233%N] (Dir dir_mode [])
  = (Ok (py "Successfully wrote 1 bytes to f"),
     Dir dir_mode [(py "f", File file_mode [xc3; xa9])])
  /\ option_map (@length byte) (utf8_encode [233%N]) = Some 2.
Proof. split; reflexivity. Qed.

(** C2, as the code has it.  A call whose keyword arguments give a string
    for every required parameter of the tool and nothing for [self] is
    bound to the parameters of [execute] and returns a string, whatever
    the strings are and whatever the state of the file system (missing
    paths, paths without access, a [new_name] with a separator included):
    nothing raised inside [execute] leaves it. *)
Theorem execute_always_returns E k args t :
  kwarg (py "self") args = None ->
  (forall key, In key (tool_required k) -> kwarg key args <> None) ->
  exists r s t',
    bind_arguments k args = Some r
    /\ execute E r t = (Ok s, t')
    /\ call E k args t = (Ok s, t').
Proof.
  intros Hself Hreq.
  destruct (bind_arguments_some k args Hself Hreq) as [r Hr].
  destruct (execute_returns E r t) as (s & t' & Hrun).
  exists r, s, t'. split; [exact Hr|]. split; [exact Hrun|].
  unfold call. now rewrite Hr.
Qed.

Lemma execute_always_returns_witness :
  exists r s t',
    bind_arguments rename_file
      [(py "old_path", py "/a/f"); (py "new_name", py "x/y")] = Some r
    /\ execute sample_env r sample_tree = (Ok s, t')
    /\ call sample_env rename_file
         [(py "old_path", py "/a/f"); (py "new_name", py "x/y")] sample_tree
       = (Ok s, t').
Proof.
  apply (execute_always_returns sample_env rename_file
           [(py "old_path", py "/a/f"); (py "new_name", py "x/y")]
           sample_tree).
  - reflexivity.
  - intros key [<-|[<-|[]]]; discriminate.
Defined.

(** C2, as stated, fails for an argument mapping that leaves out a required
    parameter: the call [execute()] of [read_file] without [path] raises
    [TypeError] while the arguments are bound, before the [try] of the body
    is entered, and the exception reaches the caller. *)
Lemma execute_missing_argument :
  ~ (forall E k args t, exists s t', call E k args t = (Ok s, t')).
Proof.
  intros H. destruct (H sample_env read_file [] sample_tree) as (s & t' & Hc).
  discriminate Hc.
Qed.

(** C3 at occurrences that overlap.  In ["aaa"] the text ["aa"] occurs at
    offsets 0 and 1, [str.count] finds one occurrence only, and the edit
    is applied to the first one instead of being refused. *)
Theorem edit_file_overlapping_occurrences E :
  occurrences (py "aa") (py "aaa") = [0; 1]
  /\ count (py "aaa") (py "aa") = 1
  /\ EditFileTool.execute E (py "f") (py "aa") (py "b")
       (Dir dir_mode [(py "f", File file_mode [x61; x61; x61])])
     = (Ok (py "Successfully edited f"),
        Dir dir_mode [(py "f", File file_mode [x62; x61])]).
Proof. repeat split; reflexivity. Qed.

(** C4, as the code has it.  Let the path lead to a regular file that may
    be read and whose bytes decode to a text; the content that [edit_file]
    works on is that text as [read_text] returns it, with every ["\r\n"]
    and every lone ["\r"] turned into ["\n"].  If [old_text] occurs at
    exactly one offset of that content, the file may be written and
    [new_text] can be encoded, then [edit_file] writes back the content
    with that one occurrence replaced by [new_text] (the bytes written
    decode to exactly that, so the carriage returns of the file are gone)
    and answers with its success message.  Applied again, it answers that
    [old_text] was not found and leaves the tree alone when [old_text] does
    not occur in what is then read, and gives another answer when it
    occurs.  If [old_text] does not occur in the content at all, the answer
    is that same error and the tree is unchanged. *)
Theorem edit_file_single_occurrence E path old_text new_text fp t l m bs text :
  expanduser E (parse_path path) = Ok fp ->
  leads_to t fp l (File m bs) -> can_r m = true ->
  utf8_decode bs = Some text ->
  (length (occurrences old_text (universal_newlines text)) = 1 ->
   can_w m = true -> encodable new_text = true ->
   exists pre post nb,
     universal_newlines text = pre ++ old_text ++ post
     /\ occurrences old_text (universal_newlines text) = [length pre]
     /\ utf8_encode (pre ++ new_text ++ post) = Some nb
     /\ utf8_decode nb = Some (pre ++ new_text ++ post)
     /\ EditFileTool.execute E path old_text new_text t
        = (Ok (py "Successfully edited " ++ path), put t l (File m nb))
     /\ (occurrences old_text (universal_newlines (pre ++ new_text ++ post))
         = [] ->
         EditFileTool.execute E path old_text new_text (put t l (File m nb))
         = (Ok (py "Error: old_text not found in file. Make sure it matches exactly."),
            put t l (File m nb)))
     /\ (occurrences old_text (universal_newlines (pre ++ new_text ++ post))
         <> [] ->
         exists s t2,
           EditFileTool.execute E path old_text new_text
             (put t l (File m nb)) = (Ok s, t2)
           /\ s <> py "Error: old_text not found in file. Make sure it matches exactly."))
  /\ (occurrences old_text (universal_newlines text) = [] ->
      EditFileTool.execute E path old_text new_text t
      = (Ok (py "Error: old_text not found in file. Make sure it matches exactly."),
         t)).
Proof.
  intros Hfp Hl Hr Hd.
  assert (Habsent : forall t0 bs0 text0,
             leads_to t0 fp l (File m bs0) -> utf8_decode bs0 = Some text0 ->
             occurrences old_text (universal_newlines text0) = [] ->
             EditFileTool.execute E path old_text new_text t0
             = (Ok (py "Error: old_text not found in file. Make sure it matches exactly."),
                t0)).
  { intros t0 bs0 text0 Hl0 Hd0 Ho. unfold EditFileTool.execute.
    apply guarded_ok.
    rewrite Hfp. run (lift_ok fp t0). run (path_exists_found _ _ _ _ Hl0).
    run (read_text_file _ _ _ _ _ _ Hl0 Hr Hd0).
    apply (contains_occurrences old_text _ 0) in Ho. now rewrite Ho. }
  split; [|now apply (Habsent t bs text)].
  intros Hone Hw Hnew. set (content := universal_newlines text) in *.
  assert (Hin : contains old_text content = true).
  { destruct (contains old_text content) eqn:Hc; [reflexivity|].
    apply (contains_occurrences old_text content 0) in Hc.
    unfold occurrences in Hone. rewrite Hc in Hone. discriminate. }
  assert (Hcount : count content old_text = 1).
  { pose proof (count_le_occurrences content old_text).
    pose proof (count_pos content old_text Hin). lia. }
  destruct (replace_first_spec content old_text new_text 0 Hin)
    as (pre & post & Hsplit & Hrep & Hhd).
  assert (Hocc : occurrences old_text content = [length pre]).
  { unfold occurrences in *.
    destruct (occurrences_from old_text content 0) as [|i [|j r]];
      try discriminate.
    cbn in Hhd. congruence. }
  assert (Henc : encodable (pre ++ new_text ++ post) = true).
  { assert (Hc : encodable content = true).
    { apply encodable_universal_newlines.
      exact (utf8_decode_encodable _ _ Hd). }
    rewrite Hsplit, !encodable_app in Hc. rewrite !encodable_app.
    apply andb_prop in Hc as [Hp Hc]. apply andb_prop in Hc as [_ Hq].
    now rewrite Hp, Hnew, Hq. }
  pose proof Henc as Henc'.
  apply utf8_encode_encodable in Henc as [nb Hnb].
  pose proof (utf8_decode_encode _ _ Hnb) as Hdec.
  pose proof (leads_to_put_file _ _ _ _ _ nb Hl) as Hl1.
  exists pre, post, nb. repeat split; auto.
  - unfold EditFileTool.execute. apply guarded_ok.
    rewrite Hfp. run (lift_ok fp t). run (path_exists_found _ _ _ _ Hl).
    run (read_text_file _ _ _ _ _ _ Hl Hr Hd).
    fold content. rewrite Hin, Hcount. cbn [negb Nat.ltb Nat.leb].
    rewrite Hrep. now run (write_text_file _ _ _ _ _ _ _ Hl Hw Hnb).
  - now apply (Habsent _ nb (pre ++ new_text ++ post)).
  - intros Hocc2.
    set (content2 := universal_newlines (pre ++ new_text ++ post)) in *.
    assert (Hin2 : contains old_text content2 = true).
    { destruct (contains old_text content2) eqn:Hc; [reflexivity|].
      apply (contains_occurrences old_text content2 0) in Hc.
      unfold occurrences in Hocc2. congruence. }
    pose proof (count_pos content2 old_text Hin2) as Hpos.
    destruct (1 <? count content2 old_text) eqn:Hmany.
    + eexists. exists (put t l (File m nb)). split.
      * unfold EditFileTool.execute. apply guarded_ok.
        rewrite Hfp. run (lift_ok fp (put t l (File m nb))).
        run (path_exists_found _ _ _ _ Hl1).
        run (read_text_file _ _ _ _ _ _ Hl1 Hr Hdec).
        fold content2. rewrite Hin2. cbn [negb]. cbv zeta. rewrite Hmany.
        reflexivity.
      * intros Heq. apply (f_equal (hd 0%N)) in Heq. cbn in Heq.
        discriminate Heq.
    + apply Nat.ltb_ge in Hmany.
      assert (Hc2 : count content2 old_text = 1) by lia.
      destruct (edit_file_applies E path old_text new_text fp
                  (put t l (File m nb)) l m nb (pre ++ new_text ++ post)
                  Hfp Hl1 Hr Hdec Hc2)
        as (pre2 & post2 & Hsplit2 & _ & Hrun2).
      fold content2 in Hsplit2.
      assert (Henc2 : encodable (pre2 ++ new_text ++ post2) = true).
      { assert (Hc : encodable content2 = true)
          by now apply encodable_universal_newlines.
        rewrite Hsplit2, !encodable_app in Hc. rewrite !encodable_app.
        apply andb_prop in Hc as [Hp Hc]. apply andb_prop in Hc as [_ Hq].
        now rewrite Hp, Hnew, Hq. }
      apply utf8_encode_encodable in Henc2 as [nb2 Hnb2].
      eexists. eexists. split.
      * rewrite Hrun2. apply guarded_ok.
        now run (write_text_file _ _ _ _ _ _ _ Hl1 Hw Hnb2).
      * intros Heq. apply (f_equal (hd 0%N)) in Heq. cbn in Heq.
        discriminate Heq.
Qed.

Lemma edit_file_single_occurrence_witness :
  EditFileTool.execute sample_env (py "/notes") (py "b") (py "X") sample_tree
  = (Ok (py "Successfully edited /notes"),
     put sample_tree [py "notes"] (File file_mode [x61; x2d; x58; x2d; x63]))
  /\ EditFileTool.execute sample_env (py "/notes") (py "b") (py "X")
       (put sample_tree [py "notes"]
            (File file_mode [x61; x2d; x58; x2d; x63]))
     = (Ok (py "Error: old_text not found in file. Make sure it matches exactly."),
        put sample_tree [py "notes"]
            (File file_mode [x61; x2d; x58; x2d; x63])).
Proof.
  destruct (edit_file_single_occurrence sample_env (py "/notes") (py "b")
              (py "X") (parse_path (py "/notes")) sample_tree [py "notes"]
              file_mode [x61; x2d; x62; x2d; x63] (py "a-b-c")
              eq_refl (conj eq_refl eq_refl) eq_refl eq_refl) as [H _].
  destruct (H eq_refl eq_refl eq_refl)
    as (pre & post & nb & Hsplit & Hocc & Henc & _ & Hrun & Hnone & _).
  vm_compute in Hocc.
  destruct pre as [|c1 [|c2 [|c3 pre]]]; try discriminate Hocc.
  vm_compute in Hsplit. injection Hsplit as <- <- <-.
  vm_compute in Henc. injection Henc as <-.
  split; [exact Hrun | apply Hnone; reflexivity].
Defined.

(** C4, as stated of the content of the file, fails in two ways.  On the
    file ["a\r\nb"], where ["b"] occurs once, the edit of ["b"] to ["X"]
    succeeds but leaves ["a\nX"]: more than the occurrence has changed.
    And an edit that brings [old_text] back (["b"] to ["xbx"] in
    ["a-b-c"]) succeeds when it is applied again. *)
Lemma edit_file_carriage_return :
  ~ (forall E path old_text new_text fp t l m bs text,
        expanduser E (parse_path path) = Ok fp ->
        leads_to t fp l (File m bs) -> can_r m = true -> can_w m = true ->
        utf8_decode bs = Some text -> encodable new_text = true ->
        length (occurrences old_text text) = 1 ->
        exists nb,
          utf8_encode (replace_first text old_text new_text) = Some nb
          /\ EditFileTool.execute E path old_text new_text t
             = (Ok (py "Successfully edited " ++ path),
                put t l (File m nb)))
  /\ ~ (forall E path old_text new_text t t1,
          EditFileTool.execute E path old_text new_text t
          = (Ok (py "Successfully edited " ++ path), t1) ->
          EditFileTool.execute E path old_text new_text t1
          = (Ok (py "Error: old_text not found in file. Make sure it matches exactly."),
             t1)).
Proof.
  split.
  - intros H.
    destruct (H sample_env (py "/f") (py "b") (py "X") (parse_path (py "/f"))
                (Dir dir_mode [(py "f", File file_mode [x61; x0d; x0a; x62])])
                [py "f"] file_mode [x61; x0d; x0a; x62] [97; 13; 10; 98]%N
                eq_refl (conj eq_refl eq_refl) eq_refl eq_refl eq_refl
                eq_refl eq_refl) as (nb & Henc & Hrun).
    vm_compute in Henc. injection Henc as <-.
    vm_compute in Hrun. discriminate Hrun.
  - intros H.
    specialize (H sample_env (py "/notes") (py "b") (py "xbx") sample_tree
                  (put sample_tree [py "notes"]
                       (File file_mode
                             [x61; x2d; x78; x62; x78; x2d; x63]))
                  eq_refl).
    vm_compute in H. discriminate H.
Qed.

(** C5, as the code has it.  After a [write_file] that answered with its
    success message, the path is a regular file that holds the UTF-8
    encoding of the content, and [read_file] on the same path returns the
    content with every ["\r\n"] and every lone ["\r"] turned into ["\n"]
    when the file may be read, and the permission message otherwise.  A
    content without carriage return is returned exactly. *)
Theorem write_then_read E path content t t1 :
  WriteFileTool.execute E path content t
  = (Ok (py "Successfully wrote " ++ str_of_nat (len content)
         ++ py " bytes to " ++ path), t1) ->
  (exists fp l m bs,
      expanduser E (parse_path path) = Ok fp
      /\ leads_to t1 fp l (File m bs)
      /\ utf8_encode content = Some bs
      /\ ReadFileTool.execute E path t1
         = (Ok (if can_r m then universal_newlines content
                else py "Error: Permission denied: " ++ path), t1))
  /\ (forallb (fun c => negb (c =? 13)%N) content = true ->
      universal_newlines content = content).
Proof.
  intros H. split; [|apply universal_newlines_id].
  unfold WriteFileTool.execute, guarded, catch in H.
  match type of H with
  | context [match ?b t with _ => _ end] => destruct (b t) as [[s|e] t0] eqn:Hb
  end.
  - apply ok_inj in H as [_ Ht]. subst t0. revert Hb.
    destruct (expanduser E (parse_path path)) as [fp|e] eqn:Hfp;
      [|discriminate].
    run (lift_ok fp t). unfold bind at 1.
    destruct (mkdir true true (parent fp) t) as [[[]|e] t2]; [|discriminate].
    unfold bind at 1.
    destruct (write_text fp content t2) as [[[]|e] t3] eqn:Hw; [|discriminate].
    intros [= _ Ht]. subst t3.
    destruct (write_text_inv _ _ _ _ Hw) as (l & m & bs & He & Hl).
    exists fp, l, m, bs. split; [reflexivity|]. split; [exact Hl|].
    split; [exact He|].
    unfold ReadFileTool.execute. rewrite Hfp.
    destruct (can_r m) eqn:Hr.
    + apply guarded_ok. run (lift_ok fp t1).
      run (path_exists_found _ _ _ _ Hl). run (is_file_found _ _ _ _ Hl).
      cbn [is_dir_node negb].
      run (read_text_file _ _ _ _ _ _ Hl Hr (utf8_decode_encode _ _ He)).
      reflexivity.
    + rewrite (guarded_raise E _ _ _ t1 (os_error EACCES [path_str fp]) t1);
        [reflexivity| |reflexivity].
      run (lift_ok fp t1).
      run (path_exists_found _ _ _ _ Hl). run (is_file_found _ _ _ _ Hl).
      cbn [is_dir_node negb]. apply bind_raise.
      exact (read_text_denied _ _ _ _ _ Hl Hr).
  - exfalso. destruct (isinstance e PermissionError).
    + apply ok_inj in H as [H _]. symmetry in H. revert H.
      apply first_char_differs; vm_compute; congruence.
    + destruct (isinstance e Exception); [|discriminate].
      apply ok_inj in H as [H _]. symmetry in H. revert H.
      apply first_char_differs; vm_compute; congruence.
Qed.

Lemma write_then_read_witness :
  (exists fp l m bs,
      expanduser sample_env (parse_path (py "/d/new")) = Ok fp
      /\ leads_to (put sample_tree [py "d"; py "new"]
                       (File file_mode [x68; x69]))
                  fp l (File m bs)
      /\ utf8_encode (py "hi") = Some bs
      /\ ReadFileTool.execute sample_env (py "/d/new")
           (put sample_tree [py "d"; py "new"] (File file_mode [x68; x69]))
         = (Ok (if can_r m then universal_newlines (py "hi")
                else py "Error: Permission denied: " ++ py "/d/new"),
            put sample_tree [py "d"; py "new"] (File file_mode [x68; x69])))
  /\ (forallb (fun c => negb (c =? 13)%N) (py "hi") = true ->
      universal_newlines (py "hi") = py "hi").
Proof.
  apply (write_then_read sample_env (py "/d/new") (py "hi") sample_tree).
  reflexivity.
Defined.

(** C5, as stated, fails on a content with a carriage return: what was
    written as ["a\r\nb"] is read back as ["a\nb"]. *)
Lemma write_then_read_carriage_return :
  ~ (forall E path content t t1,
        WriteFileTool.execute E path content t
        = (Ok (py "Successfully wrote " ++ str_of_nat (len content)
               ++ py " bytes to " ++ path), t1) ->
        ReadFileTool.execute E path t1 = (Ok content, t1)).
Proof.
  intros H.
  specialize (H sample_env (py "/d/new") [97; 13; 10; 98]%N sample_tree
                (put sample_tree [py "d"; py "new"]
                     (File file_mode [x61; x0d; x0a; x62]))
                eq_refl).
  vm_compute in H. discriminate.
Qed.















(** * Further properties of the tools *)

(** ** Computations that leave the tree alone *)

Lemma read_only_ret {A} (a : A) : read_only (ret a).
Proof. intros t r t'. now intros [= _ <-]. Qed.

Lemma read_only_raise {A} e : read_only (@raise A e).
Proof. intros t r t'. now intros [= _ <-]. Qed.

Lemma read_only_lift {A} (x : result A) : read_only (lift x).
Proof. intros t r t'. now intros [= _ <-]. Qed.

Lemma read_only_bind {A B} (m : M A) (k : A -> M B) :
  read_only m -> (forall a, read_only (k a)) -> read_only (bind m k).
Proof.
  intros Hm Hk t r t'. unfold bind.
  destruct (m t) as [[a|e] t0] eqn:Hmt; pose proof (Hm _ _ _ Hmt); subst t0.
  - apply Hk.
  - now intros [= _ <-].
Qed.

Lemma read_only_catch {A} (m : M A) h :
  read_only m -> (forall e, read_only (h e)) -> read_only (catch m h).
Proof.
  intros Hm Hh t r t'. unfold catch.
  destruct (m t) as [[a|e] t0] eqn:Hmt; pose proof (Hm _ _ _ Hmt); subst t0.
  - now intros [= _ <-].
  - apply Hh.
Qed.

Lemma read_only_fail {A} c p : read_only (@fail A c p).
Proof. apply read_only_raise. Qed.

Lemma read_only_resolve p : read_only (resolve p).
Proof. intros t r t' H. exact (resolve_state H). Qed.

Lemma read_only_stat_test f p : read_only (stat_test f p).
Proof. intros t r t' H. exact (stat_test_state H). Qed.

Lemma read_only_read_bytes p : read_only (read_bytes p).
Proof.
  unfold read_bytes. apply read_only_bind; [apply read_only_resolve|].
  intros [l [m d|m es]|d nm];
    try destruct (can_r m); auto using read_only_ret, read_only_fail.
Qed.

Lemma read_only_read_text p : read_only (read_text p).
Proof.
  unfold read_text. apply read_only_bind; [apply read_only_read_bytes|].
  intros bs. destruct (utf8_decode bs);
    auto using read_only_ret, read_only_raise.
Qed.

Lemma read_only_os_scandir p : read_only (os_scandir p).
Proof.
  unfold os_scandir. apply read_only_bind; [apply read_only_resolve|].
  intros [l [m d|m es]|d nm];
    try destruct (can_r m); auto using read_only_ret, read_only_fail.
Qed.

Lemma read_only_iterdir p : read_only (iterdir p).
Proof.
  unfold iterdir, os_listdir.
  apply read_only_bind; [|intros names; apply read_only_ret].
  apply read_only_bind; [apply read_only_os_scandir|].
  intros es. apply read_only_ret.
Qed.

Lemma read_only_collect children :
  forall items, read_only (ListDirTool.collect children items).
Proof.
  induction children as [|item rest IH]; intros items; cbn [ListDirTool.collect].
  - apply read_only_ret.
  - apply read_only_bind; [apply read_only_stat_test|]. intros d. apply IH.
Qed.

Lemma read_only_guarded E body denied prefix :
  read_only body -> read_only (guarded E body denied prefix).
Proof.
  intros H. unfold guarded. apply read_only_catch; [exact H|].
  intros e. destruct (isinstance e PermissionError); [apply read_only_ret|].
  destruct (isinstance e Exception);
    auto using read_only_ret, read_only_raise.
Qed.

(** X2.  The two tools that only look, [read_file] and [list_dir], never
    change the file system, whatever the path and whatever they answer. *)
Theorem looking_changes_nothing E path :
  read_only (ReadFileTool.execute E path)
  /\ read_only (ListDirTool.execute E path).
Proof.
  split.
  - unfold ReadFileTool.execute. apply read_only_guarded.
    apply read_only_bind; [apply read_only_lift|]. intros fp.
    apply read_only_bind; [apply read_only_stat_test|]. intros x.
    destruct (negb x); [apply read_only_ret|].
    apply read_only_bind; [apply read_only_stat_test|]. intros f.
    destruct (negb f); [apply read_only_ret|].
    apply read_only_bind; [apply read_only_read_text|]. intros c.
    apply read_only_ret.
  - unfold ListDirTool.execute. apply read_only_guarded.
    apply read_only_bind; [apply read_only_lift|]. intros fp.
    apply read_only_bind; [apply read_only_stat_test|]. intros x.
    destruct (negb x); [apply read_only_ret|].
    apply read_only_bind; [apply read_only_stat_test|]. intros d.
    destruct (negb d); [apply read_only_ret|].
    apply read_only_bind; [apply read_only_iterdir|]. intros cs.
    apply read_only_bind; [apply read_only_collect|]. intros [|i items];
      apply read_only_ret.
Qed.

Lemma looking_changes_nothing_witness :
  snd (ReadFileTool.execute sample_env (py "/vault/key") locked_tree)
  = locked_tree
  /\ snd (ListDirTool.execute sample_env (py "/") sample_tree) = sample_tree.
Proof.
  split.
  - apply (proj1 (looking_changes_nothing sample_env (py "/vault/key"))
             locked_tree
             (fst (ReadFileTool.execute sample_env (py "/vault/key")
                     locked_tree))).
    reflexivity.
  - apply (proj2 (looking_changes_nothing sample_env (py "/")) sample_tree
             (fst (ListDirTool.execute sample_env (py "/") sample_tree))).
    reflexivity.
Defined.

(** ** Paths at which nothing is seen, and paths that may not be followed *)

Lemma stat_test_absent f t p : absent t p -> stat_test f p t = (Ok false, t).
Proof.
  intros [[e He]|[Hu [(d & nm & Hr)|[Hr|Hr]]]].
  - pose proof (fs_argument_Exception _ _ He) as Hv.
    unfold stat_test, catch, os_stat, bind.
    rewrite (resolve_refused _ _ t He).
    destruct (isinstance e OSError) eqn:Ho; [|now rewrite Hv].
    exfalso. revert He Ho. unfold fs_argument.
    destruct (negb (fs_encodable (path_str p))); [now intros [= <-]|].
    destruct (existsb (N.eqb 0) (path_str p)); [now intros [= <-]|].
    discriminate.
  - now apply (stat_test_free f t p d nm).
  - unfold stat_test, catch, os_stat, bind.
    now rewrite (resolve_usable _ _ Hu), Hr.
  - unfold stat_test, catch, os_stat, bind.
    now rewrite (resolve_usable _ _ Hu), Hr.
Qed.

Lemma path_exists_absent t p : absent t p -> path_exists p t = (Ok false, t).
Proof. apply stat_test_absent. Qed.

Lemma path_exists_false_absent t p t' :
  path_exists p t = (Ok false, t') -> absent t p.
Proof.
  intros H. destruct (stat_test_false_inv _ _ _ _ H)
    as [Hn|[(l & n & _ & Hf)|[(d & nm & Hu & Hr)|(Hu & [Hr|Hr])]]].
  - now left.
  - discriminate.
  - right. split; [exact Hu|]. left. eauto.
  - right. split; [exact Hu|]. right; now left.
  - right. split; [exact Hu|]. right; now right.
Qed.

Lemma resolve_unsearchable t p :
  unsearchable t p -> resolve p t = (Raise (os_error EACCES [path_str p]), t).
Proof. intros [Hn Hr]. now rewrite (resolve_usable _ _ Hn), Hr. Qed.

Lemma stat_test_unsearchable f t p :
  unsearchable t p ->
  stat_test f p t = (Raise (os_error EACCES [path_str p]), t).
Proof.
  intros H. unfold stat_test, catch, os_stat, bind.
  now rewrite (resolve_unsearchable _ _ H).
Qed.

(** The answer of a tool whose body raised [PermissionError]. *)
Lemma guarded_denied E body denied prefix t files t' :
  body t = (Raise (os_error EACCES files), t') ->
  guarded E body denied prefix t = (Ok denied, t').
Proof.
  intros H. now rewrite (guarded_raise E _ denied prefix _ _ _ H eq_refl).
Qed.



(** X4.  When the way to the path, a path that the system accepts, goes
    through a directory that may not be searched, the seven tools that begin
    by testing whether the path exists answer with their permission message
    and leave the tree as it is. *)
Theorem unsearchable_path_is_denied E path fp t :
  expanduser E (parse_path path) = Ok fp ->
  unsearchable t fp ->
  ReadFileTool.execute E path t
  = (Ok (py "Error: Permission denied: " ++ path), t)
  /\ (forall old_text new_text,
         EditFileTool.execute E path old_text new_text t
         = (Ok (py "Error: Permission denied: " ++ path), t))
  /\ ListDirTool.execute E path t
     = (Ok (py "Error: Permission denied: " ++ path), t)
  /\ CreateDirTool.execute E path t
     = (Ok (py "Error: Permission denied: " ++ path), t)
  /\ (forall new_name,
         RenameFileTool.execute E path new_name t
         = (Ok (py "Error: Permission denied"), t))
  /\ (forall destination,
         MoveFileTool.execute E path destination t
         = (Ok (py "Error: Permission denied"), t))
  /\ (forall destination,
         CopyFileTool.execute E path destination t
         = (Ok (py "Error: Permission denied"), t)).
Proof.
  intros Hfp Hu.
  pose proof (stat_test_unsearchable (fun _ => true) _ _ Hu) as Hx.
  repeat split; intros;
    unfold ReadFileTool.execute, EditFileTool.execute, ListDirTool.execute,
      RenameFileTool.execute, MoveFileTool.execute, CopyFileTool.execute,
      CreateDirTool.execute;
    apply (guarded_denied E _ _ _ t [path_str fp] t);
    rewrite Hfp; run (lift_ok fp t); apply bind_raise; exact Hx.
Qed.

Lemma unsearchable_path_is_denied_witness :
  ReadFileTool.execute sample_env (py "/vault/key") locked_tree
  = (Ok (py "Error: Permission denied: /vault/key"), locked_tree)
  /\ (forall new_name,
         RenameFileTool.execute sample_env (py "/vault/key") new_name
           locked_tree
         = (Ok (py "Error: Permission denied"), locked_tree)).
Proof.
  split;
    apply (unsearchable_path_is_denied sample_env (py "/vault/key")
             (parse_path (py "/vault/key")) locked_tree eq_refl);
    split; reflexivity.
Defined.

(** ** Reading *)

Lemma universal_newlines_no_cr_upto n :
  forall s, length s <= n -> existsb (N.eqb 13) (universal_newlines s) = false.
Proof.
  induction n as [|n IH]; intros s Hs.
  - destruct s; [reflexivity | cbn in Hs; lia].
  - destruct s as [|c s]; [reflexivity|]. cbn [length] in Hs.
    cbn [universal_newlines]. destruct (c =? 13)%N eqn:Ec.
    + cbn [existsb]. change (13 =? 10)%N with false. cbn [orb].
      destruct s as [|d s']; [reflexivity|]. cbn [length] in Hs.
      destruct (d =? 10)%N; apply IH; cbn [length]; lia.
    + cbn [existsb]. rewrite N.eqb_sym, Ec. cbn [orb]. apply IH. lia.
Qed.

(** What [read_text] returns holds no carriage return. *)
Lemma universal_newlines_no_cr s :
  existsb (N.eqb 13) (universal_newlines s) = false.
Proof. exact (universal_newlines_no_cr_upto (length s) s (le_n _)). Qed.

Lemma read_bytes_file t p l m bs :
  leads_to t p l (File m bs) -> can_r m = true -> read_bytes p t = (Ok bs, t).
Proof.
  intros H Hr. unfold read_bytes. run (resolve_found _ _ _ _ H).
  now rewrite Hr.
Qed.

Lemma read_text_undecodable t p l m bs :
  leads_to t p l (File m bs) -> can_r m = true -> utf8_decode bs = None ->
  read_text p t = (Raise (mkExn UnicodeDecodeError None []), t).
Proof.
  intros H Hr Hd. unfold read_text. run (read_bytes_file _ _ _ _ _ H Hr).
  now rewrite Hd.
Qed.

Lemma read_text_dir t p l m es :
  leads_to t p l (Dir m es) ->
  read_text p t
  = (Raise (os_error (if can_r m then EISDIR else EACCES) [path_str p]), t).
Proof.
  intros H. unfold read_text. apply bind_raise. unfold read_bytes.
  run (resolve_found _ _ _ _ H). now destruct (can_r m).
Qed.

Lemma read_file_on_file E path fp t l m bs text :
  expanduser E (parse_path path) = Ok fp ->
  leads_to t fp l (File m bs) -> can_r m = true ->
  utf8_decode bs = Some text ->
  ReadFileTool.execute E path t = (Ok (universal_newlines text), t).
Proof.
  intros Hfp Hl Hr Hd. unfold ReadFileTool.execute. apply guarded_ok.
  rewrite Hfp. run (lift_ok fp t).
  run (path_exists_found _ _ _ _ Hl). run (is_file_found _ _ _ _ Hl).
  cbn [is_dir_node negb]. run (read_text_file _ _ _ _ _ _ Hl Hr Hd).
  reflexivity.
Qed.

(** X5.  [read_file] on a regular file that may be read and holds UTF-8 text
    returns that text, with every ["\r\n"] and every lone ["\r"] turned into
    ["\n"]: the result never holds a carriage return. *)
Theorem read_file_returns_text E path fp t l m bs text :
  expanduser E (parse_path path) = Ok fp ->
  leads_to t fp l (File m bs) -> can_r m = true ->
  utf8_decode bs = Some text ->
  ReadFileTool.execute E path t = (Ok (universal_newlines text), t)
  /\ existsb (N.eqb 13) (universal_newlines text) = false.
Proof.
  intros Hfp Hl Hr Hd. split; [|apply universal_newlines_no_cr].
  exact (read_file_on_file E path fp t l m bs text Hfp Hl Hr Hd).
Qed.

Lemma read_file_returns_text_witness :
  ReadFileTool.execute sample_env (py "/notes") sample_tree
  = (Ok (universal_newlines (py "a-b-c")), sample_tree)
  /\ existsb (N.eqb 13) (universal_newlines (py "a-b-c")) = false.
Proof.
  apply (read_file_returns_text sample_env (py "/notes")
           (parse_path (py "/notes")) sample_tree [py "notes"] file_mode
           [x61; x2d; x62; x2d; x63] (py "a-b-c") eq_refl
           (conj eq_refl eq_refl) eq_refl eq_refl).
Defined.

(** X6.  What [read_file] refuses: a directory is not a file; a file that may
    not be read gives the permission message; bytes that are no UTF-8 text
    give the decoding error as a reading error.  The tree is unchanged. *)
Theorem read_file_refusals E path fp t l :
  expanduser E (parse_path path) = Ok fp ->
  (forall m es,
      leads_to t fp l (Dir m es) ->
      ReadFileTool.execute E path t
      = (Ok (py "Error: Not a file: " ++ path), t))
  /\ (forall m bs,
         leads_to t fp l (File m bs) -> can_r m = false ->
         ReadFileTool.execute E path t
         = (Ok (py "Error: Permission denied: " ++ path), t))
  /\ (forall m bs,
         leads_to t fp l (File m bs) -> can_r m = true ->
         utf8_decode bs = None ->
         ReadFileTool.execute E path t
         = (Ok (py "Error reading file: "
                ++ exn_str E (mkExn UnicodeDecodeError None [])), t)).
Proof.
  intros Hfp. split; [|split].
  - intros m es Hl. unfold ReadFileTool.execute. apply guarded_ok.
    rewrite Hfp. run (lift_ok fp t).
    run (path_exists_found _ _ _ _ Hl). run (is_file_found _ _ _ _ Hl).
    reflexivity.
  - intros m bs Hl Hr. unfold ReadFileTool.execute.
    apply (guarded_denied E _ _ _ t [path_str fp] t).
    rewrite Hfp. run (lift_ok fp t).
    run (path_exists_found _ _ _ _ Hl). run (is_file_found _ _ _ _ Hl).
    cbn [is_dir_node negb]. apply bind_raise.
    exact (read_text_denied _ _ _ _ _ Hl Hr).
  - intros m bs Hl Hr Hd. unfold ReadFileTool.execute.
    rewrite (guarded_raise E _ _ _ t (mkExn UnicodeDecodeError None []) t);
      [reflexivity| |reflexivity].
    rewrite Hfp. run (lift_ok fp t).
    run (path_exists_found _ _ _ _ Hl). run (is_file_found _ _ _ _ Hl).
    cbn [is_dir_node negb]. apply bind_raise.
    exact (read_text_undecodable _ _ _ _ _ Hl Hr Hd).
Qed.

Lemma read_file_refusals_witness :
  ReadFileTool.execute sample_env (py "/sealed") locked_tree
  = (Ok (py "Error: Permission denied: /sealed"), locked_tree)
  /\ ReadFileTool.execute sample_env (py "/raw") locked_tree
     = (Ok (py "Error reading file: "
            ++ exn_str sample_env (mkExn UnicodeDecodeError None [])),
        locked_tree)
  /\ ReadFileTool.execute sample_env (py "/vault") locked_tree
     = (Ok (py "Error: Not a file: /vault"), locked_tree).
Proof.
  split; [|split].
  - apply (proj1 (proj2 (read_file_refusals sample_env (py "/sealed")
                           (parse_path (py "/sealed")) locked_tree
                           [py "sealed"] eq_refl))
             (mkPerms false false false) [x73]);
      [split|]; reflexivity.
  - apply (proj2 (proj2 (read_file_refusals sample_env (py "/raw")
                           (parse_path (py "/raw")) locked_tree
                           [py "raw"] eq_refl))
             file_mode [xff; xfe]);
      [split| |]; reflexivity.
  - apply (proj1 (read_file_refusals sample_env (py "/vault")
                    (parse_path (py "/vault")) locked_tree
                    [py "vault"] eq_refl)
             (mkPerms false false false) [(py "key", File file_mode [x6b])]).
    split; reflexivity.
Defined.

(** ** Writing *)

Lemma utf8_encode_none s : encodable s = false -> utf8_encode s = None.
Proof.
  intros H. destruct (utf8_encode s) as [bs|] eqn:E; [|reflexivity].
  assert (encodable s = true) by (apply utf8_encode_encodable; eauto).
  congruence.
Qed.

Lemma utf8_encode_cp_length c b :
  utf8_encode_cp c = Some b ->
  1 <= length b /\ (length b = 1 <-> (c <? 0x80)%N = true).
Proof.
  unfold utf8_encode_cp.
  destruct (c <? 0x80)%N;
    [intros H; apply Some_inj in H; subst b; cbn; split; [lia|split; auto]|].
  destruct (c <? 0x800)%N;
    [intros H; apply Some_inj in H; subst b; cbn; split; [lia|split; [lia|discriminate]]|].
  destruct (c <? 0x10000)%N.
  - destruct (is_surrogate c); [discriminate|].
    intros H; apply Some_inj in H; subst b; cbn.
    split; [lia|split; [lia|discriminate]].
  - destruct (c <? 0x110000)%N; [|discriminate].
    intros H; apply Some_inj in H; subst b; cbn.
    split; [lia|split; [lia|discriminate]].
Qed.

(** The encoding has at least one byte for each code point, and exactly
    one for each only when the text is ASCII. *)
Lemma utf8_encode_length s bs :
  utf8_encode s = Some bs ->
  len s <= length bs
  /\ (length bs = len s <-> forallb (fun c => (c <? 0x80)%N) s = true).
Proof.
  unfold len. revert bs. induction s as [|c s IH]; intros bs; cbn [utf8_encode].
  - intros H. apply Some_inj in H. subst bs. cbn. split; [lia|split; auto].
  - destruct (utf8_encode_cp c) as [b|] eqn:Hc; [|discriminate].
    destruct (utf8_encode s) as [bs'|]; [|discriminate].
    intros H. apply Some_inj in H. subst bs.
    destruct (utf8_encode_cp_length _ _ Hc) as [Hb1 Hb2].
    destruct (IH bs' eq_refl) as [Hs1 Hs2].
    rewrite length_app. cbn [length forallb]. split; [lia|].
    rewrite andb_true_iff, <- Hb2, <- Hs2. lia.
Qed.

Lemma mkdir_parent_found t p l n :
  leads_to t p l n -> parts p <> [] ->
  mkdir true true (parent p) t = (Ok tt, t).
Proof.
  intros H Hp. destruct (leads_to_parent _ _ _ _ H Hp) as (l' & m & es & Hl).
  exact (mkdir_existing _ _ _ _ _ Hl).
Qed.

Lemma mkdir_parent_free t p d nm :
  free_at t p d nm -> mkdir true true (parent p) t = (Ok tt, t).
Proof.
  intros H. destruct (free_at_parent _ _ _ _ H) as (m & es & Hl & _).
  exact (mkdir_existing _ _ _ _ _ Hl).
Qed.

Lemma file_below_root t p l m bs :
  is_dir_node t = true -> leads_to t p l (File m bs) -> parts p <> [].
Proof.
  intros Ht [_ Hr] Hp. rewrite Hp in Hr. cbn in Hr.
  injection Hr as _ Hn. subst t. discriminate.
Qed.

Lemma write_text_free t p d nm s bs :
  free_at t p d nm -> can_w (dir_perms t d) = true ->
  utf8_encode s = Some bs ->
  write_text p s t = (Ok tt, put t (d ++ [nm]) (File file_mode bs)).
Proof.
  intros H Hw He. unfold write_text. run (open_w_free _ _ _ _ H Hw).
  rewrite He. unfold write_data, bind, get_tree, set_tree.
  destruct (free_at_dir _ _ _ _ H) as (m & es & Hg).
  now rewrite (get_put_same _ _ _ _ _ _ Hg), put_twice.
Qed.

Lemma write_text_file_unencodable t p l m d s :
  leads_to t p l (File m d) -> can_w m = true -> utf8_encode s = None ->
  write_text p s t
  = (Raise (mkExn UnicodeEncodeError None []), put t l (File m [])).
Proof.
  intros H Hw He. unfold write_text. run (open_w_file _ _ _ _ _ H Hw).
  now rewrite He.
Qed.

Lemma write_text_free_unencodable t p d nm s :
  free_at t p d nm -> can_w (dir_perms t d) = true -> utf8_encode s = None ->
  write_text p s t
  = (Raise (mkExn UnicodeEncodeError None []),
     put t (d ++ [nm]) (File file_mode [])).
Proof.
  intros H Hw He. unfold write_text. run (open_w_free _ _ _ _ H Hw).
  now rewrite He.
Qed.

(** A write that returned has left, at the path, a regular file that may
    be written and holds the encoding of the text. *)
Lemma write_text_ok_inv p s t t' :
  write_text p s t = (Ok tt, t') ->
  exists l m bs, utf8_encode s = Some bs /\ leads_to t' p l (File m bs)
                 /\ can_w m = true.
Proof.
  unfold write_text, bind at 1.
  destruct (open_w p t) as [[l|e] t0] eqn:Ho; [|discriminate].
  destruct (utf8_encode s) as [bs|] eqn:He; [|discriminate].
  revert Ho. unfold open_w, bind at 1.
  destruct (resolve p t) as [[tg|e] t1] eqn:Hr; [|discriminate].
  pose proof (resolve_state Hr). subst t1.
  apply resolve_ok_inv in Hr as [Hn Hr]. unfold bind, get_tree, set_tree.
  destruct tg as [l0 [m d|m es]|d nm]; try discriminate.
  - destruct (can_w m) eqn:Hw; [|discriminate]. intros [= <- <-].
    pose proof (namei_found _ _ _ _ _ Hr) as Hg.
    unfold write_data, bind, get_tree, set_tree.
    rewrite (get_put_exists _ _ _ _ Hg), put_twice. intros [= <-].
    exists l0, m, bs. split; [reflexivity|]. split; [|exact Hw].
    apply (leads_to_put_file t p l0 m d bs). now split.
  - destruct (can_w (dir_perms t d)); [|discriminate]. intros [= <- <-].
    destruct (namei_missing _ _ _ _ _ Hr) as (m & es & Hg & _).
    unfold write_data, bind, get_tree, set_tree.
    rewrite (get_put_same _ _ _ _ _ _ Hg), put_twice. intros [= <-].
    exists (d ++ [nm]), file_mode, bs. split; [reflexivity|].
    split; [|reflexivity]. apply leads_to_put_new. now split.
Qed.

(** [write_file] on a regular file that may be written. *)
Lemma write_file_on_file E path content fp t l m old bs :
  expanduser E (parse_path path) = Ok fp ->
  parts fp <> [] ->
  leads_to t fp l (File m old) -> can_w m = true ->
  utf8_encode content = Some bs ->
  WriteFileTool.execute E path content t
  = (Ok (py "Successfully wrote " ++ str_of_nat (len content)
         ++ py " bytes to " ++ path), put t l (File m bs)).
Proof.
  intros Hfp Hp Hl Hw He. unfold WriteFileTool.execute. apply guarded_ok.
  rewrite Hfp. run (lift_ok fp t). run (mkdir_parent_found _ _ _ _ Hl Hp).
  run (write_text_file _ _ _ _ _ _ _ Hl Hw He). reflexivity.
Qed.

(** What a [write_file] that answered with its success message has done. *)
Lemma write_file_success_inv E path content t t1 :
  WriteFileTool.execute E path content t
  = (Ok (py "Successfully wrote " ++ str_of_nat (len content)
         ++ py " bytes to " ++ path), t1) ->
  exists fp l m bs,
    expanduser E (parse_path path) = Ok fp /\ parts fp <> []
    /\ leads_to t1 fp l (File m bs) /\ can_w m = true
    /\ utf8_encode content = Some bs.
Proof.
  intros H. unfold WriteFileTool.execute, guarded, catch in H.
  match type of H with
  | context [match ?b t with _ => _ end] => destruct (b t) as [[s|e] t0] eqn:Hb
  end.
  - apply ok_inj in H as [_ Ht]. subst t0. revert Hb.
    destruct (expanduser E (parse_path path)) as [fp|e] eqn:Hfp;
      [|discriminate].
    run (lift_ok fp t). unfold bind at 1.
    destruct (mkdir true true (parent fp) t) as [[[]|e] t2] eqn:Hm;
      [|discriminate].
    unfold bind at 1.
    destruct (write_text fp content t2) as [[[]|e] t3] eqn:Hw; [|discriminate].
    intros [= _ Ht]. subst t3.
    destruct (write_text_ok_inv _ _ _ _ Hw) as (l & m & bs & He & Hl & Hcw).
    exists fp, l, m, bs. repeat split; auto; try apply Hl.
    intros Hp. rewrite (parent_rootlike _ Hp) in Hm.
    apply mkdir_post in Hm.
    destruct (is_dir_true_inv _ _ _ Hm) as (l' & m' & es & Hd).
    unfold write_text in Hw. rewrite (bind_raise _ _ _ _ _ (open_w_dir _ _ _ _ _ Hd)) in Hw.
    discriminate.
  - exfalso. destruct (isinstance e PermissionError).
    + apply ok_inj in H as [H _]. symmetry in H. revert H.
      apply first_char_differs; vm_compute; congruence.
    + destruct (isinstance e Exception); [|discriminate].
      apply ok_inj in H as [H _]. symmetry in H. revert H.
      apply first_char_differs; vm_compute; congruence.
Qed.

Lemma set_entry_lookup c v es : lookup c es = Some v -> set_entry c v es = es.
Proof.
  induction es as [|[k w] es IH]; cbn [lookup set_entry]; [discriminate|].
  destruct (str_eqb k c) eqn:Hk.
  - intros H. apply Some_inj in H. apply str_eqb_eq in Hk. now subst.
  - intros H. now rewrite IH.
Qed.

(** Storing at [l] what is there already changes nothing. *)
Lemma put_get t l v : get t l = Some v -> put t l v = t.
Proof.
  revert t. induction l as [|c l IH]; intros t H.
  - cbn in H. apply Some_inj in H. now subst.
  - destruct t as [m d|m es]; [discriminate|]. cbn [get] in H.
    destruct (lookup c es) as [ch|] eqn:Hl; [|discriminate].
    cbn [put]. rewrite Hl. destruct l as [|c2 l].
    + cbn in H. apply Some_inj in H. subst ch.
      now rewrite (set_entry_lookup _ _ _ Hl).
    + rewrite (IH ch H). now rewrite (set_entry_lookup _ _ _ Hl).
Qed.

(** X7.  [write_file] on an existing regular file that may be written replaces
    the whole content by the UTF-8 encoding of the new one; the access bits of
    the file and everything else in the tree stay as they are. *)
Theorem write_file_overwrites E path content fp t l m old bs :
  expanduser E (parse_path path) = Ok fp ->
  is_dir_node t = true ->
  leads_to t fp l (File m old) -> can_w m = true ->
  utf8_encode content = Some bs ->
  WriteFileTool.execute E path content t
  = (Ok (py "Successfully wrote " ++ str_of_nat (len content)
         ++ py " bytes to " ++ path), put t l (File m bs)).
Proof.
  intros Hfp Ht Hl Hw He.
  exact (write_file_on_file E path content fp t l m old bs Hfp
           (file_below_root _ _ _ _ _ Ht Hl) Hl Hw He).
Qed.

Lemma write_file_overwrites_witness :
  WriteFileTool.execute sample_env (py "/notes") (py "hi") sample_tree
  = (Ok (py "Successfully wrote " ++ str_of_nat (len (py "hi"))
         ++ py " bytes to " ++ py "/notes"),
     put sample_tree [py "notes"] (File file_mode [x68; x69])).
Proof.
  apply (write_file_overwrites sample_env (py "/notes") (py "hi")
           (parse_path (py "/notes")) sample_tree [py "notes"] file_mode
           [x61; x2d; x62; x2d; x63] [x68; x69] eq_refl eq_refl
           (conj eq_refl eq_refl) eq_refl eq_refl).
Defined.





(** X10.  After a [write_file] that answered with its success message the file
    holds at least as many bytes as the number [N] of the message, and exactly
    [N] bytes only when the content is ASCII. *)
Theorem write_file_reported_length E path content t t1 :
  WriteFileTool.execute E path content t
  = (Ok (py "Successfully wrote " ++ str_of_nat (len content)
         ++ py " bytes to " ++ path), t1) ->
  exists fp l m bs,
    expanduser E (parse_path path) = Ok fp
    /\ leads_to t1 fp l (File m bs)
    /\ len content <= length bs
    /\ (length bs = len content
        <-> forallb (fun c => (c <? 0x80)%N) content = true).
Proof.
  intros H.
  destruct (write_file_success_inv _ _ _ _ _ H)
    as (fp & l & m & bs & Hfp & _ & Hl & _ & He).
  exists fp, l, m, bs. split; [exact Hfp|]. split; [exact Hl|].
  exact (utf8_encode_length _ _ He).
Qed.

Lemma write_file_reported_length_witness :
  exists fp l m bs,
    expanduser sample_env (parse_path (py "/d/new")) = Ok fp
    /\ leads_to (put sample_tree [py "d"; py "new"]
                     (File file_mode [xc3; xa9])) fp l (File m bs)
    /\ len [233%N] <= length bs
    /\ (length bs = len [233%N]
        <-> forallb (fun c => (c <? 0x80)%N) [233%N] = true).
Proof.
  apply (write_file_reported_length sample_env (py "/d/new") [233%N]
           sample_tree).
  reflexivity.
Defined.

(** X11.  Writing is idempotent and the last write wins: after a [write_file]
    that answered with its success message, the same call again gives the same
    answer and the same tree, and a call with another content that can be
    encoded replaces the content of that file and nothing else. *)
Theorem write_file_again E path content t t1 :
  WriteFileTool.execute E path content t
  = (Ok (py "Successfully wrote " ++ str_of_nat (len content)
         ++ py " bytes to " ++ path), t1) ->
  WriteFileTool.execute E path content t1
  = (Ok (py "Successfully wrote " ++ str_of_nat (len content)
         ++ py " bytes to " ++ path), t1)
  /\ exists fp l m bs,
       expanduser E (parse_path path) = Ok fp
       /\ leads_to t1 fp l (File m bs)
       /\ forall content' bs',
            utf8_encode content' = Some bs' ->
            WriteFileTool.execute E path content' t1
            = (Ok (py "Successfully wrote " ++ str_of_nat (len content')
                   ++ py " bytes to " ++ path), put t1 l (File m bs')).
Proof.
  intros H.
  destruct (write_file_success_inv _ _ _ _ _ H)
    as (fp & l & m & bs & Hfp & Hp & Hl & Hw & He).
  assert (Hnext : forall content' bs',
             utf8_encode content' = Some bs' ->
             WriteFileTool.execute E path content' t1
             = (Ok (py "Successfully wrote " ++ str_of_nat (len content')
                    ++ py " bytes to " ++ path), put t1 l (File m bs'))).
  { intros content' bs' He'.
    exact (write_file_on_file E path content' fp t1 l m bs bs' Hfp Hp Hl Hw
             He'). }
  split.
  - rewrite (Hnext content bs He). f_equal.
    exact (put_get _ _ _ (namei_found _ _ _ _ _ (proj2 Hl))).
  - exists fp, l, m, bs. auto.
Qed.

Lemma write_file_again_witness :
  WriteFileTool.execute sample_env (py "/d/new") (py "hi")
    (put sample_tree [py "d"; py "new"] (File file_mode [x68; x69]))
  = (Ok (py "Successfully wrote " ++ str_of_nat (len (py "hi"))
         ++ py " bytes to " ++ py "/d/new"),
     put sample_tree [py "d"; py "new"] (File file_mode [x68; x69])).
Proof.
  apply (write_file_again sample_env (py "/d/new") (py "hi") sample_tree).
  reflexivity.
Defined.

(** ** Editing *)

Lemma no_cr_app a b :
  forallb (fun c => negb (c =? 13)%N) (a ++ b)
  = forallb (fun c => negb (c =? 13)%N) a
    && forallb (fun c => negb (c =? 13)%N) b.
Proof. apply forallb_app. Qed.

Lemma no_cr_existsb s :
  existsb (N.eqb 13) s = false ->
  forallb (fun c => negb (c =? 13)%N) s = true.
Proof.
  induction s as [|c s IH]; [reflexivity|]. cbn [existsb forallb].
  intros H. apply orb_false_iff in H as [Hc Hs].
  rewrite N.eqb_sym, Hc. now apply IH.
Qed.

Lemma utf8_decode_nonempty b bs text :
  utf8_decode (b :: bs) = Some text -> text <> [].
Proof.
  cbn [utf8_decode].
  repeat match goal with
         | |- context [if ?c then _ else _] => destruct c
         | |- context [match ?l with [] => _ | _ :: _ => _ end] => destruct l
         end;
    try discriminate;
    match goal with
    | |- option_map _ ?o = _ -> _ => destruct o; cbn; congruence
    end.
Qed.

Lemma universal_newlines_nonempty s : s <> [] -> universal_newlines s <> [].
Proof.
  destruct s as [|c s]; [congruence|]. intros _. cbn [universal_newlines].
  destruct (c =? 13)%N; discriminate.
Qed.

(** X12.  Reading before and after an edit.  When [str.count] finds one
    occurrence of [old_text] in what [read_file] returns, the file may be
    written and [new_text] can be encoded and holds no carriage return,
    [edit_file] succeeds and [read_file] then returns what it returned before
    with the leftmost occurrence replaced. *)
Theorem edit_then_read E path old_text new_text fp t l m bs text :
  expanduser E (parse_path path) = Ok fp ->
  leads_to t fp l (File m bs) -> can_r m = true -> can_w m = true ->
  utf8_decode bs = Some text ->
  count (universal_newlines text) old_text = 1 ->
  encodable new_text = true ->
  existsb (N.eqb 13) new_text = false ->
  exists nb,
    ReadFileTool.execute E path t = (Ok (universal_newlines text), t)
    /\ EditFileTool.execute E path old_text new_text t
       = (Ok (py "Successfully edited " ++ path), put t l (File m nb))
    /\ ReadFileTool.execute E path (put t l (File m nb))
       = (Ok (replace_first (universal_newlines text) old_text new_text),
          put t l (File m nb)).
Proof.
  intros Hfp Hl Hr Hw Hd Hc Hnew Hcr.
  destruct (edit_file_applies E path old_text new_text fp t l m bs text
              Hfp Hl Hr Hd Hc) as (pre & post & Hsplit & Hrep & Hrun).
  pose proof (universal_newlines_no_cr text) as Hno.
  rewrite Hsplit in Hno. rewrite !existsb_app in Hno.
  apply orb_false_iff in Hno as [Hpre Hno].
  apply orb_false_iff in Hno as [_ Hpost].
  assert (Henc : encodable (pre ++ new_text ++ post) = true).
  { assert (Hcont : encodable (universal_newlines text) = true).
    { apply encodable_universal_newlines.
      exact (utf8_decode_encodable _ _ Hd). }
    rewrite Hsplit, !encodable_app in Hcont. rewrite !encodable_app.
    apply andb_prop in Hcont as [Hp Hcont].
    apply andb_prop in Hcont as [_ Hq]. now rewrite Hp, Hnew, Hq. }
  apply utf8_encode_encodable in Henc as [nb Hnb].
  exists nb. split; [|split].
  - now apply (read_file_on_file E path fp t l m bs text).
  - rewrite Hrun. apply guarded_ok.
    now run (write_text_file _ _ _ _ _ _ _ Hl Hw Hnb).
  - rewrite Hrep.
    replace (pre ++ new_text ++ post)
      with (universal_newlines (pre ++ new_text ++ post)).
    + apply (read_file_on_file E path fp _ l m nb
               (pre ++ new_text ++ post) Hfp); auto.
      * exact (leads_to_put_file _ _ _ _ _ nb Hl).
      * exact (utf8_decode_encode _ _ Hnb).
    + apply universal_newlines_id. rewrite !no_cr_app.
      now rewrite (no_cr_existsb _ Hpre), (no_cr_existsb _ Hcr),
        (no_cr_existsb _ Hpost).
Qed.

Lemma edit_then_read_witness :
  exists nb,
    ReadFileTool.execute sample_env (py "/notes") sample_tree
    = (Ok (universal_newlines (py "a-b-c")), sample_tree)
    /\ EditFileTool.execute sample_env (py "/notes") (py "b") (py "X")
         sample_tree
       = (Ok (py "Successfully edited " ++ py "/notes"),
          put sample_tree [py "notes"] (File file_mode nb))
    /\ ReadFileTool.execute sample_env (py "/notes")
         (put sample_tree [py "notes"] (File file_mode nb))
       = (Ok (replace_first (universal_newlines (py "a-b-c")) (py "b")
                            (py "X")),
          put sample_tree [py "notes"] (File file_mode nb)).
Proof.
  apply (edit_then_read sample_env (py "/notes") (py "b") (py "X")
           (parse_path (py "/notes")) sample_tree [py "notes"] file_mode
           [x61; x2d; x62; x2d; x63] (py "a-b-c") eq_refl
           (conj eq_refl eq_refl) eq_refl eq_refl eq_refl eq_refl eq_refl
           eq_refl).
Defined.

(** X13.  A [new_text] that UTF-8 cannot carry (a lone surrogate) destroys the
    file: the edit is refused with an editing error only after the file has
    been opened for writing, and the file is left empty. *)
Theorem edit_file_unencodable E path old_text new_text fp t l m bs text :
  expanduser E (parse_path path) = Ok fp ->
  leads_to t fp l (File m bs) -> can_r m = true -> can_w m = true ->
  utf8_decode bs = Some text ->
  count (universal_newlines text) old_text = 1 ->
  encodable new_text = false ->
  EditFileTool.execute E path old_text new_text t
  = (Ok (py "Error editing file: "
         ++ exn_str E (mkExn UnicodeEncodeError None [])),
     put t l (File m [])).
Proof.
  intros Hfp Hl Hr Hw Hd Hc Hnew.
  destruct (edit_file_applies E path old_text new_text fp t l m bs text
              Hfp Hl Hr Hd Hc) as (pre & post & _ & _ & Hrun).
  assert (Henc : utf8_encode (pre ++ new_text ++ post) = None).
  { apply utf8_encode_none. rewrite !encodable_app, Hnew.
    now rewrite andb_false_r. }
  rewrite Hrun.
  rewrite (guarded_raise E _ _ _ t (mkExn UnicodeEncodeError None [])
             (put t l (File m []))); [reflexivity| |reflexivity].
  apply bind_raise.
  exact (write_text_file_unencodable _ _ _ _ _ _ Hl Hw Henc).
Qed.

Lemma edit_file_unencodable_witness :
  EditFileTool.execute sample_env (py "/notes") (py "b") [0xDFFF%N]
    sample_tree
  = (Ok (py "Error editing file: "
         ++ exn_str sample_env (mkExn UnicodeEncodeError None [])),
     put sample_tree [py "notes"] (File file_mode [])).
Proof.
  apply (edit_file_unencodable sample_env (py "/notes") (py "b") [0xDFFF%N]
           (parse_path (py "/notes")) sample_tree [py "notes"] file_mode
           [x61; x2d; x62; x2d; x63] (py "a-b-c") eq_refl
           (conj eq_refl eq_refl) eq_refl eq_refl eq_refl eq_refl eq_refl).
Defined.

(** X14.  An empty [old_text].  In a file that is not empty the empty string
    is counted once more than there are characters, so the edit is refused
    with the warning and nothing is written; in an empty file it is counted
    once, and the file becomes [new_text]. *)
Theorem edit_file_empty_old_text E path new_text fp t l m :
  expanduser E (parse_path path) = Ok fp ->
  can_r m = true ->
  (forall b bs text,
      leads_to t fp l (File m (b :: bs)) ->
      utf8_decode (b :: bs) = Some text ->
      EditFileTool.execute E path [] new_text t
      = (Ok (py "Warning: old_text appears "
             ++ str_of_nat (S (len (universal_newlines text)))
             ++ py " times. Please provide more context to make it unique."),
         t))
  /\ (forall nb,
         leads_to t fp l (File m []) -> can_w m = true ->
         utf8_encode new_text = Some nb ->
         EditFileTool.execute E path [] new_text t
         = (Ok (py "Successfully edited " ++ path), put t l (File m nb))).
Proof.
  intros Hfp Hr. split.
  - intros b bs text Hl Hd.
    pose proof (universal_newlines_nonempty _ (utf8_decode_nonempty _ _ _ Hd))
      as Hne.
    unfold EditFileTool.execute. apply guarded_ok.
    rewrite Hfp. run (lift_ok fp t). run (path_exists_found _ _ _ _ Hl).
    run (read_text_file _ _ _ _ _ _ Hl Hr Hd).
    destruct (universal_newlines text) as [|c s]; [congruence|].
    reflexivity.
  - intros nb Hl Hw He.
    unfold EditFileTool.execute. apply guarded_ok.
    rewrite Hfp. run (lift_ok fp t). run (path_exists_found _ _ _ _ Hl).
    run (read_text_file _ _ _ _ _ [] Hl Hr eq_refl).
    cbn [universal_newlines contains startswith negb count length
         Nat.ltb Nat.leb orb replace_first skipn].
    rewrite app_nil_r.
    now run (write_text_file _ _ _ _ _ _ _ Hl Hw He).
Qed.

Lemma edit_file_empty_old_text_witness :
  EditFileTool.execute sample_env (py "/notes") [] (py "X") sample_tree
  = (Ok (py "Warning: old_text appears "
         ++ str_of_nat (S (len (universal_newlines (py "a-b-c"))))
         ++ py " times. Please provide more context to make it unique."),
     sample_tree)
  /\ EditFileTool.execute sample_env (py "/a/f") [] (py "X") sample_tree
     = (Ok (py "Successfully edited " ++ py "/a/f"),
        put sample_tree [py "a"; py "f"] (File file_mode [x58])).
Proof.
  split.
  - apply (proj1 (edit_file_empty_old_text sample_env (py "/notes") (py "X")
                    (parse_path (py "/notes")) sample_tree [py "notes"]
                    file_mode eq_refl eq_refl)
             x61 [x2d; x62; x2d; x63] (py "a-b-c")
             (conj eq_refl eq_refl) eq_refl).
  - apply (proj2 (edit_file_empty_old_text sample_env (py "/a/f") (py "X")
                    (parse_path (py "/a/f")) sample_tree [py "a"; py "f"]
                    file_mode eq_refl eq_refl)
             [x58] (conj eq_refl eq_refl) eq_refl eq_refl).
Defined.

(** X15.  What [edit_file] refuses once the path exists: a directory cannot be
    read as a file and gives an editing error; a file that may not be read, or
    that may be read but not written when the edit applies, gives the
    permission message; bytes that are no UTF-8 text give the decoding error.
    The tree is unchanged in every case. *)
Theorem edit_file_refusals E path old_text new_text fp t l :
  expanduser E (parse_path path) = Ok fp ->
  (forall m es,
      leads_to t fp l (Dir m es) -> can_r m = true ->
      EditFileTool.execute E path old_text new_text t
      = (Ok (py "Error editing file: "
             ++ exn_str E (os_error EISDIR [path_str fp])), t))
  /\ (forall n,
         leads_to t fp l n -> can_r (mode_of n) = false ->
         EditFileTool.execute E path old_text new_text t
         = (Ok (py "Error: Permission denied: " ++ path), t))
  /\ (forall m bs,
         leads_to t fp l (File m bs) -> can_r m = true ->
         utf8_decode bs = None ->
         EditFileTool.execute E path old_text new_text t
         = (Ok (py "Error editing file: "
                ++ exn_str E (mkExn UnicodeDecodeError None [])), t))
  /\ (forall m bs text,
         leads_to t fp l (File m bs) -> can_r m = true ->
         utf8_decode bs = Some text ->
         count (universal_newlines text) old_text = 1 ->
         can_w m = false ->
         EditFileTool.execute E path old_text new_text t
         = (Ok (py "Error: Permission denied: " ++ path), t)).
Proof.
  intros Hfp. split; [|split; [|split]].
  - intros m es Hl Hr. unfold EditFileTool.execute.
    rewrite (guarded_raise E _ _ _ t (os_error EISDIR [path_str fp]) t);
      [reflexivity| |reflexivity].
    rewrite Hfp. run (lift_ok fp t). run (path_exists_found _ _ _ _ Hl).
    apply bind_raise. rewrite (read_text_dir _ _ _ _ _ Hl). now rewrite Hr.
  - intros n Hl Hr. unfold EditFileTool.execute.
    apply (guarded_denied E _ _ _ t [path_str fp] t).
    rewrite Hfp. run (lift_ok fp t). run (path_exists_found _ _ _ _ Hl).
    apply bind_raise. destruct n as [m bs|m es]; cbn [mode_of] in Hr.
    + exact (read_text_denied _ _ _ _ _ Hl Hr).
    + rewrite (read_text_dir _ _ _ _ _ Hl). now rewrite Hr.
  - intros m bs Hl Hr Hd. unfold EditFileTool.execute.
    rewrite (guarded_raise E _ _ _ t (mkExn UnicodeDecodeError None []) t);
      [reflexivity| |reflexivity].
    rewrite Hfp. run (lift_ok fp t). run (path_exists_found _ _ _ _ Hl).
    apply bind_raise. exact (read_text_undecodable _ _ _ _ _ Hl Hr Hd).
  - intros m bs text Hl Hr Hd Hc Hw.
    destruct (edit_file_applies E path old_text new_text fp t l m bs text
                Hfp Hl Hr Hd Hc) as (pre & post & _ & _ & Hrun).
    rewrite Hrun. apply (guarded_denied E _ _ _ t [path_str fp] t).
    apply bind_raise. unfold write_text. apply bind_raise.
    exact (open_w_file_denied _ _ _ _ _ Hl Hw).
Qed.

Lemma edit_file_refusals_witness :
  EditFileTool.execute sample_env (py "/d") (py "b") (py "X") sample_tree
  = (Ok (py "Error editing file: "
         ++ exn_str sample_env
              (os_error EISDIR [path_str (parse_path (py "/d"))])),
     sample_tree)
  /\ EditFileTool.execute sample_env (py "/sealed") (py "b") (py "X")
       locked_tree
     = (Ok (py "Error: Permission denied: " ++ py "/sealed"), locked_tree).
Proof.
  split.
  - apply (proj1 (edit_file_refusals sample_env (py "/d") (py "b") (py "X")
                    (parse_path (py "/d")) sample_tree [py "d"] eq_refl)
             dir_mode [] (conj eq_refl eq_refl) eq_refl).
  - apply (proj1 (proj2 (edit_file_refusals sample_env (py "/sealed")
                           (py "b") (py "X") (parse_path (py "/sealed"))
                           locked_tree [py "sealed"] eq_refl))
             (File (mkPerms false false false) [x73])
             (conj eq_refl eq_refl) eq_refl).
Defined.

Lemma edit_file_ambiguous_witness :
  EditFileTool.execute sample_env (py "/n") (py "foo") (py "bar")
    (Dir dir_mode
         [(py "n", File file_mode [x66; x6f; x6f; x20; x66; x6f; x6f])])
  = (Ok (py "Warning: old_text appears "
         ++ str_of_nat (count (universal_newlines (py "foo foo")) (py "foo"))
         ++ py " times. Please provide more context to make it unique."),
     Dir dir_mode
         [(py "n", File file_mode [x66; x6f; x6f; x20; x66; x6f; x6f])]).
Proof.
  apply (edit_file_ambiguous sample_env (py "/n") (py "foo") (py "bar")
           (parse_path (py "/n"))
           (Dir dir_mode
                [(py "n",
                  File file_mode [x66; x6f; x6f; x20; x66; x6f; x6f])])
           [py "n"] file_mode
           [x66; x6f; x6f; x20; x66; x6f; x6f] (py "foo foo") eq_refl
           (conj eq_refl eq_refl) eq_refl eq_refl).
  vm_compute. lia.
Defined.

(** ** Listing *)

Lemma str_ltb_irrefl a : str_ltb a a = false.
Proof.
  induction a as [|x a IH]; [reflexivity|]. cbn [str_ltb].
  now rewrite N.ltb_irrefl, N.eqb_refl, IH.
Qed.

Lemma str_ltb_trans a : forall b c,
  str_ltb a b = true -> str_ltb b c = true -> str_ltb a c = true.
Proof.
  induction a as [|x a IH]; intros [|y b] [|z c]; cbn [str_ltb];
    try discriminate; try reflexivity.
  intros H1 H2.
  apply orb_true_iff in H1 as [H1|H1]; apply orb_true_iff in H2 as [H2|H2].
  - apply N.ltb_lt in H1, H2.
    assert (H : (x <? z)%N = true) by (apply N.ltb_lt; lia). now rewrite H.
  - apply andb_prop in H2 as [E H2]. apply N.eqb_eq in E. subst z.
    now rewrite H1.
  - apply andb_prop in H1 as [E H1]. apply N.eqb_eq in E. subst y.
    now rewrite H2.
  - apply andb_prop in H1 as [E1 H1]. apply andb_prop in H2 as [E2 H2].
    apply N.eqb_eq in E1, E2. subst y z.
    rewrite N.eqb_refl, (IH _ _ H1 H2). apply orb_true_r.
Qed.

Lemma str_ltb_total a : forall b,
  a <> b -> str_ltb a b = false -> str_ltb b a = true.
Proof.
  induction a as [|x a IH]; intros [|y b]; cbn [str_ltb];
    try congruence; try reflexivity.
  intros Hne H. apply orb_false_iff in H as [H1 H2].
  apply N.ltb_ge in H1. destruct (N.eq_dec x y) as [->|Hxy].
  - rewrite N.eqb_refl in *. cbn [andb] in H2.
    rewrite IH; [apply orb_true_r| |exact H2]. congruence.
  - assert (H : (y <? x)%N = true) by (apply N.ltb_lt; lia). now rewrite H.
Qed.

Lemma parts_ltb_siblings l a b :
  parts_ltb (l ++ [a]) (l ++ [b]) = str_ltb a b.
Proof.
  induction l as [|x l IH]; cbn [app parts_ltb].
  - now rewrite andb_false_r, orb_false_r.
  - now rewrite str_ltb_irrefl, str_eqb_refl, IH.
Qed.

Lemma path_ltb_siblings p a b :
  path_ltb (child p a) (child p b) = str_ltb a b.
Proof.
  unfold path_ltb, cparts, child. cbn [root parts].
  destruct (root p) as [|c r].
  - apply parts_ltb_siblings.
  - apply (parts_ltb_siblings ((c :: r) :: parts p)).
Qed.

Lemma distinct_NoDup l : distinct l = true -> NoDup l.
Proof.
  induction l as [|x l IH]; [constructor|]. cbn [distinct].
  intros H. apply andb_prop in H as [Hx Hl]. constructor; [|auto].
  apply negb_true_iff in Hx. intros Hin.
  assert (existsb (str_eqb x) l = true); [|congruence].
  apply existsb_exists. exists x. split; [exact Hin | apply str_eqb_refl].
Qed.

(** One step of the insertion sort, seen on the entries. *)
Lemma insert_sorted_entries p a o :
  ~ In (fst a) (map fst o) -> StronglySorted by_name o ->
  exists o',
    insert_sorted (child p (fst a)) (map (fun kv => child p (fst kv)) o)
    = map (fun kv => child p (fst kv)) o'
    /\ Permutation o' (a :: o) /\ StronglySorted by_name o'.
Proof.
  induction o as [|y o IH]; intros Hnot Hs.
  - exists [a]. repeat split; auto. repeat constructor.
  - cbn [map insert_sorted]. rewrite path_ltb_siblings.
    apply StronglySorted_inv in Hs as [Hs Hy].
    destruct (str_ltb (fst y) (fst a)) eqn:E.
    + destruct IH as (o' & Heq & Hp & Hso); [cbn in Hnot; tauto|exact Hs|].
      exists (y :: o'). split; [cbn [map]; now rewrite Heq|]. split.
      * rewrite Hp. apply perm_swap.
      * constructor; [exact Hso|].
        apply (Permutation_Forall (Permutation_sym Hp)).
        constructor; [exact E | exact Hy].
    + exists (a :: y :: o). split; [reflexivity|]. split; [reflexivity|].
      assert (Hay : by_name a y).
      { apply str_ltb_total; [|exact E]. cbn in Hnot. intros Heq.
        apply Hnot. now left. }
      constructor; [constructor; assumption|].
      constructor; [exact Hay|].
      eapply Forall_impl; [|exact Hy]. intros z Hz.
      exact (str_ltb_trans _ _ _ Hay Hz).
Qed.

(** [sorted] puts the children of a directory in ascending order of their
    names. *)
Lemma sorted_entries p es :
  NoDup (map fst es) ->
  exists o,
    sorted (map (fun kv => child p (fst kv)) es)
    = map (fun kv => child p (fst kv)) o
    /\ Permutation o es /\ StronglySorted by_name o.
Proof.
  induction es as [|a es IH]; intros Hnd.
  - exists []. repeat split; auto. constructor.
  - cbn [map] in Hnd. apply NoDup_cons_iff in Hnd as [Hnot Hnd].
    destruct (IH Hnd) as (o & Heq & Hp & Hs).
    destruct (insert_sorted_entries p a o) as (o' & Heq' & Hp' & Hs');
      [|exact Hs|].
    { intros Hin. apply Hnot.
      apply (Permutation_in _ (Permutation_map fst Hp) Hin). }
    exists o'. split; [|split; [|exact Hs']].
    + cbn [map]. unfold sorted in *. cbn [fold_right]. now rewrite Heq.
    + rewrite Hp'. now constructor.
Qed.

Lemma In_lookup es c ch :
  distinct (map fst es) = true -> In (c, ch) es -> lookup c es = Some ch.
Proof.
  intros Hd Hin. apply in_split in Hin as (es1 & es2 & ->).
  exact (proj2 (entry_lookup es1 c ch es2 Hd)).
Qed.

Lemma path_name_child p c : path_name (child p c) = c.
Proof. unfold path_name, child. cbn [parts]. apply last_last. Qed.

Lemma iterdir_dir t p l m es :
  leads_to t p l (Dir m es) -> can_r m = true ->
  iterdir p t = (Ok (map (fun kv => child p (fst kv)) es), t).
Proof.
  intros H Hr. unfold iterdir, os_listdir.
  rewrite (bind_ok _ _ _ _ _
             (bind_ok _ _ _ _ _ (os_scandir_dir _ _ _ _ _ H Hr))).
  unfold ret. now rewrite !map_map.
Qed.

(** The loop of [list_dir] over children that can all be examined. *)
Lemma collect_entries t p o :
  (forall kv, In kv o ->
              is_dir (child p (fst kv)) t = (Ok (is_dir_node (snd kv)), t)) ->
  forall items,
    ListDirTool.collect (map (fun kv => child p (fst kv)) o) items t
    = (Ok (items ++ map listing_line o), t).
Proof.
  induction o as [|kv o IH]; intros H items; cbn [map ListDirTool.collect].
  - unfold ret. now rewrite app_nil_r.
  - run (H kv (or_introl eq_refl)). rewrite path_name_child.
    rewrite IH by (intros kv' Hin; apply H; now right).
    now rewrite <- app_assoc.
Qed.

Lemma list_dir_empty_dir E path fp t l m :
  expanduser E (parse_path path) = Ok fp ->
  leads_to t fp l (Dir m []) -> can_r m = true ->
  ListDirTool.execute E path t
  = (Ok (py "Directory " ++ path ++ py " is empty"), t).
Proof.
  intros Hfp Hl Hr. unfold ListDirTool.execute. apply guarded_ok.
  rewrite Hfp. run (lift_ok fp t).
  run (path_exists_found _ _ _ _ Hl). run (is_dir_found _ _ _ _ Hl).
  cbn [is_dir_node negb]. run (iterdir_dir _ _ _ _ _ Hl Hr). reflexivity.
Qed.

Lemma list_dir_on_dir E path fp t l m es :
  expanduser E (parse_path path) = Ok fp ->
  leads_to t fp l (Dir m es) -> can_r m = true ->
  es <> [] -> can_x m = true ->
  forallb valid_name (map fst es) = true ->
  forallb (fun kv => usable (child fp (fst kv))) es = true ->
  distinct (map fst es) = true ->
  exists order,
    Permutation order es /\ StronglySorted by_name order
    /\ ListDirTool.execute E path t
       = (Ok (join [10%N] (map listing_line order)), t).
Proof.
  intros Hfp Hl Hr Hne Hx Hv Hu Hd.
  destruct (sorted_entries fp es (distinct_NoDup _ Hd))
    as (o & Heq & Hp & Hs).
  exists o. split; [exact Hp|]. split; [exact Hs|].
  assert (Hkids : forall kv, In kv o ->
             is_dir (child fp (fst kv)) t
             = (Ok (is_dir_node (snd kv)), t)).
  { intros [c ch] Hin. apply (Permutation_in _ Hp) in Hin. cbn [fst snd].
    apply (is_dir_found t _ (l ++ [c]) ch).
    apply (leads_to_child t fp l m es c ch Hl Hx).
    - rewrite forallb_forall in Hv. apply Hv.
      apply (in_map fst) in Hin. exact Hin.
    - rewrite forallb_forall in Hu. exact (Hu _ Hin).
    - exact (In_lookup es c ch Hd Hin). }
  unfold ListDirTool.execute. apply guarded_ok.
  rewrite Hfp. run (lift_ok fp t).
  run (path_exists_found _ _ _ _ Hl). run (is_dir_found _ _ _ _ Hl).
  cbn [is_dir_node negb]. run (iterdir_dir _ _ _ _ _ Hl Hr).
  rewrite Heq. run (collect_entries t fp o Hkids []). cbn [app].
  destruct o as [|kv o]; [|reflexivity].
  apply Permutation_nil in Hp. congruence.
Qed.

(** X16.  [list_dir] on a directory that may be listed and searched prints one
    line for each entry, the marker of its kind before its name, the lines in
    ascending order of the names, joined by newlines; the tree is unchanged.
    The entries bear valid names and the path of each of them is one that
    the system accepts (it stays below [PATH_MAX]).  An empty directory is
    reported as empty. *)
Theorem list_dir_listing E path fp t l m es :
  expanduser E (parse_path path) = Ok fp ->
  leads_to t fp l (Dir m es) -> can_r m = true ->
  (es = [] ->
   ListDirTool.execute E path t
   = (Ok (py "Directory " ++ path ++ py " is empty"), t))
  /\ (es <> [] -> can_x m = true ->
      forallb valid_name (map fst es) = true ->
      forallb (fun kv => usable (child fp (fst kv))) es = true ->
      distinct (map fst es) = true ->
      exists order,
        Permutation order es /\ StronglySorted by_name order
        /\ ListDirTool.execute E path t
           = (Ok (join [10%N] (map listing_line order)), t)).
Proof.
  intros Hfp Hl Hr. split.
  - intros ->. exact (list_dir_empty_dir E path fp t l m Hfp Hl Hr).
  - intros Hne Hx Hv Hu Hd.
    exact (list_dir_on_dir E path fp t l m es Hfp Hl Hr Hne Hx Hv Hu Hd).
Qed.

Lemma list_dir_listing_witness :
  exists order,
    Permutation order
      [ (py "a", Dir dir_mode [ (py "f", File file_mode []) ]);
        (py "d", Dir dir_mode []);
        (py "notes", File file_mode [x61; x2d; x62; x2d; x63]) ]
    /\ StronglySorted by_name order
    /\ ListDirTool.execute sample_env (py "/") sample_tree
       = (Ok (join [10%N] (map listing_line order)), sample_tree).
Proof.
  apply (proj2 (list_dir_listing sample_env (py "/") (parse_path (py "/"))
                  sample_tree [] dir_mode _ eq_refl (conj eq_refl eq_refl)
                  eq_refl)); [discriminate|reflexivity..].
Defined.

(** A directory may exist and be listed although the paths of its entries
    are too long for the system: with the directory at a path of 4016 bytes
    and an entry of 250 bytes, [is_dir] on the entry raises [OSError] 36
    and [list_dir] answers with its general error. *)
Lemma list_dir_entry_path_too_long :
  let fp := parse_path deep_path in
  leads_to deep_tree fp (repeat long_name 16)
           (Dir dir_mode [(long_name, File file_mode [])])
  /\ valid_name long_name = true
  /\ usable (child fp long_name) = false
  /\ ListDirTool.execute sample_env deep_path deep_tree
     = (Ok (py "Error listing directory: "
            ++ exn_str sample_env
                 (os_error ENAMETOOLONG [path_str (child fp long_name)])),
        deep_tree).
Proof. cbv zeta. repeat split; vm_compute; reflexivity. Qed.

Lemma insert_sorted_in q x l : In q (insert_sorted x l) -> q = x \/ In q l.
Proof.
  induction l as [|y l IH]; cbn [insert_sorted].
  - intros [->|[]]. now left.
  - destruct (path_ltb y x); cbn [In].
    + intros [->|H]; [right; now left|].
      destruct (IH H) as [->|H']; [now left | right; now right].
    + intros [->|[->|H]]; [now left | right; now left | right; now right].
Qed.

Lemma sorted_in q ps : In q (sorted ps) -> In q ps.
Proof.
  induction ps as [|x ps IH]; [intros []|].
  unfold sorted. cbn [fold_right]. fold (sorted ps). intros H.
  destruct (insert_sorted_in _ _ _ H) as [->|H']; [now left|].
  right. now apply IH.
Qed.

Lemma sorted_nonempty p (es : list (str * node)) :
  es <> [] ->
  exists c rest,
    sorted (map (fun kv => child p (fst kv)) es) = child p c :: rest
    /\ In c (map fst es).
Proof.
  destruct es as [|a es]; [congruence|]. intros _.
  destruct (sorted (map (fun kv => child p (fst kv)) (a :: es)))
    as [|q rest] eqn:Hs.
  - exfalso. revert Hs. cbn [map]. unfold sorted. cbn [fold_right].
    generalize (fold_right insert_sorted []
                  (map (fun kv => child p (fst kv)) es)).
    intros l. destruct l as [|y l]; cbn [insert_sorted]; [discriminate|].
    destruct (path_ltb y (child p (fst a))); discriminate.
  - assert (Hin : In q (map (fun kv => child p (fst kv)) (a :: es))).
    { apply sorted_in. rewrite Hs. now left. }
    apply in_map_iff in Hin as (kv & <- & Hin).
    exists (fst kv), rest. split; [reflexivity|].
    exact (in_map fst _ _ Hin).
Qed.

(** X17.  What [list_dir] refuses once the path exists: a regular file is not
    a directory; a directory that may not be listed gives the permission
    message, and so does a directory with entries that may be listed but not
    searched, since the kind of its entries cannot be told (the paths of
    the entries being paths that the system accepts). *)
Theorem list_dir_refusals E path fp t l :
  expanduser E (parse_path path) = Ok fp ->
  (forall m bs,
      leads_to t fp l (File m bs) ->
      ListDirTool.execute E path t
      = (Ok (py "Error: Not a directory: " ++ path), t))
  /\ (forall m es,
         leads_to t fp l (Dir m es) -> can_r m = false ->
         ListDirTool.execute E path t
         = (Ok (py "Error: Permission denied: " ++ path), t))
  /\ (forall m es,
         leads_to t fp l (Dir m es) -> can_r m = true -> can_x m = false ->
         es <> [] ->
         forallb (fun kv => usable (child fp (fst kv))) es = true ->
         ListDirTool.execute E path t
         = (Ok (py "Error: Permission denied: " ++ path), t)).
Proof.
  intros Hfp. split; [|split].
  - intros m bs Hl. unfold ListDirTool.execute. apply guarded_ok.
    rewrite Hfp. run (lift_ok fp t).
    run (path_exists_found _ _ _ _ Hl). run (is_dir_found _ _ _ _ Hl).
    reflexivity.
  - intros m es Hl Hr. unfold ListDirTool.execute.
    apply (guarded_denied E _ _ _ t [path_str fp] t).
    rewrite Hfp. run (lift_ok fp t).
    run (path_exists_found _ _ _ _ Hl). run (is_dir_found _ _ _ _ Hl).
    cbn [is_dir_node negb]. apply bind_raise.
    unfold iterdir, os_listdir. apply bind_raise. apply bind_raise.
    unfold os_scandir. run (resolve_found _ _ _ _ Hl). now rewrite Hr.
  - intros m es Hl Hr Hx Hne Hnul.
    destruct (sorted_nonempty fp es Hne) as (c & rest & Hs & Hin).
    unfold ListDirTool.execute.
    apply (guarded_denied E _ _ _ t [path_str (child fp c)] t).
    rewrite Hfp. run (lift_ok fp t).
    run (path_exists_found _ _ _ _ Hl). run (is_dir_found _ _ _ _ Hl).
    cbn [is_dir_node negb]. run (iterdir_dir _ _ _ _ _ Hl Hr).
    rewrite Hs. apply bind_raise. cbn [ListDirTool.collect].
    apply bind_raise. apply stat_test_unsearchable. split.
    + apply in_map_iff in Hin as (kv & <- & Hin).
      rewrite forallb_forall in Hnul. exact (Hnul _ Hin).
    + unfold child. cbn [parts]. rewrite namei_app by discriminate.
      rewrite (proj2 Hl). cbn [namei].
      now rewrite (namei_found _ _ _ _ _ (proj2 Hl)), Hx.
Qed.

Lemma list_dir_refusals_witness :
  ListDirTool.execute sample_env (py "/notes") sample_tree
  = (Ok (py "Error: Not a directory: " ++ py "/notes"), sample_tree)
  /\ ListDirTool.execute sample_env (py "/vault") locked_tree
     = (Ok (py "Error: Permission denied: " ++ py "/vault"), locked_tree).
Proof.
  split.
  - apply (proj1 (list_dir_refusals sample_env (py "/notes")
                    (parse_path (py "/notes")) sample_tree [py "notes"]
                    eq_refl)
             file_mode [x61; x2d; x62; x2d; x63] (conj eq_refl eq_refl)).
  - apply (proj1 (proj2 (list_dir_refusals sample_env (py "/vault")
                           (parse_path (py "/vault")) locked_tree
                           [py "vault"] eq_refl))
             (mkPerms false false false) [(py "key", File file_mode [x6b])]
             (conj eq_refl eq_refl) eq_refl).
Defined.

(** ** Copying and moving *)







(** ** Renaming, creating, and the home directory *)

Lemma joinpath_nothing p s :
  s = [] \/ s = py "." -> joinpath p s = mkPath (root p) (parts p).
Proof.
  intros [->| ->]; unfold joinpath; cbn; now rewrite app_nil_r.
Qed.

Lemma leads_to_parent_any t p l n :
  leads_to t p l n -> exists l' n', leads_to t (parent p) l' n'.
Proof.
  intros H. destruct (loc_dec (parts p) []) as [Hp|Hp].
  - rewrite (parent_rootlike _ Hp). eauto.
  - destruct (leads_to_parent _ _ _ _ H Hp) as (l' & m & es & Hl). eauto.
Qed.

Lemma joinpath_own_name p :
  clean p = true -> parts p <> [] -> joinpath (parent p) (path_name p) = p.
Proof.
  intros Hc Hp. rewrite (joinpath_plain _ _ (clean_last _ Hc Hp)).
  unfold parent at 1. cbn [root]. rewrite <- (parts_split _ Hp).
  apply path_eta.
Qed.





Lemma expanduser_raise_inv E p e :
  expanduser E p = Raise e ->
  e = mkExn RuntimeError None [py "Could not determine home directory."].
Proof.
  unfold expanduser. destruct (root p); [|discriminate].
  destruct (parts p) as [|first rest]; [discriminate|].
  destruct (startswith (py "~") first); [|discriminate].
  destruct (startswith (py "~") (os_expanduser E first)); [|discriminate].
  now intros [= <-].
Qed.

(** X23.  When the home directory of a path that begins with ["~"] cannot be
    determined, every tool answers with its general error message, made of the
    text of the [RuntimeError], and leaves the tree as it is. *)
Theorem unknown_home_is_reported E path e t :
  expanduser E (parse_path path) = Raise e ->
  e = mkExn RuntimeError None [py "Could not determine home directory."]
  /\ ReadFileTool.execute E path t
     = (Ok (py "Error reading file: " ++ exn_str E e), t)
  /\ (forall content,
         WriteFileTool.execute E path content t
         = (Ok (py "Error writing file: " ++ exn_str E e), t))
  /\ (forall old_text new_text,
         EditFileTool.execute E path old_text new_text t
         = (Ok (py "Error editing file: " ++ exn_str E e), t))
  /\ ListDirTool.execute E path t
     = (Ok (py "Error listing directory: " ++ exn_str E e), t)
  /\ (forall new_name,
         RenameFileTool.execute E path new_name t
         = (Ok (py "Error renaming: " ++ exn_str E e), t))
  /\ (forall destination,
         MoveFileTool.execute E path destination t
         = (Ok (py "Error moving: " ++ exn_str E e), t))
  /\ (forall destination,
         CopyFileTool.execute E path destination t
         = (Ok (py "Error copying: " ++ exn_str E e), t))
  /\ CreateDirTool.execute E path t
     = (Ok (py "Error creating directory: " ++ exn_str E e), t).
Proof.
  intros H. pose proof (expanduser_raise_inv _ _ _ H) as He.
  split; [exact He|].
  repeat split; intros;
    unfold ReadFileTool.execute, WriteFileTool.execute, EditFileTool.execute,
      ListDirTool.execute, RenameFileTool.execute, MoveFileTool.execute,
      CopyFileTool.execute, CreateDirTool.execute;
    (rewrite (guarded_raise E _ _ _ t e t);
     [subst e; reflexivity | rewrite H; reflexivity | subst e; reflexivity]).
Qed.

Lemma unknown_home_is_reported_witness :
  ReadFileTool.execute (mkEnv (fun s => s) (fun e => join (py "; ") (args e))
                              1000)
    (py "~/notes") sample_tree
  = (Ok (py "Error reading file: Could not determine home directory."),
     sample_tree).
Proof.
  apply (unknown_home_is_reported
           (mkEnv (fun s => s) (fun e => join (py "; ") (args e)) 1000)
           (py "~/notes")
           (mkExn RuntimeError None
                  [py "Could not determine home directory."])
           sample_tree eq_refl).
Defined.

Lemma os_mkdir_unsearchable t p :
  unsearchable t p ->
  os_mkdir p t = (Raise (os_error EACCES [path_str p]), t).
Proof.
  intros H. unfold os_mkdir. apply bind_raise.
  exact (resolve_unsearchable _ _ H).
Qed.

Lemma mkdir_unsearchable t p :
  unsearchable t p ->
  mkdir true true p t = (Raise (os_error EACCES [path_str p]), t).
Proof.
  intros H. unfold mkdir. rewrite mkdir_parents_unfold, rev_involutive.
  rewrite path_eta.
  rewrite (catch_raise _ _ _ _ _ (os_mkdir_unsearchable _ _ H)). classify.
  apply bind_raise. exact (stat_test_unsearchable _ _ _ H).
Qed.

(** An unsearchable way breaks off either before the last name or at the
    directory that is to hold it. *)
Lemma unsearchable_cases t p :
  unsearchable t p ->
  unsearchable t (parent p)
  \/ exists l m es, leads_to t (parent p) l (Dir m es).
Proof.
  intros [Hn Hr]. destruct (loc_dec (parts p) []) as [Hp|Hp].
  - rewrite Hp in Hr. cbn in Hr. discriminate.
  - destruct (exists_last Hp) as (ps & nm & Hps).
    assert (Hpar : parts (parent p) = ps).
    { unfold parent. cbn [parts]. rewrite Hps. apply removelast_last. }
    rewrite Hps, namei_app in Hr by discriminate.
    destruct (namei t [] ps) as [e|[l n|d' nm']] eqn:Hq.
    + left. split; [now apply usable_parent|]. rewrite Hpar, Hq.
      now rewrite Hr.
    + right. pose proof (namei_found _ _ _ _ _ Hq) as Hg.
      cbn [namei] in Hr. rewrite Hg in Hr.
      destruct n as [m bs|m es]; [discriminate|].
      exists l, m, es. split; [now apply usable_parent|]. now rewrite Hpar.
    + discriminate.
Qed.



Lemma expanduser_absolute E s :
  is_absolute s = true -> expanduser E (parse_path s) = Ok (parse_path s).
Proof.
  unfold is_absolute. destruct s as [|c s]; [discriminate|].
  cbn [py String.list_ascii_of_string map startswith].
  intros H. apply andb_prop in H as [Hc _].
  unfold expanduser, parse_path, splitroot.
  change (N_of_ascii "/") with sep in Hc. rewrite N.eqb_sym in Hc.
  rewrite Hc.
  destruct (Nat.eqb (length (c :: s) - length (lstrip_sep (c :: s))) 2);
    reflexivity.
Qed.

Lemma guarded_env E E' body denied prefix t :
  (forall e, exn_str E e = exn_str E' e) ->
  guarded E body denied prefix t = guarded E' body denied prefix t.
Proof.
  intros H. unfold guarded, catch. destruct (body t) as [[s|e] t0];
    [reflexivity|]. now rewrite H.
Qed.

(** X25.  A call whose paths all begin at the root does not depend on the home
    directory: two environments that differ in nothing else give the same
    answer and the same tree. *)
Theorem absolute_paths_ignore_home E E' r t :
  (forall e, exn_str E e = exn_str E' e) ->
  recursion_limit E = recursion_limit E' ->
  forallb is_absolute (request_paths r) = true ->
  execute E r t = execute E' r t.
Proof.
  intros Hs Hr Ha.
  destruct r; cbn [execute request_paths forallb] in *;
    repeat match goal with
           | H : _ && _ = true |- _ => apply andb_prop in H as [? H]
           end;
    unfold ReadFileTool.execute, WriteFileTool.execute, EditFileTool.execute,
      ListDirTool.execute, RenameFileTool.execute, MoveFileTool.execute,
      CopyFileTool.execute, CreateDirTool.execute, shutil_move;
    repeat match goal with
           | H : is_absolute ?s = true |- _ =>
               rewrite !(expanduser_absolute E s H),
                 !(expanduser_absolute E' s H); clear H
           end;
    rewrite ?Hr; apply guarded_env; exact Hs.
Qed.

Lemma absolute_paths_ignore_home_witness :
  execute sample_env (MoveFile (py "/notes") (py "/d")) sample_tree
  = execute (mkEnv (fun _ => py "/root") (exn_str sample_env) 1000)
            (MoveFile (py "/notes") (py "/d")) sample_tree.
Proof.
  apply (absolute_paths_ignore_home sample_env
           (mkEnv (fun _ => py "/root") (exn_str sample_env) 1000));
    reflexivity.
Defined.

(** ** Writing, then listing *)

Lemma leads_to_put_parent t p d m es nm v :
  leads_to t p d (Dir m es) -> lookup nm es = None ->
  leads_to (put t (d ++ [nm]) v) p d (Dir m (es ++ [(nm, v)])).
Proof.
  intros [Hn Hr] Hl. split; [exact Hn|].
  pose proof (namei_found _ _ _ _ _ Hr) as Hg.
  assert (Hfree : get t (d ++ [nm]) = None)
    by now rewrite (get_snoc _ _ _ _ _ Hg).
  destruct (namei_found_mono t (put t (d ++ [nm]) v))
    with (cs := parts p) (here := @nil str) (l := d) (n := Dir m es)
    as [n' Hn']; [|exact Hr|].
  - intros l' Hs. apply sig_put.
    destruct (is_prefix (d ++ [nm]) l') eqn:E; [|reflexivity].
    apply is_prefix_spec in E as [r ->].
    rewrite sig_none, get_app, Hfree in Hs. congruence.
  - rewrite Hn'. pose proof (namei_found _ _ _ _ _ Hn') as Hg'.
    rewrite <- (put_get _ _ _ Hg) in Hg' at 1.
    rewrite (put_new_entry _ _ _ _ _ v Hl) in Hg'.
    rewrite (get_put_exists _ _ _ _ Hg) in Hg'. congruence.
Qed.

Lemma distinct_snoc l c :
  distinct l = true -> ~ In c l -> distinct (l ++ [c]) = true.
Proof.
  induction l as [|x l IH]; [reflexivity|]. cbn [distinct app].
  intros H Hc. apply andb_prop in H as [Hx Hl].
  rewrite IH; [|exact Hl|intros Hin; apply Hc; now right].
  rewrite andb_true_r, existsb_app. cbn [existsb].
  apply negb_true_iff in Hx. rewrite Hx. cbn [orb].
  rewrite orb_false_r. apply negb_true_iff, str_eqb_neq.
  intros ->. apply Hc. now left.
Qed.

Lemma lookup_none_not_in c (es : list (str * node)) :
  lookup c es = None -> ~ In c (map fst es).
Proof.
  induction es as [|[k v] es IH]; [intros _ []|]. cbn [lookup map fst In].
  destruct (str_eqb k c) eqn:E; [discriminate|]. intros H [->|Hin].
  - now rewrite str_eqb_refl in E.
  - now apply IH.
Qed.



(** ** What a successful rename has done *)

Lemma leads_to_fun t p l n l' n' :
  leads_to t p l n -> leads_to t p l' n' -> l = l' /\ n = n'.
Proof. intros [_ H] [_ H']. rewrite H in H'. now injection H' as -> ->. Qed.

(** An answer that begins like a success message comes from the body of
    [execute], not from its handlers. *)
Lemma guarded_success_inv E body denied prefix t s t' :
  guarded E body denied prefix t = (Ok s, t') ->
  hd 0%N s <> hd 0%N denied -> prefix <> [] -> hd 0%N s <> hd 0%N prefix ->
  body t = (Ok s, t').
Proof.
  unfold guarded, catch. destruct (body t) as [[s0|e] t0]; [auto|].
  intros H Hd Hne Hp. exfalso. destruct (isinstance e PermissionError).
  - apply ok_inj in H as [H _]. subst s. now apply Hd.
  - destruct (isinstance e Exception); [|discriminate].
    apply ok_inj in H as [H _]. subst s. apply Hp.
    destruct prefix; [congruence | reflexivity].
Qed.

(** Two answers that begin with different characters are different. *)
Ltac wrong_answer H :=
  exfalso; apply ok_inj in H as [H _];
  apply (f_equal (hd 0%N)) in H; vm_compute in H; discriminate H.

Lemma parse_no_sep s :
  existsb (N.eqb sep) s = false ->
  parse_path s = mkPath [] (if is_component s then [s] else []).
Proof.
  intros Hs. unfold parse_path.
  assert (Hroot : splitroot s = ([], s)).
  { destruct s as [|x s]; [reflexivity|]. cbn [splitroot].
    cbn [existsb] in Hs. apply orb_false_iff in Hs as [Hx _].
    now rewrite N.eqb_sym, Hx. }
  now rewrite Hroot, (split_sep_plain _ Hs).
Qed.

Lemma os_rename_ok_inv src dst t t' sl sn :
  os_rename src dst t = (Ok tt, t') ->
  leads_to t src sl sn ->
  (exists dl dn, leads_to t dst dl dn)
  \/ (exists d nm, free_at t dst d nm /\ ends_in_name src = true
                   /\ t' = put (remove t sl) (d ++ [nm]) sn).
Proof.
  intros H Hs. revert H. unfold os_rename. run (resolve_found _ _ _ _ Hs).
  unfold bind at 1. destruct (resolve dst t) as [[tg|e] t0] eqn:Hr;
    [|discriminate].
  pose proof (resolve_state Hr). subst t0.
  apply resolve_ok_inv in Hr as [Hn Hr].
  destruct tg as [dl dn|d nm]; [intros _; left; exists dl, dn; now split|].
  intros H. right. exists d, nm. split; [now split|].
  revert H. unfold bind, get_tree.
  destruct (ends_in_name src); [|discriminate]. cbn [negb orb].
  destruct (negb (ends_in_name dst)); [discriminate|].
  destruct (loc_eqb sl (d ++ [nm])) eqn:Eq.
  - exfalso. apply loc_eqb_eq in Eq. subst sl.
    pose proof (namei_found _ _ _ _ _ (proj2 Hs)) as Hg.
    rewrite (free_at_get t dst d nm (conj Hn Hr)) in Hg. discriminate.
  - destruct (is_prefix sl (d ++ [nm])); [discriminate|].
    destruct (negb _); [discriminate|].
    destruct (_ && _); [discriminate|].
    unfold set_tree. intros [= <-]. auto.
Qed.

(** X27.  In a tree of directories and regular files, a [rename_file] that
    answers with its success message has replaced no directory and no file
    and has kept the entry in its directory: [new_name] was an ordinary name
    that was free there, and the tree differs only in that the node has left
    its old name for the new one.  Symbolic links are not part of the tree:
    a dangling link under [new_name], which [exists()] does not see and
    [os.rename] replaces, is outside this statement. *)
Theorem rename_file_success_inv E old_path new_name t t' :
  RenameFileTool.execute E old_path new_name t
  = (Ok (py "Successfully renamed " ++ old_path ++ py " to " ++ new_name),
     t') ->
  exists fp sl sn,
    expanduser E (parse_path old_path) = Ok fp
    /\ leads_to t fp sl sn
    /\ plain_name new_name = true
    /\ get t (removelast sl ++ [new_name]) = None
    /\ t' = put (remove t sl) (removelast sl ++ [new_name]) sn.
Proof.
  intros H. unfold RenameFileTool.execute in H.
  apply guarded_success_inv in H; [|vm_compute; congruence..].
  destruct (expanduser E (parse_path old_path)) as [fp|e] eqn:Hfp;
    [|discriminate].
  revert H. run (lift_ok fp t). unfold bind at 1.
  destruct (path_exists fp t) as [[x|e] t0] eqn:Hx; [|discriminate].
  pose proof (stat_test_state Hx). subst t0.
  destruct x; cbn [negb];
    [|intros H; wrong_answer H].
  destruct (RenameFileTool.has_separator new_name) eqn:Hsep;
    [intros H; wrong_answer H|].
  unfold bind at 1.
  destruct (path_exists (joinpath (parent fp) new_name) t) as [[y|e] t0]
    eqn:Hy; [|discriminate].
  pose proof (stat_test_state Hy). subst t0.
  destruct y;
    [intros H; wrong_answer H|].
  unfold bind at 1, rename.
  destruct (os_rename fp (joinpath (parent fp) new_name) t) as [[[]|e] t0]
    eqn:Hren; [|discriminate].
  intros H. apply ok_inj in H as [_ ->].
  destruct (path_exists_true_inv _ _ _ Hx) as (sl & sn & Hl).
  exists fp, sl, sn. split; [reflexivity|]. split; [exact Hl|].
  destruct (os_rename_ok_inv _ _ _ _ _ _ Hren Hl)
    as [(dl & dn & Hd)|(d & nm & Hfr & Hend & ->)].
  { rewrite (path_exists_found _ _ _ _ Hd) in Hy. discriminate. }
  pose proof (has_separator_false _ Hsep) as Hns.
  assert (Hplain : plain_name new_name = true).
  { unfold plain_name. rewrite Hns, andb_true_r.
    destruct (is_component new_name) eqn:Hc; [reflexivity|]. exfalso.
    destruct (leads_to_parent_any _ _ _ _ Hl) as (l' & n' & Hp).
    assert (Hj : joinpath (parent fp) new_name = parent fp).
    { unfold joinpath. rewrite (parse_no_sep _ Hns), Hc. cbn [root parts].
      rewrite app_nil_r. apply path_eta. }
    rewrite Hj, (path_exists_found _ _ _ _ Hp) in Hy. discriminate. }
  split; [exact Hplain|].
  rewrite (joinpath_plain _ _ Hplain) in Hfr.
  destruct (free_at_parent _ _ _ _ Hfr)
    as (m & es & Hpar & Hnone & _ & _ & Hparts).
  rewrite parent_child in Hpar, Hparts. cbn [parts] in Hparts.
  apply app_inj_tail in Hparts as [_ Hnm]. subst nm.
  destruct (leads_to_split _ _ _ _ Hl Hend) as (d0 & m0 & es0 & Hp0 & _ & Hsl & _).
  assert (Hrp : mkPath (root (parent fp)) (parts (parent fp)) = parent fp)
    by apply path_eta.
  rewrite Hrp in Hpar.
  destruct (leads_to_fun _ _ _ _ _ _ Hp0 Hpar) as [-> _].
  assert (Hd : removelast sl = d) by (rewrite Hsl; apply removelast_last).
  rewrite Hd. split; [|reflexivity].
  now rewrite (get_snoc _ _ _ _ _ (namei_found _ _ _ _ _ (proj2 Hpar))).
Qed.

Lemma rename_file_success_inv_witness :
  exists fp sl sn,
    expanduser sample_env (parse_path (py "/notes")) = Ok fp
    /\ leads_to sample_tree fp sl sn
    /\ plain_name (py "memo") = true
    /\ get sample_tree (removelast sl ++ [py "memo"]) = None
    /\ put (remove sample_tree [py "notes"]) [py "memo"]
           (File file_mode [x61; x2d; x62; x2d; x63])
       = put (remove sample_tree sl) (removelast sl ++ [py "memo"]) sn.
Proof.
  apply (rename_file_success_inv sample_env (py "/notes") (py "memo")
           sample_tree).
  reflexivity.
Defined.

(** ** What writing and creating never do *)

Lemma keeps_entries_read_only {A} (m : M A) : read_only m -> keeps_entries m.
Proof. intros H t r t' Hm l _. now rewrite (H _ _ _ Hm). Qed.

Lemma keeps_entries_bind {A B} (m : M A) (k : A -> M B) :
  keeps_entries m -> (forall a, keeps_entries (k a)) ->
  keeps_entries (bind m k).
Proof.
  intros Hm Hk t r t'. unfold bind.
  destruct (m t) as [[a|e] t0] eqn:Hmt.
  - intros Hka l Hl. pose proof (Hm _ _ _ Hmt l Hl) as H0.
    rewrite <- H0. apply (Hk a _ _ _ Hka). now rewrite H0.
  - intros [= _ <-]. exact (Hm _ _ _ Hmt).
Qed.

Lemma keeps_entries_catch {A} (m : M A) h :
  keeps_entries m -> (forall e, keeps_entries (h e)) ->
  keeps_entries (catch m h).
Proof.
  intros Hm Hh t r t'. unfold catch.
  destruct (m t) as [[a|e] t0] eqn:Hmt.
  - intros [= _ <-]. exact (Hm _ _ _ Hmt).
  - intros Hhe l Hl. pose proof (Hm _ _ _ Hmt l Hl) as H0.
    rewrite <- H0. apply (Hh e _ _ _ Hhe). now rewrite H0.
Qed.

Lemma sig_put_free t p v l :
  get t p = None -> sig t l <> None -> sig (put t p v) l = sig t l.
Proof.
  intros Hfree Hl. apply sig_put.
  destruct (is_prefix p l) eqn:E; [|reflexivity].
  apply is_prefix_spec in E as [r ->].
  rewrite sig_none, get_app, Hfree in Hl. congruence.
Qed.

Lemma keeps_entries_open_w p : keeps_entries (open_w p).
Proof.
  intros t r t'. unfold open_w, bind at 1.
  destruct (resolve p t) as [[tg|e] t0] eqn:Hr.
  - pose proof (resolve_state Hr). subst t0.
    apply resolve_ok_inv in Hr as [Hn Hr].
    unfold bind, get_tree, set_tree, fail, raise.
    destruct tg as [l0 [m d|m es]|d nm].
    + destruct (can_w m); intros [= _ <-] l Hl; [|reflexivity].
      exact (sig_put_file _ _ _ _ _ _ (namei_found _ _ _ _ _ Hr)).
    + now intros [= _ <-].
    + destruct (can_w (dir_perms t d)); intros [= _ <-] l Hl; [|reflexivity].
      apply sig_put_free; [|exact Hl].
      exact (free_at_get t p d nm (conj Hn Hr)).
  - pose proof (resolve_state Hr). subst t0. now intros [= _ <-].
Qed.

Lemma keeps_entries_write_data l bs : keeps_entries (write_data l bs).
Proof.
  intros t r t'. unfold write_data, bind, get_tree, set_tree, ret.
  destruct (get t l) as [[m d|m es]|] eqn:Hg; intros [= _ <-] l' Hl';
    try reflexivity.
  exact (sig_put_file _ _ _ _ _ _ Hg).
Qed.

Lemma keeps_entries_write_text p s : keeps_entries (write_text p s).
Proof.
  unfold write_text. apply keeps_entries_bind; [apply keeps_entries_open_w|].
  intros l. destruct (utf8_encode s).
  - apply keeps_entries_write_data.
  - apply keeps_entries_read_only, read_only_raise.
Qed.

Lemma keeps_entries_os_mkdir p : keeps_entries (os_mkdir p).
Proof.
  intros t r t' H l Hl.
  destruct (os_mkdir_inv _ _ _ _ H) as [(_ & d & nm & Hfr & ->)|(e & _ & ->)];
    [|reflexivity].
  apply sig_put_free; [|exact Hl]. exact (free_at_get _ _ _ _ Hfr).
Qed.

Lemma keeps_entries_mkdir_handler ok p e :
  keeps_entries
    (if negb ok then raise e
     else (d <- is_dir p ;; if d then ret tt else raise e)%fs).
Proof.
  apply keeps_entries_read_only. destruct (negb ok); [apply read_only_raise|].
  apply read_only_bind; [apply read_only_stat_test|].
  intros []; [apply read_only_ret | apply read_only_raise].
Qed.

Lemma keeps_entries_mkdir_one ok p : keeps_entries (mkdir_one ok p).
Proof.
  unfold mkdir_one. apply keeps_entries_catch; [apply keeps_entries_os_mkdir|].
  intros e. destruct (isinstance e FileNotFoundError);
    [apply keeps_entries_read_only, read_only_raise|].
  destruct (isinstance e OSError);
    [apply keeps_entries_mkdir_handler
    |apply keeps_entries_read_only, read_only_raise].
Qed.

Lemma keeps_entries_mkdir_parents r rparts :
  forall ok, keeps_entries (mkdir_parents ok r rparts).
Proof.
  induction rparts as [|c up IH]; intros ok; rewrite mkdir_parents_unfold;
    (apply keeps_entries_catch; [apply keeps_entries_os_mkdir|]);
    intros e; destruct (isinstance e FileNotFoundError);
    try (destruct (isinstance e OSError);
         [apply keeps_entries_mkdir_handler
         |apply keeps_entries_read_only, read_only_raise]).
  - apply keeps_entries_read_only, read_only_raise.
  - apply keeps_entries_bind; [apply IH|].
    intros _. apply keeps_entries_mkdir_one.
Qed.

Lemma keeps_entries_mkdir parents ok p : keeps_entries (mkdir parents ok p).
Proof.
  unfold mkdir. destruct parents;
    [apply keeps_entries_mkdir_parents | apply keeps_entries_mkdir_one].
Qed.

Lemma keeps_entries_guarded E body denied prefix :
  keeps_entries body -> keeps_entries (guarded E body denied prefix).
Proof.
  intros H. unfold guarded. apply keeps_entries_catch; [exact H|].
  intros e. apply keeps_entries_read_only.
  destruct (isinstance e PermissionError); [apply read_only_ret|].
  destruct (isinstance e Exception);
    [apply read_only_ret | apply read_only_raise].
Qed.

(** X28.  Whatever they answer, [write_file], [edit_file] and [create_dir]
    never remove anything: every file and directory that existed before the
    call exists after it, is of the same kind and has the same access bits.
    *)
Theorem no_entry_is_lost E :
  (forall path content, keeps_entries (WriteFileTool.execute E path content))
  /\ (forall path old_text new_text,
         keeps_entries (EditFileTool.execute E path old_text new_text))
  /\ (forall path, keeps_entries (CreateDirTool.execute E path)).
Proof.
  split; [|split]; intros;
    unfold WriteFileTool.execute, EditFileTool.execute, CreateDirTool.execute;
    apply keeps_entries_guarded.
  - apply keeps_entries_bind;
      [apply keeps_entries_read_only, read_only_lift|]. intros fp.
    apply keeps_entries_bind; [apply keeps_entries_mkdir|]. intros _.
    apply keeps_entries_bind; [apply keeps_entries_write_text|]. intros _.
    apply keeps_entries_read_only, read_only_ret.
  - apply keeps_entries_bind;
      [apply keeps_entries_read_only, read_only_lift|]. intros fp.
    apply keeps_entries_bind;
      [apply keeps_entries_read_only, read_only_stat_test|]. intros x.
    destruct (negb x); [apply keeps_entries_read_only, read_only_ret|].
    apply keeps_entries_bind;
      [apply keeps_entries_read_only, read_only_read_text|]. intros c.
    destruct (negb (contains old_text c));
      [apply keeps_entries_read_only, read_only_ret|].
    destruct (1 <? count c old_text);
      [apply keeps_entries_read_only, read_only_ret|].
    apply keeps_entries_bind; [apply keeps_entries_write_text|]. intros _.
    apply keeps_entries_read_only, read_only_ret.
  - apply keeps_entries_bind;
      [apply keeps_entries_read_only, read_only_lift|]. intros fp.
    apply keeps_entries_bind;
      [apply keeps_entries_read_only, read_only_stat_test|]. intros x.
    destruct x.
    + apply keeps_entries_read_only.
      apply read_only_bind; [apply read_only_stat_test|].
      intros []; apply read_only_ret.
    + apply keeps_entries_bind; [apply keeps_entries_mkdir|]. intros _.
      apply keeps_entries_read_only, read_only_ret.
Qed.

Lemma no_entry_is_lost_witness :
  sig (snd (WriteFileTool.execute sample_env (py "/notes") [0xD800%N]
              sample_tree)) [py "notes"]
  = sig sample_tree [py "notes"].
Proof.
  apply (proj1 (no_entry_is_lost sample_env) (py "/notes") [0xD800%N]
           sample_tree
           (fst (WriteFileTool.execute sample_env (py "/notes") [0xD800%N]
                   sample_tree))
           (snd (WriteFileTool.execute sample_env (py "/notes") [0xD800%N]
                   sample_tree)));
    [reflexivity | discriminate].
Defined.

Lemma keeps_files_read_only {A} (m : M A) : read_only m -> keeps_files m.
Proof. intros H t r t' Hm l m0 bs Hg. now rewrite (H _ _ _ Hm). Qed.

Lemma keeps_files_bind {A B} (m : M A) (k : A -> M B) :
  keeps_files m -> (forall a, keeps_files (k a)) -> keeps_files (bind m k).
Proof.
  intros Hm Hk t r t'. unfold bind.
  destruct (m t) as [[a|e] t0] eqn:Hmt.
  - intros Hka l m0 bs Hg. apply (Hk a _ _ _ Hka).
    exact (Hm _ _ _ Hmt _ _ _ Hg).
  - intros [= _ <-]. exact (Hm _ _ _ Hmt).
Qed.

Lemma keeps_files_catch {A} (m : M A) h :
  keeps_files m -> (forall e, keeps_files (h e)) -> keeps_files (catch m h).
Proof.
  intros Hm Hh t r t'. unfold catch.
  destruct (m t) as [[a|e] t0] eqn:Hmt.
  - intros [= _ <-]. exact (Hm _ _ _ Hmt).
  - intros Hhe l m0 bs Hg. apply (Hh e _ _ _ Hhe).
    exact (Hm _ _ _ Hmt _ _ _ Hg).
Qed.

Lemma keeps_files_os_mkdir p : keeps_files (os_mkdir p).
Proof.
  intros t r t' H l m bs Hg.
  destruct (os_mkdir_inv _ _ _ _ H) as [(_ & d & nm & Hfr & ->)|(e & _ & ->)];
    [|exact Hg].
  pose proof (free_at_get _ _ _ _ Hfr) as Hfree.
  rewrite get_put_other; [exact Hg| |].
  - destruct (is_prefix (d ++ [nm]) l) eqn:E; [|reflexivity].
    apply is_prefix_spec in E as [r0 ->].
    rewrite get_app, Hfree in Hg. discriminate.
  - exact (file_not_above t l m bs d nm Hg (free_at_dir _ _ _ _ Hfr) Hfree).
Qed.

Lemma keeps_files_mkdir_handler ok p e :
  keeps_files
    (if negb ok then raise e
     else (d <- is_dir p ;; if d then ret tt else raise e)%fs).
Proof.
  apply keeps_files_read_only. destruct (negb ok); [apply read_only_raise|].
  apply read_only_bind; [apply read_only_stat_test|].
  intros []; [apply read_only_ret | apply read_only_raise].
Qed.

Lemma keeps_files_mkdir_one ok p : keeps_files (mkdir_one ok p).
Proof.
  unfold mkdir_one. apply keeps_files_catch; [apply keeps_files_os_mkdir|].
  intros e. destruct (isinstance e FileNotFoundError);
    [apply keeps_files_read_only, read_only_raise|].
  destruct (isinstance e OSError);
    [apply keeps_files_mkdir_handler
    |apply keeps_files_read_only, read_only_raise].
Qed.

Lemma keeps_files_mkdir_parents r rparts :
  forall ok, keeps_files (mkdir_parents ok r rparts).
Proof.
  induction rparts as [|c up IH]; intros ok; rewrite mkdir_parents_unfold;
    (apply keeps_files_catch; [apply keeps_files_os_mkdir|]);
    intros e; destruct (isinstance e FileNotFoundError);
    try (destruct (isinstance e OSError);
         [apply keeps_files_mkdir_handler
         |apply keeps_files_read_only, read_only_raise]).
  - apply keeps_files_read_only, read_only_raise.
  - apply keeps_files_bind; [apply IH|].
    intros _. apply keeps_files_mkdir_one.
Qed.

(** X29.  [create_dir] never touches a regular file: whatever it answers,
    every file that existed before the call is still there, with the same
    bytes and the same access bits. *)
Theorem create_dir_keeps_files E path :
  keeps_files (CreateDirTool.execute E path).
Proof.
  unfold CreateDirTool.execute, guarded.
  apply keeps_files_catch.
  - apply keeps_files_bind; [apply keeps_files_read_only, read_only_lift|].
    intros fp.
    apply keeps_files_bind;
      [apply keeps_files_read_only, read_only_stat_test|]. intros x.
    destruct x.
    + apply keeps_files_read_only.
      apply read_only_bind; [apply read_only_stat_test|].
      intros []; apply read_only_ret.
    + apply keeps_files_bind; [apply keeps_files_mkdir_parents|]. intros _.
      apply keeps_files_read_only, read_only_ret.
  - intros e. apply keeps_files_read_only.
    destruct (isinstance e PermissionError); [apply read_only_ret|].
    destruct (isinstance e Exception);
      [apply read_only_ret | apply read_only_raise].
Qed.

Lemma create_dir_keeps_files_witness :
  get (snd (CreateDirTool.execute sample_env (py "/a/x/y") sample_tree))
      [py "a"; py "f"]
  = Some (File file_mode []).
Proof.
  apply (create_dir_keeps_files sample_env (py "/a/x/y") sample_tree
           (fst (CreateDirTool.execute sample_env (py "/a/x/y") sample_tree))
           (snd (CreateDirTool.execute sample_env (py "/a/x/y") sample_tree)));
    reflexivity.
Defined.

(** ** The declarations *)

(** X30.  The declarations agree with one another and with the signatures: the
    eight names are pairwise different; every schema requires exactly the
    properties it declares, all of them strings; and an argument mapping binds
    to the parameters of [execute] exactly when it has a value for every
    required key and none for [self], whatever else it holds. *)
Theorem schema_matches_signature :
  NoDup (map tool_name all_tools)
  /\ (forall k,
         tool_required k = map fst (tool_properties k)
         /\ forallb (fun kv => str_eqb (snd kv) (py "string"))
                    (tool_properties k) = true)
  /\ (forall k args,
         (kwarg (py "self") args = None
          /\ forall key, In key (tool_required k) -> kwarg key args <> None)
         <-> bind_arguments k args <> None).
Proof.
  split; [|split].
  - apply distinct_NoDup. reflexivity.
  - intros []; split; reflexivity.
  - intros k args. unfold bind_arguments. split.
    + intros [Hself H]. rewrite Hself.
      destruct k; cbn [tool_required] in *;
        unfold ReadFileTool.required, WriteFileTool.required,
          EditFileTool.required, ListDirTool.required,
          RenameFileTool.required, MoveFileTool.required,
          CopyFileTool.required, CreateDirTool.required in H;
        repeat match goal with
               | |- context [kwarg ?key args] =>
                   let E := fresh "E" in
                   destruct (kwarg key args) eqn:E;
                   [|exfalso; apply (H key); [cbn; tauto | exact E]]
               end;
        cbn; discriminate.
    + intros H. destruct (kwarg (py "self") args) eqn:Hself; [congruence|].
      split; [reflexivity|]. intros key Hin.
      destruct k; cbn [tool_required] in *;
        unfold ReadFileTool.required, WriteFileTool.required,
          EditFileTool.required, ListDirTool.required,
          RenameFileTool.required, MoveFileTool.required,
          CopyFileTool.required, CreateDirTool.required in Hin;
        cbn [In] in Hin;
        repeat match type of Hin with
               | _ \/ _ => destruct Hin as [<-|Hin]
               | False => destruct Hin
               end;
        intros E; apply H; rewrite ?E;
        repeat match goal with
               | |- context [kwarg ?key args] => destruct (kwarg key args)
               end; reflexivity.
Qed.
